(** * CodeGraph extraction subsystem: a shallow embedding of
      [src/extraction/tree-sitter.ts] and the properties of its output,
      with the feature-request heuristic of [src/mcp/tools.ts].

    Conventions of the embedding.
    - A JavaScript string is a [string]: a sequence of code units, each below
      256.  Indices and lengths count code units, as in JavaScript.
    - JavaScript numbers that hold rows, columns and byte offsets of the
      syntax tree are [nat]; numbers stored in emitted records are [Z].
    - [Date.now()] is an oracle: the k-th reading of the clock is [clock k],
      and the number of readings made so far is part of the state.
    - The mutable fields of the extractor objects ([nodes], [edges],
      [unresolvedReferences], [errors], [nodeStack]) form an explicit state
      threaded through a small state monad. *)

From Stdlib Require Import List String Ascii NArith ZArith Lia Bool Arith.
From Stdlib Require Import DecimalString Relations.
Import ListNotations.
Open Scope string_scope.

(* ===================================================================== *)
(** * JavaScript string primitives                                         *)
(* ===================================================================== *)

Module JS.

Definition code (ch : ascii) : nat := nat_of_ascii ch.

Definition chars (s : string) : list ascii := list_ascii_of_string s.
Definition str (l : list ascii) : string := string_of_list_ascii l.

(** [s.substring(a, b)]: arguments are clamped to the length and swapped
    when [a > b]. *)
Definition substring (s : string) (a b : nat) : string :=
  String.substring (Nat.min a b) (Nat.max a b - Nat.min a b) s.

(** [s.substring(a)] *)
Definition substringFrom (s : string) (a : nat) : string :=
  String.substring a (String.length s - a) s.

Fixpoint startsWith (p s : string) : bool :=
  match p, s with
  | EmptyString, _ => true
  | String a p', String b s' => Ascii.eqb a b && startsWith p' s'
  | String _ _, EmptyString => false
  end.

(** [s.includes(p)] *)
Fixpoint includes (s p : string) : bool :=
  startsWith p s ||
  match s with
  | EmptyString => false
  | String _ s' => includes s' p
  end.

(** White space and line terminators of ECMAScript among the code units
    below 256: TAB, LF, VT, FF, CR, SP, NBSP. *)
Definition isWhiteSpace (ch : ascii) : bool :=
  let n := code ch in
  (Nat.leb 9 n && Nat.leb n 13) || Nat.eqb n 32 || Nat.eqb n 160.

Definition isLineTerminator (ch : ascii) : bool :=
  let n := code ch in Nat.eqb n 10 || Nat.eqb n 13.

Fixpoint dropWhile (p : ascii -> bool) (l : list ascii) : list ascii :=
  match l with
  | [] => []
  | ch :: r => if p ch then dropWhile p r else l
  end.

(** [s.trim()] *)
Definition trim (s : string) : string :=
  str (rev (dropWhile isWhiteSpace (rev (dropWhile isWhiteSpace (chars s))))).

(** Truthiness of a string: the empty string is falsy. *)
Definition truthy (s : string) : bool :=
  match s with EmptyString => false | _ => true end.

(** [s.split(sep)] for a one-character separator. *)
Fixpoint splitOn (sep : ascii) (s : string) : list string :=
  match s with
  | EmptyString => [EmptyString]
  | String ch r =>
      if Ascii.eqb ch sep then EmptyString :: splitOn sep r
      else match splitOn sep r with
           | [] => [String ch EmptyString]
           | x :: xs => String ch x :: xs
           end
  end.

Definition join (sep : string) (l : list string) : string :=
  String.concat sep l.

(** Decimal rendering of an integer by a template literal. *)
Definition ofNat (n : nat) : string := NilZero.string_of_uint (Nat.to_uint n).

Definition ofZ (z : Z) : string :=
  match z with
  | Z0 => "0"
  | Zpos p => ofNat (Pos.to_nat p)
  | Zneg p => "-" ++ ofNat (Pos.to_nat p)
  end.

End JS.

(* ===================================================================== *)
(** * SHA-256 ([crypto.createHash('sha256')], FIPS 180-4)                  *)
(* ===================================================================== *)

Module Sha256.
Local Open Scope list_scope.
Local Open Scope N_scope.

Definition w32 (x : N) : N := x mod 4294967296.
Definition add32 (x y : N) : N := w32 (x + y).
Definition rotr (n x : N) : N :=
  N.lor (N.shiftr x n) (w32 (N.shiftl x (32 - n))).
Definition shr (n x : N) : N := N.shiftr x n.
Definition not32 (x : N) : N := N.lxor x 4294967295.

Definition Ch (x y z : N) : N := N.lxor (N.land x y) (N.land (not32 x) z).
Definition Maj (x y z : N) : N :=
  N.lxor (N.lxor (N.land x y) (N.land x z)) (N.land y z).
Definition bigSigma0 (x : N) : N :=
  N.lxor (N.lxor (rotr 2 x) (rotr 13 x)) (rotr 22 x).
Definition bigSigma1 (x : N) : N :=
  N.lxor (N.lxor (rotr 6 x) (rotr 11 x)) (rotr 25 x).
Definition smallSigma0 (x : N) : N :=
  N.lxor (N.lxor (rotr 7 x) (rotr 18 x)) (shr 3 x).
Definition smallSigma1 (x : N) : N :=
  N.lxor (N.lxor (rotr 17 x) (rotr 19 x)) (shr 10 x).

(** The round constants are the first thirty-two bits of the fractional
    parts of the cube roots of the first sixty-four primes, the initial
    hash value those of the square roots of the first eight. *)
Definition isPrime (n : nat) : bool :=
  forallb (fun d => negb (Nat.eqb (Nat.modulo n d) 0)) (seq 2 (n - 2)).
Definition primes : list nat := filter isPrime (seq 2 310).

(** The largest [r] below two to the [bits] with [r ^ k <= x]. *)
Fixpoint root (k : N) (bits : nat) (x r : N) : N :=
  match bits with
  | O => r
  | S b =>
      let c := r + 2 ^ N.of_nat b in
      root k b x (if c ^ k <=? x then c else r)
  end.
Definition fraction (k : N) (p : nat) : N :=
  root k 36 (N.of_nat p * 2 ^ (32 * k)) 0 mod 4294967296.

Definition K : list N := Eval vm_compute in map (fraction 3) primes.
Definition H0 : list N := Eval vm_compute in map (fraction 2) (firstn 8 primes).

(** Big-endian bytes of [x], [n] of them. *)
Fixpoint bytesBE (n : nat) (x : N) : list N :=
  match n with
  | O => []
  | S n' => bytesBE n' (x / 256) ++ [x mod 256]
  end.

(** Message padding: a one bit, zero bits up to 56 modulo 64 bytes, then
    the length in bits on eight bytes. *)
Definition pad (msg : list N) : list N :=
  let len := List.length msg in
  let zeros := ((119 - (len mod 64)) mod 64)%nat in
  msg ++ [128] ++ repeat 0 zeros ++ bytesBE 8 (N.of_nat len * 8).

Fixpoint words (fuel : nat) (bs : list N) : list N :=
  match fuel, bs with
  | S f, b0 :: b1 :: b2 :: b3 :: r =>
      (((b0 * 256 + b1) * 256 + b2) * 256 + b3) :: words f r
  | _, _ => []
  end.

Fixpoint blocks (fuel : nat) (ws : list N) : list (list N) :=
  match fuel, ws with
  | S f, _ :: _ => firstn 16 ws :: blocks f (skipn 16 ws)
  | _, _ => []
  end.

(** Message schedule, most recent word first. *)
Fixpoint schedule (n : nat) (rev_w : list N) : list N :=
  match n with
  | O => rev_w
  | S n' =>
      let w := add32 (add32 (smallSigma1 (nth 1 rev_w 0)) (nth 6 rev_w 0))
                     (add32 (smallSigma0 (nth 14 rev_w 0)) (nth 15 rev_w 0)) in
      schedule n' (w :: rev_w)
  end.

Record Regs := mkRegs { ra : N; rb : N; rc : N; rd : N;
                        re : N; rf : N; rg : N; rh : N }.

Definition round (r : Regs) (kw : N * N) : Regs :=
  let '(k, w) := kw in
  let t1 := add32 (add32 (add32 (rh r) (bigSigma1 (re r)))
                         (add32 (Ch (re r) (rf r) (rg r)) k)) w in
  let t2 := add32 (bigSigma0 (ra r)) (Maj (ra r) (rb r) (rc r)) in
  mkRegs (add32 t1 t2) (ra r) (rb r) (rc r)
         (add32 (rd r) t1) (re r) (rf r) (rg r).

Definition compress (h : Regs) (block : list N) : Regs :=
  let w := rev (schedule 48 (rev block)) in
  let r := fold_left round (combine K w) h in
  mkRegs (add32 (ra h) (ra r)) (add32 (rb h) (rb r))
         (add32 (rc h) (rc r)) (add32 (rd h) (rd r))
         (add32 (re h) (re r)) (add32 (rf h) (rf r))
         (add32 (rg h) (rg r)) (add32 (rh h) (rh r)).

Definition initial : Regs :=
  mkRegs (nth 0 H0 0) (nth 1 H0 0) (nth 2 H0 0) (nth 3 H0 0)
         (nth 4 H0 0) (nth 5 H0 0) (nth 6 H0 0) (nth 7 H0 0).

Definition digest (msg : list N) : list N :=
  let p := pad msg in
  let bl := blocks (List.length p) (words (List.length p) p) in
  let r := fold_left compress bl initial in
  flat_map (bytesBE 4)
    [ra r; rb r; rc r; rd r; re r; rf r; rg r; rh r].

Definition hexDigit (n : N) : ascii :=
  if n <? 10 then ascii_of_N (48 + n) else ascii_of_N (87 + n).

Definition hex (bs : list N) : string :=
  JS.str (flat_map (fun b => [hexDigit (b / 16); hexDigit (b mod 16)]) bs).

(** UTF-8 encoding of a string of code units below 256. *)
Definition utf8 (s : string) : list N :=
  flat_map (fun ch => let n := N_of_ascii ch in
                      if n <? 128 then [n]
                      else [192 + n / 64; 128 + n mod 64])
           (JS.chars s).

(** [createHash('sha256').update(s).digest('hex')] *)
Definition sha256hex (s : string) : string := hex (digest (utf8 s)).

End Sha256.

(* ===================================================================== *)
(** * Regular expressions (the backtracking matcher of ECMAScript)         *)
(* ===================================================================== *)

Module Regex.
Local Open Scope list_scope.

Inductive re : Type :=
| Eps                              (* empty pattern *)
| Chr (p : ascii -> bool)          (* a character class *)
| Seq (r1 r2 : re)                 (* r1 r2 *)
| Alt (r1 r2 : re)                 (* r1|r2 *)
| Star (r : re)                    (* r*, greedy *)
| StarLazy (r : re)                (* r*?, lazy *)
| Group (i : nat) (r : re)         (* the i-th capturing group *)
| Bol                              (* ^ *)
| Eol.                             (* $ *)

Definition Opt (r : re) : re := Alt r Eps.            (* r? *)
Definition Plus (r : re) : re := Seq r (Star r).      (* r+ *)

Fixpoint Lit (s : string) : re :=
  match s with
  | EmptyString => Eps
  | String ch s' => Seq (Chr (Ascii.eqb ch)) (Lit s')
  end.

Fixpoint Cat (l : list re) : re :=
  match l with
  | [] => Eps
  | r :: l' => Seq r (Cat l')
  end.

(** Character classes used by the extractor. *)
Definition dquote : ascii := ascii_of_nat 34.
Definition squote : ascii := ascii_of_nat 39.
Definition isQuote (ch : ascii) : bool :=
  Ascii.eqb ch squote || Ascii.eqb ch dquote.
Definition space : ascii -> bool := JS.isWhiteSpace.            (* \s *)
Definition anyChar : ascii -> bool := fun _ => true.            (* [\s\S] *)
Definition word (ch : ascii) : bool :=                          (* \w *)
  let n := JS.code ch in
  (Nat.leb 48 n && Nat.leb n 57) || (Nat.leb 65 n && Nat.leb n 90) ||
  (Nat.leb 97 n && Nat.leb n 122) || Nat.eqb n 95.

(** A position of the subject string: the code unit before it, its index,
    the code units from it on, and the groups captured so far. *)
Record Input := mkInput {
  prev : option ascii;
  pos : nat;
  rest : list ascii;
  caps : list (nat * string)
}.

Definition atLineStart (multiline : bool) (i : Input) : bool :=
  match prev i with
  | None => true
  | Some ch => multiline && JS.isLineTerminator ch
  end.

Definition atLineEnd (multiline : bool) (i : Input) : bool :=
  match rest i with
  | [] => true
  | ch :: _ => multiline && JS.isLineTerminator ch
  end.

Definition orElse {A} (x y : option A) : option A :=
  match x with Some _ => x | None => y end.

(** [run ml r i k]: match [r] at [i], then the continuation [k]; the first
    alternative that lets the continuation succeed wins.  An iteration of
    a star that consumes nothing is rejected. *)
Fixpoint run (ml : bool) (r : re) (i : Input)
         (k : Input -> option Input) {struct r} : option Input :=
  match r with
  | Eps => k i
  | Chr p =>
      match rest i with
      | ch :: tl =>
          if p ch then k (mkInput (Some ch) (S (pos i)) tl (caps i)) else None
      | [] => None
      end
  | Seq r1 r2 => run ml r1 i (fun i' => run ml r2 i' k)
  | Alt r1 r2 => orElse (run ml r1 i k) (run ml r2 i k)
  | Star r1 =>
      (fix iter (fuel : nat) (i : Input) {struct fuel} : option Input :=
         match fuel with
         | O => k i
         | S f =>
             orElse (run ml r1 i (fun i' => if Nat.eqb (pos i') (pos i)
                                            then None else iter f i'))
                    (k i)
         end) (S (List.length (rest i))) i
  | StarLazy r1 =>
      (fix iter (fuel : nat) (i : Input) {struct fuel} : option Input :=
         match fuel with
         | O => k i
         | S f =>
             orElse (k i)
                    (run ml r1 i (fun i' => if Nat.eqb (pos i') (pos i)
                                            then None else iter f i'))
         end) (S (List.length (rest i))) i
  | Group n r1 =>
      run ml r1 i (fun i' =>
        k (mkInput (prev i') (pos i') (rest i')
             ((n, JS.str (firstn (pos i' - pos i) (rest i))) :: caps i')))
  | Bol => if atLineStart ml i then k i else None
  | Eol => if atLineEnd ml i then k i else None
  end.

(** The result of [exec]: [index], [match[0]], the captures, and the
    position that follows the match ([lastIndex]). *)
Record Match := mkMatch {
  index : nat;
  matched : string;
  groups : list (nat * string);
  next : Input
}.

Definition group (n : nat) (m : Match) : string :=
  match find (fun c => Nat.eqb (fst c) n) (groups m) with
  | Some c => snd c
  | None => EmptyString
  end.

Definition matchAt (ml : bool) (r : re) (i : Input) : option Match :=
  match run ml r (mkInput (prev i) (pos i) (rest i) []) Some with
  | Some e => Some (mkMatch (pos i)
                      (JS.str (firstn (pos e - pos i) (rest i)))
                      (caps e) e)
  | None => None
  end.

Definition advance (i : Input) : Input :=
  match rest i with
  | ch :: tl => mkInput (Some ch) (S (pos i)) tl (caps i)
  | [] => i
  end.

(** [r.exec(s)] from position [i]: the leftmost match. *)
Fixpoint exec (fuel : nat) (ml : bool) (r : re) (i : Input) : option Match :=
  match matchAt ml r i with
  | Some m => Some m
  | None =>
      match fuel, rest i with
      | S f, _ :: _ => exec f ml r (advance i)
      | _, _ => None
      end
  end.

Definition start (s : string) : Input := mkInput None 0 (JS.chars s) [].

(** The successive results of [exec] on a global regular expression,
    until it returns [null].  None of the patterns below matches the
    empty string; an empty match moves on by one code unit. *)
Fixpoint scan (fuel : nat) (ml : bool) (r : re) (i : Input) : list Match :=
  match fuel with
  | O => []
  | S f =>
      match exec (List.length (rest i)) ml r i with
      | None => []
      | Some m =>
          let j := next m in
          if Nat.eqb (pos j) (index m)
          then match rest j with
               | [] => [m]
               | _ :: _ => m :: scan f ml r (advance j)
               end
          else m :: scan f ml r j
      end
  end.

Definition matchAll (ml : bool) (r : re) (s : string) : list Match :=
  scan (S (String.length s)) ml r (start s).

(** The text of [s] with every match in [ms] replaced by [by_]. *)
Fixpoint splice (s : string) (from : nat) (ms : list Match) (by_ : string)
  : string :=
  match ms with
  | [] => JS.substringFrom s from
  | m :: ms' =>
      JS.substring s from (index m) ++ by_ ++ splice s (pos (next m)) ms' by_
  end%string.

(** [s.replace(/r/g, by_)] and [s.replace(/r/, by_)] *)
Definition replaceAll (ml : bool) (r : re) (s by_ : string) : string :=
  splice s 0 (matchAll ml r s) by_.

Definition replaceFirst (ml : bool) (r : re) (s by_ : string) : string :=
  splice s 0 (firstn 1 (matchAll ml r s)) by_.

End Regex.

(* ===================================================================== *)
(** * Data model ([src/types])                                             *)
(* ===================================================================== *)

Inductive Language : Type :=
| TypeScript | TSX | JavaScript | JSX | Python | Go | Rust | Java | CLang
| Cpp | CSharp | PHP | Ruby | Swift | Kotlin | Liquid | Unknown.

Definition languageTag (l : Language) : string :=
  match l with
  | TypeScript => "typescript" | TSX => "tsx" | JavaScript => "javascript"
  | JSX => "jsx" | Python => "python" | Go => "go" | Rust => "rust"
  | Java => "java" | CLang => "c" | Cpp => "cpp" | CSharp => "csharp"
  | PHP => "php" | Ruby => "ruby" | Swift => "swift" | Kotlin => "kotlin"
  | Liquid => "liquid" | Unknown => "unknown"
  end.

Definition Language_eqb (a b : Language) : bool :=
  String.eqb (languageTag a) (languageTag b).

Inductive NodeKind : Type :=
| KFile | KFunction | KMethod | KClass | KStruct | KInterface | KTrait
| KEnum | KEnumMember | KProperty | KConstant | KVariable | KTypeAlias
| KComponent | KRoute.

Definition kindTag (k : NodeKind) : string :=
  match k with
  | KFile => "file" | KFunction => "function" | KMethod => "method"
  | KClass => "class" | KStruct => "struct" | KInterface => "interface"
  | KTrait => "trait" | KEnum => "enum" | KEnumMember => "enum_member"
  | KProperty => "property" | KConstant => "constant"
  | KVariable => "variable" | KTypeAlias => "type_alias"
  | KComponent => "component" | KRoute => "route"
  end.

Definition NodeKind_eqb (a b : NodeKind) : bool :=
  String.eqb (kindTag a) (kindTag b).

Inductive Visibility : Type := Public | Private | Protected | Internal.

Inductive EdgeKind : Type :=
| EContains | ECalls | EImports | EExtends | EImplements | EReferences.

Inductive ReferenceKind : Type :=
| RCalls | RImports | RExtends | RImplements | RReferences.

Inductive Severity : Type := SevError | SevWarning.

Module Node.
Record t : Type := mk {
  id : string;
  kind : NodeKind;
  name : string;
  qualifiedName : string;
  filePath : string;
  language : Language;
  startLine : Z;
  endLine : Z;
  startColumn : Z;
  endColumn : Z;
  updatedAt : Z;
  visibility : option Visibility;
  isExported : option bool;
  isAsync : option bool;
  isStatic : option bool;
  isAbstract : option bool;
  signature : option string;
  docstring : option string;
  decorators : option (list string)
}.

(** The optional properties a caller of [createNode] passes as [extra];
    the call sites never pass any of the mandatory ones. *)
Record extra : Type := mkExtra {
  xVisibility : option Visibility;
  xIsExported : option bool;
  xIsAsync : option bool;
  xIsStatic : option bool;
  xIsAbstract : option bool;
  xSignature : option string;
  xDocstring : option string;
  xDecorators : option (list string)
}.

Definition noExtra : extra :=
  mkExtra None None None None None None None None.

Definition withUpdatedAt (z : Z) (n : t) : t :=
  mk (id n) (kind n) (name n) (qualifiedName n) (filePath n) (language n)
     (startLine n) (endLine n) (startColumn n) (endColumn n) z
     (visibility n) (isExported n) (isAsync n) (isStatic n) (isAbstract n)
     (signature n) (docstring n) (decorators n).
End Node.

Module Edge.
Record t : Type := mk { source : string; target : string; kind : EdgeKind }.
End Edge.

Module Ref.
Record t : Type := mk {
  fromNodeId : string;
  referenceName : string;
  referenceKind : ReferenceKind;
  line : Z;
  column : Z
}.
End Ref.

Module Err.
Record t : Type := mk { message : string; severity : Severity }.
End Err.

Module Result.
Record t : Type := mk {
  nodes : list Node.t;
  edges : list Edge.t;
  unresolvedReferences : list Ref.t;
  errors : list Err.t;
  durationMs : Z
}.
End Result.

(** [generateNodeId(filePath, kind, name, line)] *)
Definition generateNodeId (filePath : string) (kind : NodeKind)
           (name : string) (line : Z) : string :=
  let hash :=
    JS.substring
      (Sha256.sha256hex
         (filePath ++ ":" ++ kindTag kind ++ ":" ++ name ++ ":" ++ JS.ofZ line))
      0 32 in
  kindTag kind ++ ":" ++ hash.

(* ===================================================================== *)
(** * Concrete syntax trees (the [tree-sitter] interface)                  *)
(* ===================================================================== *)

Record Point : Type := mkPoint { row : nat; column : nat }.

(** A tree as the parser produces it: every node has a type, is named or
    anonymous, may be attached to its parent under a field name, covers a
    range of the source and has ordered children. *)
#[local] Set Warnings "-register-all".

Inductive Cst : Type := mkCst {
  type : string;
  isNamed : bool;
  field : option string;
  startIndex : nat;
  endIndex : nat;
  startPosition : Point;
  endPosition : Point;
  kids : list Cst
}.

Fixpoint height (t : Cst) : nat :=
  match t with
  | mkCst _ _ _ _ _ _ _ ks =>
      fold_right (fun k acc => Nat.max (S (height k)) acc) 0 ks
  end.

(** A [SyntaxNode] is a tree together with its place: its parent and the
    siblings before it, nearest first. *)
Record SyntaxNode : Type := mkSyntaxNode {
  cst : Cst;
  parentCst : option Cst;
  before : list Cst
}.

Definition rootNode (t : Cst) : SyntaxNode := mkSyntaxNode t None [].

Definition nodeType (n : SyntaxNode) : string := type (cst n).

Fixpoint placeChildren (p : Cst) (seen : list Cst) (ks : list Cst)
  : list SyntaxNode :=
  match ks with
  | [] => []
  | k :: r => mkSyntaxNode k (Some p) seen :: placeChildren p (k :: seen) r
  end.

(** [node.children], [node.namedChildren], [node.namedChild(i)] *)
Definition children (n : SyntaxNode) : list SyntaxNode :=
  placeChildren (cst n) [] (kids (cst n)).

Definition namedChildren (n : SyntaxNode) : list SyntaxNode :=
  filter (fun k => isNamed (cst k)) (children n).

Definition namedChild (n : SyntaxNode) (i : nat) : option SyntaxNode :=
  nth_error (namedChildren n) i.

(** [node.parent]; of the parent only its type and children are read. *)
Definition parent (n : SyntaxNode) : option SyntaxNode :=
  option_map rootNode (parentCst n).

(** [node.previousSibling], [node.previousNamedSibling] *)
Definition previousSibling (n : SyntaxNode) : option SyntaxNode :=
  match before n with
  | [] => None
  | p :: r => Some (mkSyntaxNode p (parentCst n) r)
  end.

Fixpoint firstNamed (p : option Cst) (l : list Cst) : option SyntaxNode :=
  match l with
  | [] => None
  | k :: r => if isNamed k then Some (mkSyntaxNode k p r) else firstNamed p r
  end.

Definition previousNamedSibling (n : SyntaxNode) : option SyntaxNode :=
  firstNamed (parentCst n) (before n).

(** [node.childForFieldName(f)] *)
Definition childForFieldName (n : SyntaxNode) (f : string)
  : option SyntaxNode :=
  find (fun k => match field (cst k) with
                 | Some g => String.eqb g f
                 | None => false
                 end) (children n).

(** The first element on which the body of a loop returns a value. *)
Fixpoint firstSome {A B} (f : A -> option B) (l : list A) : option B :=
  match l with
  | [] => None
  | x :: r => match f x with Some y => Some y | None => firstSome f r end
  end.

Definition orElseNode (a b : option SyntaxNode) : option SyntaxNode :=
  match a with Some _ => a | None => b end.

Definition typeIs (t : string) (n : SyntaxNode) : bool :=
  String.eqb (nodeType n) t.

Definition includesType (types : list string) (t : string) : bool :=
  existsb (String.eqb t) types.

(** [getNodeText(node, source)]; [node.text] is the same slice. *)
Definition getNodeText (node : SyntaxNode) (source : string) : string :=
  JS.substring source (startIndex (cst node)) (endIndex (cst node)).

(** [getChildByField(node, fieldName)]: by field name, else the first named
    child of that type. *)
Definition getChildByField (node : SyntaxNode) (fieldName : string)
  : option SyntaxNode :=
  match childForFieldName node fieldName with
  | Some byField => Some byField
  | None => find (typeIs fieldName) (namedChildren node)
  end.

Definition isCommentType (t : string) : bool :=
  String.eqb t "comment" || String.eqb t "line_comment" ||
  String.eqb t "block_comment" || String.eqb t "documentation_comment".

(** The comments right before [node], in source order. *)
Fixpoint precedingComments (fuel : nat) (sibling : option SyntaxNode)
         (source : string) (comments : list string) : list string :=
  match fuel, sibling with
  | S f, Some sib =>
      if isCommentType (nodeType sib)
      then precedingComments f (previousNamedSibling sib) source
             (getNodeText sib source :: comments)
      else comments
  | _, _ => comments
  end.

Module CommentMarkers.
Import Regex.
Local Open Scope list_scope.
Definition lit (ch : ascii) : ascii -> bool := Ascii.eqb ch.
(** [/^\/\*\*?|\*\/$/g] *)
Definition block : re :=
  Alt (Cat [Bol; Lit "/*"; Opt (Chr (lit "*"))]) (Cat [Lit "*/"; Eol]).
(** [/^\/\/\s?/gm] *)
Definition line : re := Cat [Bol; Lit "//"; Opt (Chr space)].
(** [/^\s*\*\s?/gm] *)
Definition star : re :=
  Cat [Bol; Star (Chr space); Chr (lit "*"); Opt (Chr space)].
Definition clean (c : string) : string :=
  JS.trim
    (replaceAll true star
       (replaceAll true line (replaceAll false block c EmptyString)
          EmptyString) EmptyString).
End CommentMarkers.

(** [getPrecedingDocstring(node, source)] *)
Definition getPrecedingDocstring (node : SyntaxNode) (source : string)
  : option string :=
  let comments :=
    precedingComments (S (List.length (before node)))
      (previousNamedSibling node) source [] in
  match comments with
  | [] => None
  | _ :: _ =>
      Some (JS.trim (JS.join (String (ascii_of_nat 10) EmptyString)
                       (map CommentMarkers.clean comments)))
  end.

(* ===================================================================== *)
(** * The extraction policy table ([EXTRACTORS])                           *)
(* ===================================================================== *)

(** The callbacks of the source read [child.text]; here they take the
    source text as an argument to slice it from. *)
Record LanguageExtractor : Type := mkLanguageExtractor {
  functionTypes : list string;
  classTypes : list string;
  methodTypes : list string;
  interfaceTypes : list string;
  structTypes : list string;
  enumTypes : list string;
  importTypes : list string;
  callTypes : list string;
  nameField : string;
  bodyField : string;
  paramsField : string;
  returnField : option string;
  getSignature : option (SyntaxNode -> string -> option string);
  getVisibility : option (SyntaxNode -> string -> option Visibility);
  isExported : option (SyntaxNode -> string -> bool);
  isAsync : option (SyntaxNode -> string -> bool);
  isStatic : option (SyntaxNode -> string -> bool)
}.

(** [kotlinHasModifier] and [swiftHasModifier] have the same body. *)
Definition kotlinHasModifier (node : SyntaxNode) (source modifier : string)
  : bool :=
  existsb (fun child => typeIs "modifiers" child &&
                        JS.includes (getNodeText child source) modifier)
          (children node).

Definition swiftHasModifier (node : SyntaxNode) (source modifier : string)
  : bool :=
  existsb (fun child => typeIs "modifiers" child &&
                        JS.includes (getNodeText child source) modifier)
          (children node).

Definition hasChildOfType (node : SyntaxNode) (t : string) : bool :=
  existsb (typeIs t) (children node).

Definition isKotlinInterface (node : SyntaxNode) : bool :=
  hasChildOfType node "interface".

Definition isKotlinEnum (node : SyntaxNode) : bool :=
  hasChildOfType node "enum".

Definition isKotlinAbstractClass (node : SyntaxNode) (source : string) : bool :=
  kotlinHasModifier node source "abstract".

(** [getSwiftDeclarationKind] *)
Definition getSwiftDeclarationKind (node : SyntaxNode) : option string :=
  firstSome (fun child =>
               if typeIs "class" child then Some "class"
               else if typeIs "struct" child then Some "struct"
               else if typeIs "actor" child then Some "actor"
               else if typeIs "extension" child then Some "extension"
               else if typeIs "enum" child then Some "enum"
               else None)
            (children node).

(** [getSwiftPropertyWrappers] *)
Definition getSwiftPropertyWrappers (node : SyntaxNode) (source : string)
  : list string :=
  map (fun child => getNodeText child source)
      (filter (typeIs "attribute") (children node)).

(** [getSwiftClassName]: the last [type_identifier] or [user_type] child
    names the declaration, the last [type_constraints] child is appended. *)
Definition getSwiftClassName (node : SyntaxNode) (source : string) : string :=
  let step (acc : string * string) (child : SyntaxNode) :=
    let name := if typeIs "type_identifier" child
                then getNodeText child source else fst acc in
    let name := if typeIs "user_type" child
                then getNodeText child source else name in
    let constraints := if typeIs "type_constraints" child
                       then " " ++ getNodeText child source else snd acc in
    (name, constraints) in
  let r := fold_left step (namedChildren node) ("<unknown>", EmptyString) in
  fst r ++ snd r.

(** [getSwiftPropertyName] *)
Definition getSwiftPropertyName (node : SyntaxNode) (source : string) : string :=
  match firstSome
          (fun child =>
             if typeIs "pattern" child
             then option_map (fun pc => getNodeText pc source)
                    (find (typeIs "simple_identifier") (namedChildren child))
             else None)
          (namedChildren node) with
  | Some nm => nm
  | None => "<unknown>"
  end.

(** [isSwiftConstant] *)
Definition isSwiftConstant (node : SyntaxNode) : bool :=
  existsb (fun child => typeIs "value_binding_pattern" child &&
                        existsb (typeIs "let") (children child))
          (namedChildren node).

Module Policy.
Local Open Scope list_scope.

(** Signature: the parameter list, then the return type after [sep]. *)
Definition paramsThen (paramsF returnF sep : string)
           (clean : string -> string)
           (node : SyntaxNode) (source : string) : option string :=
  match getChildByField node paramsF with
  | None => None
  | Some params =>
      let sig := getNodeText params source in
      match getChildByField node returnF with
      | Some returnType =>
          Some (sig ++ sep ++ clean (getNodeText returnType source))%string
      | None => Some sig
      end
  end.

(** [/^:\s*/] *)
Definition leadingColon : Regex.re :=
  Regex.Cat [Regex.Bol; Regex.Lit ":"; Regex.Star (Regex.Chr Regex.space)].

Definition exportedByStatement (node : SyntaxNode) (source : string) : bool :=
  match parent node with
  | Some p => if typeIs "export_statement" p then true
              else JS.includes
                     (JS.substring source (startIndex (cst node) - 10)
                                   (startIndex (cst node))) "export"
  | None => JS.includes
              (JS.substring source (startIndex (cst node) - 10)
                            (startIndex (cst node))) "export"
  end.

Definition hasChild (t : string) (node : SyntaxNode) (_ : string) : bool :=
  hasChildOfType node t.

Definition textIs (source : string) (child : SyntaxNode) (t : string) : bool :=
  String.eqb (getNodeText child source) t.

Definition textHas (source : string) (child : SyntaxNode) (t : string) : bool :=
  JS.includes (getNodeText child source) t.

Definition typescript : LanguageExtractor :=
  mkLanguageExtractor
    ["function_declaration"; "arrow_function"; "function_expression"]
    ["class_declaration"]
    ["method_definition"; "public_field_definition"]
    ["interface_declaration"]
    []
    ["enum_declaration"]
    ["import_statement"]
    ["call_expression"]
    "name" "body" "parameters" (Some "return_type")
    (Some (paramsThen "parameters" "return_type" ": "
             (fun t => Regex.replaceFirst false leadingColon t EmptyString)))
    (Some (fun node source =>
       firstSome (fun child =>
         if typeIs "accessibility_modifier" child then
           if textIs source child "public" then Some Public
           else if textIs source child "private" then Some Private
           else if textIs source child "protected" then Some Protected
           else None
         else None) (children node)))
    (Some exportedByStatement)
    (Some (hasChild "async"))
    (Some (hasChild "static")).

Definition javascript : LanguageExtractor :=
  mkLanguageExtractor
    ["function_declaration"; "arrow_function"; "function_expression"]
    ["class_declaration"]
    ["method_definition"; "field_definition"]
    [] [] []
    ["import_statement"]
    ["call_expression"]
    "name" "body" "parameters" None
    (Some (fun node source =>
       option_map (fun params => getNodeText params source)
                  (getChildByField node "parameters")))
    None
    (Some exportedByStatement)
    (Some (hasChild "async"))
    None.

Definition python : LanguageExtractor :=
  mkLanguageExtractor
    ["function_definition"]
    ["class_definition"]
    ["function_definition"]
    [] [] []
    ["import_statement"; "import_from_statement"]
    ["call"]
    "name" "body" "parameters" (Some "return_type")
    (Some (paramsThen "parameters" "return_type" " -> " (fun t => t)))
    None
    None
    (Some (fun node _ =>
       match previousSibling node with
       | Some prev => typeIs "async" prev
       | None => false
       end))
    (Some (fun node source =>
       match previousNamedSibling node with
       | Some prev => if typeIs "decorator" prev
                      then textHas source prev "staticmethod" else false
       | None => false
       end)).

Definition go : LanguageExtractor :=
  mkLanguageExtractor
    ["function_declaration"]
    []
    ["method_declaration"]
    ["interface_type"]
    ["struct_type"]
    []
    ["import_declaration"]
    ["call_expression"]
    "name" "body" "parameters" (Some "result")
    (Some (paramsThen "parameters" "result" " " (fun t => t)))
    None None None None.

Definition rust : LanguageExtractor :=
  mkLanguageExtractor
    ["function_item"]
    []
    ["function_item"]
    ["trait_item"]
    ["struct_item"]
    ["enum_item"]
    ["use_declaration"]
    ["call_expression"]
    "name" "body" "parameters" (Some "return_type")
    (Some (paramsThen "parameters" "return_type" " -> " (fun t => t)))
    (Some (fun node source =>
       match firstSome (fun child =>
                if typeIs "visibility_modifier" child
                then Some (if textHas source child "pub"
                           then Public else Private)
                else None) (children node) with
       | Some v => Some v
       | None => Some Private
       end))
    None
    (Some (hasChild "async"))
    None.

(** The first of [public], [private], [protected] (then [internal] when
    [withInternal]) that the text of a [t] child includes. *)
Definition byIncludedKeyword (t : string) (withInternal : bool)
           (holder : SyntaxNode) (source : string) : option Visibility :=
  firstSome (fun child =>
    if typeIs t child then
      if textHas source child "public" then Some Public
      else if textHas source child "private" then Some Private
      else if textHas source child "protected" then Some Protected
      else if withInternal && textHas source child "internal"
           then Some Internal
      else None
    else None) (children holder).

Definition java : LanguageExtractor :=
  mkLanguageExtractor
    []
    ["class_declaration"]
    ["method_declaration"; "constructor_declaration"]
    ["interface_declaration"]
    []
    ["enum_declaration"]
    ["import_declaration"]
    ["method_invocation"]
    "name" "body" "parameters" (Some "type")
    (Some (fun node source =>
       match getChildByField node "parameters" with
       | None => None
       | Some params =>
           let paramsText := getNodeText params source in
           match getChildByField node "type" with
           | Some returnType =>
               Some (getNodeText returnType source ++ " " ++ paramsText)%string
           | None => Some paramsText
           end
       end))
    (Some (byIncludedKeyword "modifiers" false))
    None
    None
    (Some (fun node source =>
       existsb (fun child => typeIs "modifiers" child &&
                             textHas source child "static")
               (children node))).

Definition c : LanguageExtractor :=
  mkLanguageExtractor
    ["function_definition"]
    [] [] []
    ["struct_specifier"]
    ["enum_specifier"]
    ["preproc_include"]
    ["call_expression"]
    "declarator" "body" "parameters" None
    None None None None None.

Definition cpp : LanguageExtractor :=
  mkLanguageExtractor
    ["function_definition"]
    ["class_specifier"]
    ["function_definition"]
    []
    ["struct_specifier"]
    ["enum_specifier"]
    ["preproc_include"]
    ["call_expression"]
    "declarator" "body" "parameters" None
    None
    (Some (fun node source =>
       match parent node with
       | Some p => byIncludedKeyword "access_specifier" false p source
       | None => None
       end))
    None None None.

Definition csharp : LanguageExtractor :=
  mkLanguageExtractor
    []
    ["class_declaration"]
    ["method_declaration"; "constructor_declaration"]
    ["interface_declaration"]
    ["struct_declaration"]
    ["enum_declaration"]
    ["using_directive"]
    ["invocation_expression"]
    "name" "body" "parameter_list" None
    None
    (Some (fun node source =>
       match firstSome (fun child =>
                if typeIs "modifier" child then
                  if textIs source child "public" then Some Public
                  else if textIs source child "private" then Some Private
                  else if textIs source child "protected" then Some Protected
                  else if textIs source child "internal" then Some Internal
                  else None
                else None) (children node) with
       | Some v => Some v
       | None => Some Private
       end))
    None
    (Some (fun node source =>
       existsb (fun child => typeIs "modifier" child &&
                             textIs source child "async") (children node)))
    (Some (fun node source =>
       existsb (fun child => typeIs "modifier" child &&
                             textIs source child "static") (children node))).

Definition php : LanguageExtractor :=
  mkLanguageExtractor
    ["function_definition"]
    ["class_declaration"]
    ["method_declaration"]
    ["interface_declaration"]
    []
    ["enum_declaration"]
    ["namespace_use_declaration"]
    ["function_call_expression"; "member_call_expression";
     "scoped_call_expression"]
    "name" "body" "parameters" (Some "return_type")
    None
    (Some (fun node source =>
       match firstSome (fun child =>
                if typeIs "visibility_modifier" child then
                  if textIs source child "public" then Some Public
                  else if textIs source child "private" then Some Private
                  else if textIs source child "protected" then Some Protected
                  else None
                else None) (children node) with
       | Some v => Some v
       | None => Some Public
       end))
    None
    None
    (Some (hasChild "static_modifier")).

(** The visibility call that precedes a Ruby method, nearest first. *)
Fixpoint rubyVisibility (fuel : nat) (sibling : option SyntaxNode)
         (source : string) : option Visibility :=
  match fuel, sibling with
  | S f, Some sib =>
      let found :=
        if typeIs "call" sib then
          match getChildByField sib "method" with
          | Some methodName =>
              if textIs source methodName "private" then Some Private
              else if textIs source methodName "protected" then Some Protected
              else if textIs source methodName "public" then Some Public
              else None
          | None => None
          end
        else None in
      match found with
      | Some v => Some v
      | None => rubyVisibility f (previousNamedSibling sib) source
      end
  | _, _ => Some Public
  end.

Definition ruby : LanguageExtractor :=
  mkLanguageExtractor
    ["method"]
    ["class"]
    ["method"; "singleton_method"]
    [] [] []
    ["call"]
    ["call"; "method_call"]
    "name" "body" "parameters" None
    None
    (Some (fun node source =>
       rubyVisibility (S (List.length (before node)))
                      (previousNamedSibling node) source))
    None None None.

Definition swift : LanguageExtractor :=
  mkLanguageExtractor
    ["function_declaration"]
    ["class_declaration"]
    ["function_declaration"]
    ["protocol_declaration"]
    ["struct_declaration"]
    ["enum_declaration"]
    ["import_declaration"]
    ["call_expression"]
    "name" "body" "parameter" (Some "return_type")
    (Some (paramsThen "parameter" "return_type" " -> " (fun t => t)))
    (Some (fun node source =>
       match firstSome (fun child =>
                if typeIs "modifiers" child then
                  if textHas source child "public" then Some Public
                  else if textHas source child "private" then Some Private
                  else if textHas source child "internal" then Some Internal
                  else if textHas source child "fileprivate" then Some Private
                  else None
                else None) (children node) with
       | Some v => Some v
       | None => Some Internal
       end))
    None
    (Some (fun node source =>
       existsb (fun child =>
                  typeIs "async" child ||
                  (typeIs "modifiers" child && textHas source child "async"))
               (children node)))
    (Some (fun node source =>
       existsb (fun child =>
                  typeIs "modifiers" child &&
                  (textHas source child "static" ||
                   textHas source child "class"))
               (children node))).

Definition kotlin : LanguageExtractor :=
  mkLanguageExtractor
    ["function_declaration"]
    ["class_declaration"; "object_declaration"]
    ["function_declaration"]
    ["class_declaration"]
    []
    ["class_declaration"]
    ["import_header"]
    ["call_expression"]
    "simple_identifier" "function_body" "function_value_parameters"
    (Some "type")
    (Some (paramsThen "function_value_parameters" "type" ": " (fun t => t)))
    (Some (fun node source =>
       match byIncludedKeyword "modifiers" true node source with
       | Some v => Some v
       | None => Some Public
       end))
    None
    (Some (fun node source =>
       existsb (fun child => typeIs "modifiers" child &&
                             textHas source child "suspend")
               (children node)))
    (Some (fun _ _ => false)).

End Policy.

(** [EXTRACTORS[language]]; TSX and JSX share the records of their base
    languages. *)
Definition EXTRACTORS (l : Language) : option LanguageExtractor :=
  match l with
  | TypeScript | TSX => Some Policy.typescript
  | JavaScript | JSX => Some Policy.javascript
  | Python => Some Policy.python
  | Go => Some Policy.go
  | Rust => Some Policy.rust
  | Java => Some Policy.java
  | CLang => Some Policy.c
  | Cpp => Some Policy.cpp
  | CSharp => Some Policy.csharp
  | PHP => Some Policy.php
  | Ruby => Some Policy.ruby
  | Swift => Some Policy.swift
  | Kotlin => Some Policy.kotlin
  | Liquid | Unknown => None
  end.

Definition anonymous : string := "<anonymous>".
Definition unknownName : string := "<unknown>".

(** [extractName(node, source, extractor)] *)
Definition extractName (node : SyntaxNode) (source : string)
           (extractor : LanguageExtractor) : string :=
  match getChildByField node (nameField extractor) with
  | Some nameNode =>
      if typeIs "function_declarator" nameNode || typeIs "declarator" nameNode
      then
        match orElseNode (getChildByField nameNode "declarator")
                         (namedChild nameNode 0) with
        | Some innerName => getNodeText innerName source
        | None => getNodeText nameNode source
        end
      else getNodeText nameNode source
  | None =>
      match find (fun child =>
                    typeIs "identifier" child || typeIs "type_identifier" child ||
                    typeIs "simple_identifier" child || typeIs "constant" child)
                 (namedChildren node) with
      | Some child => getNodeText child source
      | None => anonymous
      end
  end.

(* ===================================================================== *)
(** * The state of an extractor and its monad                              *)
(* ===================================================================== *)

Record State : Type := mkState {
  nodes : list Node.t;
  edges : list Edge.t;
  unresolvedReferences : list Ref.t;
  errors : list Err.t;
  nodeStack : list string;     (* innermost scope last *)
  ticks : nat                  (* readings of the clock so far *)
}.

Definition emptyState : State := mkState [] [] [] [] [] 0.

Definition M (A : Type) : Type := State -> A * State.

Definition ret {A} (a : A) : M A := fun s => (a, s).

Definition bind {A B} (m : M A) (f : A -> M B) : M B :=
  fun s => let r := m s in f (fst r) (snd r).

Declare Scope monad_scope.
Delimit Scope monad_scope with monad.
Notation "x <- m ;; k" := (bind m (fun x => k))
  (at level 61, m at next level, right associativity) : monad_scope.
Notation "m ;; k" := (bind m (fun _ => k))
  (at level 61, right associativity) : monad_scope.
Open Scope monad_scope.

Definition exec {A} (m : M A) (s : State) : State := snd (m s).

Definition getState : M State := fun s => (s, s).
Definition getStack : M (list string) := fun s => (nodeStack s, s).
Definition getNodes : M (list Node.t) := fun s => (nodes s, s).

Definition pushNode (n : Node.t) : M unit := fun s =>
  (tt, mkState (nodes s ++ [n]) (edges s) (unresolvedReferences s)
               (errors s) (nodeStack s) (ticks s)).

Definition pushEdge (e : Edge.t) : M unit := fun s =>
  (tt, mkState (nodes s) (edges s ++ [e]) (unresolvedReferences s)
               (errors s) (nodeStack s) (ticks s)).

Definition pushRef (r : Ref.t) : M unit := fun s =>
  (tt, mkState (nodes s) (edges s) (unresolvedReferences s ++ [r])
               (errors s) (nodeStack s) (ticks s)).

Definition pushError (e : Err.t) : M unit := fun s =>
  (tt, mkState (nodes s) (edges s) (unresolvedReferences s)
               (errors s ++ [e]) (nodeStack s) (ticks s)).

(** [this.nodeStack.push(id)] and [this.nodeStack.pop()] *)
Definition stackPush (id : string) : M unit := fun s =>
  (tt, mkState (nodes s) (edges s) (unresolvedReferences s)
               (errors s) (nodeStack s ++ [id]) (ticks s)).

Definition stackPop : M unit := fun s =>
  (tt, mkState (nodes s) (edges s) (unresolvedReferences s)
               (errors s) (removelast (nodeStack s)) (ticks s)).

(** [Date.now()] *)
Definition now (clock : nat -> Z) : M Z := fun s =>
  (clock (ticks s),
   mkState (nodes s) (edges s) (unresolvedReferences s)
           (errors s) (nodeStack s) (S (ticks s))).

Fixpoint forEach {A} (l : list A) (f : A -> M unit) : M unit :=
  match l with
  | [] => ret tt
  | x :: r => f x ;; forEach r f
  end.

(** A loop that carries a local variable. *)
Fixpoint foldM {A B} (l : list A) (acc : B) (f : B -> A -> M B) : M B :=
  match l with
  | [] => ret acc
  | x :: r => acc' <- f acc x ;; foldM r acc' f
  end.

Definition when (b : bool) (m : M unit) : M unit :=
  if b then m else ret tt.

Definition topOf (stack : list string) : string := last stack EmptyString.

Definition lineOf (p : Point) : Z := Z.of_nat (row p) + 1.
Definition columnOf (p : Point) : Z := Z.of_nat (column p).

(* ===================================================================== *)
(** * [TreeSitterExtractor]                                                *)
(* ===================================================================== *)

Section TreeSitterExtractor.

(** The fields set by the constructor, and the clock. *)
Variable filePath : string.
Variable source : string.
Variable language : Language.
Variable clock : nat -> Z.

Definition extractor : option LanguageExtractor := EXTRACTORS language.

(** [if (!this.extractor) return;] *)
Definition withExtractor (k : LanguageExtractor -> M unit) : M unit :=
  match extractor with
  | Some ex => k ex
  | None => ret tt
  end.

Definition text (node : SyntaxNode) : string := getNodeText node source.

(** [this.extractor.getSignature?.(node, this.source)] and the like *)
Definition signatureOf (ex : LanguageExtractor) (node : SyntaxNode)
  : option string :=
  match getSignature ex with Some f => f node source | None => None end.

Definition visibilityOf (ex : LanguageExtractor) (node : SyntaxNode)
  : option Visibility :=
  match getVisibility ex with Some f => f node source | None => None end.

Definition flagOf (f : option (SyntaxNode -> string -> bool))
           (node : SyntaxNode) : option bool :=
  option_map (fun g => g node source) f.

(** [buildQualifiedName(name)] *)
Definition buildQualifiedName (name : string) : M string :=
  stack <- getStack ;;
  known <- getNodes ;;
  ret (JS.join "::"
         ([filePath] ++
          flat_map (fun nodeId =>
                      match find (fun n => String.eqb (Node.id n) nodeId)
                                 known with
                      | Some n => [Node.name n]
                      | None => []
                      end) stack ++
          [name])%list).

(** [createNode(kind, name, node, extra)] *)
Definition createNode (kind : NodeKind) (name : string) (node : SyntaxNode)
           (extra : Node.extra) : M Node.t :=
  let id := generateNodeId filePath kind name
              (lineOf (startPosition (cst node))) in
  qualifiedName <- buildQualifiedName name ;;
  updatedAt <- now clock ;;
  let newNode :=
    Node.mk id kind name qualifiedName filePath language
      (lineOf (startPosition (cst node)))
      (lineOf (endPosition (cst node)))
      (columnOf (startPosition (cst node)))
      (columnOf (endPosition (cst node)))
      updatedAt
      (Node.xVisibility extra) (Node.xIsExported extra)
      (Node.xIsAsync extra) (Node.xIsStatic extra)
      (Node.xIsAbstract extra) (Node.xSignature extra)
      (Node.xDocstring extra) (Node.xDecorators extra) in
  pushNode newNode ;;
  stack <- getStack ;;
  when (Nat.ltb 0 (List.length stack))
       (let parentId := topOf stack in
        when (JS.truthy parentId)
             (pushEdge (Edge.mk parentId id EContains))) ;;
  ret newNode.

(** [extractCall(node)] *)
Definition extractCall (node : SyntaxNode) : M unit :=
  stack <- getStack ;;
  if Nat.eqb (List.length stack) 0 then ret tt else
  let callerId := topOf stack in
  if negb (JS.truthy callerId) then ret tt else
  let func := orElseNode (getChildByField node "function")
                         (namedChild node 0) in
  let calleeName :=
    match func with
    | Some func =>
        if typeIs "member_expression" func || typeIs "attribute" func then
          match orElseNode (getChildByField func "property")
                           (namedChild func 1) with
          | Some property => text property
          | None => EmptyString
          end
        else if typeIs "scoped_identifier" func ||
                typeIs "scoped_call_expression" func
        then text func
        else text func
    | None => EmptyString
    end in
  when (JS.truthy calleeName)
       (pushRef (Ref.mk callerId calleeName RCalls
                   (lineOf (startPosition (cst node)))
                   (columnOf (startPosition (cst node))))).

(** The inner [visitForCalls] of [visitFunctionBody] *)
Fixpoint visitForCalls (fuel : nat) (ex : LanguageExtractor)
         (node : SyntaxNode) : M unit :=
  match fuel with
  | O => ret tt
  | S f =>
      when (includesType (callTypes ex) (nodeType node)) (extractCall node) ;;
      forEach (namedChildren node) (visitForCalls f ex)
  end.

(** [visitFunctionBody(body, functionId)] *)
Definition visitFunctionBody (body : SyntaxNode) (_functionId : string)
  : M unit :=
  withExtractor (fun ex => visitForCalls (S (height (cst body))) ex body).

(** [replace(Q, '')] where [Q] is the global pattern matching one single
    or double quote character *)
Definition stripQuotes (t : string) : string :=
  Regex.replaceAll false (Regex.Chr Regex.isQuote) t EmptyString.

(** The module name [extractImport] reads off an import node. *)
Definition moduleNameOf (node : SyntaxNode) : string :=
  let importText := text node in
  if Language_eqb language TypeScript || Language_eqb language JavaScript
  then match getChildByField node "source" with
       | Some src => stripQuotes (text src)
       | None => EmptyString
       end
  else if Language_eqb language Python
  then match orElseNode (getChildByField node "module_name")
                        (namedChild node 0) with
       | Some module => text module
       | None => EmptyString
       end
  else if Language_eqb language Go
  then match namedChild node 0 with
       | Some path => stripQuotes (text path)
       | None => EmptyString
       end
  else importText.

(** [extractImport(node)] *)
Definition extractImport (node : SyntaxNode) : M unit :=
  let moduleName := moduleNameOf node in
  stack <- getStack ;;
  when (JS.truthy moduleName && Nat.ltb 0 (List.length stack))
       (let parentId := topOf stack in
        when (JS.truthy parentId)
             (pushRef (Ref.mk parentId moduleName RImports
                         (lineOf (startPosition (cst node)))
                         (columnOf (startPosition (cst node)))))).

(** [extractInheritance(node, classId)] *)
Definition extractInheritance (node : SyntaxNode) (classId : string)
  : M unit :=
  forEach (namedChildren node) (fun child =>
    when (typeIs "extends_clause" child || typeIs "class_heritage" child ||
          typeIs "superclass" child)
         (match namedChild child 0 with
          | Some superclass =>
              pushRef (Ref.mk classId (text superclass) RExtends
                         (lineOf (startPosition (cst child)))
                         (columnOf (startPosition (cst child))))
          | None => ret tt
          end) ;;
    when (typeIs "implements_clause" child ||
          typeIs "class_interface_clause" child)
         (forEach (namedChildren child) (fun iface =>
            pushRef (Ref.mk classId (text iface) RImplements
                       (lineOf (startPosition (cst iface)))
                       (columnOf (startPosition (cst iface))))))).

(** [extractFunction(node)] *)
Definition extractFunction (node : SyntaxNode) : M unit :=
  withExtractor (fun ex =>
    let name := extractName node source ex in
    if String.eqb name anonymous then ret tt else
    let docstring := getPrecedingDocstring node source in
    let signature := signatureOf ex node in
    let visibility := visibilityOf ex node in
    let isExported := flagOf (isExported ex) node in
    let isAsync := flagOf (isAsync ex) node in
    let isStatic := flagOf (isStatic ex) node in
    funcNode <- createNode KFunction name node
                  (Node.mkExtra visibility isExported isAsync isStatic None
                                signature docstring None) ;;
    stackPush (Node.id funcNode) ;;
    match getChildByField node (bodyField ex) with
    | Some body => visitFunctionBody body (Node.id funcNode)
    | None => ret tt
    end ;;
    stackPop).

(** [extractMethod(node)] *)
Definition extractMethod (node : SyntaxNode) : M unit :=
  withExtractor (fun ex =>
    stack <- getStack ;;
    if Nat.eqb (List.length stack) 0 && negb (Language_eqb language Go)
    then extractFunction node
    else
      let name := extractName node source ex in
      let docstring := getPrecedingDocstring node source in
      let signature := signatureOf ex node in
      let visibility := visibilityOf ex node in
      let isAsync := flagOf (isAsync ex) node in
      let isStatic := flagOf (isStatic ex) node in
      methodNode <- createNode KMethod name node
                      (Node.mkExtra visibility None isAsync isStatic None
                                    signature docstring None) ;;
      stackPush (Node.id methodNode) ;;
      match getChildByField node (bodyField ex) with
      | Some body => visitFunctionBody body (Node.id methodNode)
      | None => ret tt
      end ;;
      stackPop).

(** [extractInterface(node)] *)
Definition extractInterface (node : SyntaxNode) : M unit :=
  withExtractor (fun ex =>
    let name := extractName node source ex in
    let docstring := getPrecedingDocstring node source in
    let isExported := flagOf (isExported ex) node in
    let kind := if Language_eqb language Rust then KTrait else KInterface in
    _ <- createNode kind name node
           (Node.mkExtra None isExported None None None None docstring None) ;;
    ret tt).

(** [extractEnum(node)] *)
Definition extractEnum (node : SyntaxNode) : M unit :=
  withExtractor (fun ex =>
    let name := extractName node source ex in
    let docstring := getPrecedingDocstring node source in
    let visibility := visibilityOf ex node in
    let isExported := flagOf (isExported ex) node in
    _ <- createNode KEnum name node
           (Node.mkExtra visibility isExported None None None None
                         docstring None) ;;
    ret tt).

(** [extractKotlinEnumEntry(node)] and [extractSwiftEnumCase(node)] *)
Definition firstIdentifierName (node : SyntaxNode) : string :=
  match find (typeIs "simple_identifier") (namedChildren node) with
  | Some child => text child
  | None => unknownName
  end.

Definition extractKotlinEnumEntry (node : SyntaxNode) : M unit :=
  _ <- createNode KEnumMember (firstIdentifierName node) node Node.noExtra ;;
  ret tt.

Definition extractSwiftEnumCase (node : SyntaxNode) : M unit :=
  _ <- createNode KEnumMember (firstIdentifierName node) node Node.noExtra ;;
  ret tt.

(** The name of a Kotlin property: the first [simple_identifier] of the
    first [variable_declaration] child. *)
Definition kotlinPropertyName (node : SyntaxNode) : string :=
  match find (typeIs "variable_declaration") (namedChildren node) with
  | Some child =>
      match find (typeIs "simple_identifier") (namedChildren child) with
      | Some varChild => text varChild
      | None => unknownName
      end
  | None => unknownName
  end.

(** [extractKotlinProperty(node)] *)
Definition extractKotlinProperty (node : SyntaxNode) : M unit :=
  withExtractor (fun ex =>
    let name := kotlinPropertyName node in
    let isConst := kotlinHasModifier node source "const" in
    let docstring := getPrecedingDocstring node source in
    let visibility := visibilityOf ex node in
    let kind := if isConst then KConstant else KProperty in
    _ <- createNode kind name node
           (Node.mkExtra visibility None None None None None docstring None) ;;
    ret tt).

Definition firstTypeIdentifierName (node : SyntaxNode) : string :=
  match find (typeIs "type_identifier") (namedChildren node) with
  | Some child => text child
  | None => unknownName
  end.

(** [extractKotlinTypeAlias(node)] *)
Definition extractKotlinTypeAlias (node : SyntaxNode) : M unit :=
  withExtractor (fun ex =>
    let name := firstTypeIdentifierName node in
    let docstring := getPrecedingDocstring node source in
    let visibility := visibilityOf ex node in
    _ <- createNode KTypeAlias name node
           (Node.mkExtra visibility None None None None None docstring None) ;;
    ret tt).

(** [extractKotlinInheritance(node, classId)]; the local [isFirst] is
    carried through the loops. *)
Definition extractKotlinInheritance (node : SyntaxNode) (classId : string)
  : M unit :=
  _ <- foldM (namedChildren node) true (fun isFirst child =>
    if typeIs "delegation_specifier" child then
      foldM (namedChildren child) isFirst (fun isFirst specChild =>
        if typeIs "constructor_invocation" specChild then
          match find (typeIs "user_type") (namedChildren specChild) with
          | Some ciChild =>
              pushRef (Ref.mk classId (text ciChild)
                         (if isFirst then RExtends else RImplements)
                         (lineOf (startPosition (cst specChild)))
                         (columnOf (startPosition (cst specChild)))) ;;
              ret false
          | None => ret isFirst
          end
        else if typeIs "user_type" specChild then
          pushRef (Ref.mk classId (text specChild) RImplements
                     (lineOf (startPosition (cst specChild)))
                     (columnOf (startPosition (cst specChild)))) ;;
          ret false
        else ret isFirst)
    else ret isFirst) ;;
  ret tt.

(** [extractSwiftInheritance(node, classId)] *)
Definition extractSwiftInheritance (node : SyntaxNode) (classId : string)
  : M unit :=
  _ <- foldM (namedChildren node) true (fun isFirst child =>
    if typeIs "inheritance_specifier" child then
      foldM (namedChildren child) isFirst (fun isFirst specChild =>
        if typeIs "user_type" specChild then
          pushRef (Ref.mk classId (text specChild)
                     (if isFirst then RExtends else RImplements)
                     (lineOf (startPosition (cst specChild)))
                     (columnOf (startPosition (cst specChild)))) ;;
          ret false
        else ret isFirst)
    else ret isFirst) ;;
  ret tt.

(** [extractSwiftProperty(node)] *)
Definition extractSwiftProperty (node : SyntaxNode) : M unit :=
  withExtractor (fun ex =>
    let name := getSwiftPropertyName node source in
    let docstring := getPrecedingDocstring node source in
    let visibility := visibilityOf ex node in
    let isConst := isSwiftConstant node in
    let isStatic := flagOf (isStatic ex) node in
    let wrappers := getSwiftPropertyWrappers node source in
    let decorators := if Nat.ltb 0 (List.length wrappers)
                      then Some wrappers else None in
    stack <- getStack ;;
    let kind := if isConst && Nat.eqb (List.length stack) 0
                then KConstant else KProperty in
    _ <- createNode kind name node
           (Node.mkExtra visibility None None isStatic None None
                         docstring decorators) ;;
    ret tt).

Definition orUndefined (s : string) : option string :=
  if JS.truthy s then Some s else None.

(** [extractSwiftSubscript(node)] *)
Definition extractSwiftSubscript (node : SyntaxNode) : M unit :=
  withExtractor (fun ex =>
    let docstring := getPrecedingDocstring node source in
    let visibility := visibilityOf ex node in
    let isStatic := flagOf (isStatic ex) node in
    let signature :=
      fold_left (fun (sig : string) child =>
        if typeIs "parameter" child then
          (if JS.truthy sig then sig ++ ", " else sig) ++ text child
        else if typeIs "user_type" child then sig ++ " -> " ++ text child
        else sig)%string (namedChildren node) EmptyString in
    _ <- createNode KMethod "subscript" node
           (Node.mkExtra visibility None None isStatic None
                         (orUndefined signature) docstring None) ;;
    ret tt).

(** [extractSwiftTypealias(node)] *)
Definition extractSwiftTypealias (node : SyntaxNode) : M unit :=
  let name := firstTypeIdentifierName node in
  let docstring := getPrecedingDocstring node source in
  let visibility := match extractor with
                    | Some ex => visibilityOf ex node
                    | None => None
                    end in
  _ <- createNode KTypeAlias name node
         (Node.mkExtra visibility None None None None None docstring None) ;;
  ret tt.

(** [extractSwiftAssociatedType(node)] *)
Definition extractSwiftAssociatedType (node : SyntaxNode) : M unit :=
  let name := firstTypeIdentifierName node in
  let docstring := getPrecedingDocstring node source in
  _ <- createNode KTypeAlias name node
         (Node.mkExtra None None None None None None docstring None) ;;
  ret tt.

(** [extractSwiftProtocolProperty(node)]: every [pattern] child that has
    a [simple_identifier] overwrites the name. *)
Definition extractSwiftProtocolProperty (node : SyntaxNode) : M unit :=
  let name :=
    fold_left (fun (nm : string) child =>
      if typeIs "pattern" child then
        match find (typeIs "simple_identifier") (namedChildren child) with
        | Some patternChild => text patternChild
        | None => nm
        end
      else nm) (namedChildren node) unknownName in
  let docstring := getPrecedingDocstring node source in
  _ <- createNode KProperty name node
         (Node.mkExtra None None None None None None docstring None) ;;
  ret tt.

(** [extractSwiftProtocolFunction(node)] *)
Definition extractSwiftProtocolFunction (node : SyntaxNode) : M unit :=
  let name := firstIdentifierName node in
  let docstring := getPrecedingDocstring node source in
  let signature :=
    match find (typeIs "user_type") (namedChildren node) with
    | Some child => (" -> " ++ text child)%string
    | None => EmptyString
    end in
  _ <- createNode KMethod name node
         (Node.mkExtra None None None None None (orUndefined signature)
                       docstring None) ;;
  ret tt.

(** ** Handlers that walk into a body

    The walker is recursive through [visitNode]; the handlers take the
    function that visits a child as [visit]. *)

Section Handlers.

Variable visit : SyntaxNode -> M unit.

(** [getChildByField(node, bodyField) || node] *)
Definition bodyOrSelf (ex : LanguageExtractor) (node : SyntaxNode)
  : SyntaxNode :=
  match getChildByField node (bodyField ex) with
  | Some body => body
  | None => node
  end.

(** [extractClass(node)] *)
Definition extractClass (node : SyntaxNode) : M unit :=
  withExtractor (fun ex =>
    let name := extractName node source ex in
    let docstring := getPrecedingDocstring node source in
    let visibility := visibilityOf ex node in
    let isExported := flagOf (isExported ex) node in
    classNode <- createNode KClass name node
                   (Node.mkExtra visibility isExported None None None None
                                 docstring None) ;;
    extractInheritance node (Node.id classNode) ;;
    stackPush (Node.id classNode) ;;
    forEach (namedChildren (bodyOrSelf ex node)) visit ;;
    stackPop).

(** [extractStruct(node)] *)
Definition extractStruct (node : SyntaxNode) : M unit :=
  withExtractor (fun ex =>
    let name := extractName node source ex in
    let docstring := getPrecedingDocstring node source in
    let visibility := visibilityOf ex node in
    let isExported := flagOf (isExported ex) node in
    structNode <- createNode KStruct name node
                    (Node.mkExtra visibility isExported None None None None
                                  docstring None) ;;
    stackPush (Node.id structNode) ;;
    forEach (namedChildren (bodyOrSelf ex node)) visit ;;
    stackPop).

(** The loop over the members of every child of [node] whose type is
    one of [bodyTypes]. *)
Definition forEachMember (node : SyntaxNode) (bodyTypes : list string)
           (f : SyntaxNode -> M unit) : M unit :=
  forEach (namedChildren node) (fun child =>
    when (includesType bodyTypes (nodeType child))
         (forEach (namedChildren child) f)).

(** [extractKotlinClass(node)] *)
Definition extractKotlinClass (node : SyntaxNode) : M unit :=
  withExtractor (fun ex =>
    let name := extractName node source ex in
    let docstring := getPrecedingDocstring node source in
    let visibility := visibilityOf ex node in
    let isAbstractClass := isKotlinAbstractClass node source in
    classNode <- createNode KClass name node
                   (Node.mkExtra visibility None None None
                                 (Some isAbstractClass) None docstring
                                 None) ;;
    extractKotlinInheritance node (Node.id classNode) ;;
    stackPush (Node.id classNode) ;;
    forEachMember node ["class_body"; "enum_class_body"] visit ;;
    stackPop).

(** [extractKotlinEnum(node)] *)
Definition extractKotlinEnum (node : SyntaxNode) : M unit :=
  withExtractor (fun ex =>
    let name := extractName node source ex in
    let docstring := getPrecedingDocstring node source in
    let visibility := visibilityOf ex node in
    enumNode <- createNode KEnum name node
                  (Node.mkExtra visibility None None None None None
                                docstring None) ;;
    extractKotlinInheritance node (Node.id enumNode) ;;
    stackPush (Node.id enumNode) ;;
    forEachMember node ["enum_class_body"] (fun bodyChild =>
      if typeIs "enum_entry" bodyChild
      then extractKotlinEnumEntry bodyChild
      else visit bodyChild) ;;
    stackPop).

(** [extractKotlinObject(node)] *)
Definition extractKotlinObject (node : SyntaxNode) : M unit :=
  withExtractor (fun ex =>
    let name := extractName node source ex in
    let docstring := getPrecedingDocstring node source in
    let visibility := visibilityOf ex node in
    objectNode <- createNode KClass name node
                    (Node.mkExtra visibility None None None None None
                                  docstring None) ;;
    extractKotlinInheritance node (Node.id objectNode) ;;
    stackPush (Node.id objectNode) ;;
    forEachMember node ["class_body"] visit ;;
    stackPop).

(** [extractKotlinCompanionObject(node)] *)
Definition extractKotlinCompanionObject (node : SyntaxNode) : M unit :=
  withExtractor (fun ex =>
    let name :=
      match find (typeIs "simple_identifier") (namedChildren node) with
      | Some child => text child
      | None => "Companion"
      end in
    let docstring := getPrecedingDocstring node source in
    let visibility := visibilityOf ex node in
    companionNode <- createNode KClass name node
                       (Node.mkExtra visibility None None (Some true) None
                                     None docstring None) ;;
    stackPush (Node.id companionNode) ;;
    forEachMember node ["class_body"] visit ;;
    stackPop).

(** [visitSwiftFunctionBody(node)] *)
Definition visitSwiftFunctionBody (node : SyntaxNode) : M unit :=
  forEachMember node ["function_body"] visit.

(** [extractSwiftInit(node)] *)
Definition extractSwiftInit (node : SyntaxNode) : M unit :=
  withExtractor (fun ex =>
    let docstring := getPrecedingDocstring node source in
    let visibility := visibilityOf ex node in
    let isAsync := flagOf (isAsync ex) node in
    let signature :=
      fold_left (fun (sig : string) child =>
        if typeIs "parameter" child then
          (if JS.truthy sig then sig ++ ", " else sig) ++ text child
        else sig)%string (namedChildren node) EmptyString in
    initNode <- createNode KMethod "init" node
                  (Node.mkExtra visibility None isAsync None None
                     (Some (if JS.truthy signature
                            then "(" ++ signature ++ ")"
                            else "()")%string)
                     docstring None) ;;
    stackPush (Node.id initNode) ;;
    visitSwiftFunctionBody node ;;
    stackPop).

(** [extractSwiftDeinit(node)] *)
Definition extractSwiftDeinit (node : SyntaxNode) : M unit :=
  let docstring := getPrecedingDocstring node source in
  deinitNode <- createNode KMethod "deinit" node
                  (Node.mkExtra None None None None None None docstring
                                None) ;;
  stackPush (Node.id deinitNode) ;;
  visitSwiftFunctionBody node ;;
  stackPop.

(** [visitSwiftClassBody(node)] *)
Definition visitSwiftClassBody (node : SyntaxNode) : M unit :=
  forEachMember node ["class_body"] (fun bodyChild =>
    if typeIs "property_declaration" bodyChild
    then extractSwiftProperty bodyChild
    else if typeIs "subscript_declaration" bodyChild
    then extractSwiftSubscript bodyChild
    else if typeIs "init_declaration" bodyChild
    then extractSwiftInit bodyChild
    else if typeIs "deinit_declaration" bodyChild
    then extractSwiftDeinit bodyChild
    else if typeIs "typealias_declaration" bodyChild
    then extractSwiftTypealias bodyChild
    else visit bodyChild).

(** The common shape of [extractSwiftClass], [extractSwiftStruct],
    [extractSwiftActor] and [extractSwiftExtension]. *)
Definition swiftDeclaration (kind : NodeKind)
           (isAbstract : option bool) (node : SyntaxNode) : M unit :=
  withExtractor (fun ex =>
    let name := getSwiftClassName node source in
    let docstring := getPrecedingDocstring node source in
    let visibility := visibilityOf ex node in
    declNode <- createNode kind name node
                  (Node.mkExtra visibility None None None isAbstract None
                                docstring None) ;;
    extractSwiftInheritance node (Node.id declNode) ;;
    stackPush (Node.id declNode) ;;
    visitSwiftClassBody node ;;
    stackPop).

Definition extractSwiftClass (node : SyntaxNode) : M unit :=
  swiftDeclaration KClass
    (Some (swiftHasModifier node source "abstract")) node.

Definition extractSwiftStruct (node : SyntaxNode) : M unit :=
  swiftDeclaration KStruct None node.

Definition extractSwiftActor (node : SyntaxNode) : M unit :=
  swiftDeclaration KClass None node.

Definition extractSwiftExtension (node : SyntaxNode) : M unit :=
  swiftDeclaration KClass None node.

(** [extractSwiftEnum(node)] *)
Definition extractSwiftEnum (node : SyntaxNode) : M unit :=
  withExtractor (fun ex =>
    let name := getSwiftClassName node source in
    let docstring := getPrecedingDocstring node source in
    let visibility := visibilityOf ex node in
    enumNode <- createNode KEnum name node
                  (Node.mkExtra visibility None None None None None
                                docstring None) ;;
    extractSwiftInheritance node (Node.id enumNode) ;;
    stackPush (Node.id enumNode) ;;
    forEachMember node ["enum_class_body"] (fun bodyChild =>
      if typeIs "enum_entry" bodyChild
      then extractSwiftEnumCase bodyChild
      else visit bodyChild) ;;
    stackPop).

(** [extractSwiftClassDeclaration(node)] *)
Definition extractSwiftClassDeclaration (node : SyntaxNode) : M unit :=
  let declKind := match getSwiftDeclarationKind node with
                  | Some k => k
                  | None => EmptyString
                  end in
  if String.eqb declKind "extension" then extractSwiftExtension node
  else if String.eqb declKind "actor" then extractSwiftActor node
  else if String.eqb declKind "enum" then extractSwiftEnum node
  else if String.eqb declKind "struct" then extractSwiftStruct node
  else extractSwiftClass node.

(** [extractSwiftProtocol(node)] *)
Definition extractSwiftProtocol (node : SyntaxNode) : M unit :=
  withExtractor (fun ex =>
    let name := firstTypeIdentifierName node in
    let docstring := getPrecedingDocstring node source in
    let visibility := visibilityOf ex node in
    protocolNode <- createNode KInterface name node
                      (Node.mkExtra visibility None None None None None
                                    docstring None) ;;
    extractSwiftInheritance node (Node.id protocolNode) ;;
    stackPush (Node.id protocolNode) ;;
    forEachMember node ["protocol_body"] (fun bodyChild =>
      if typeIs "associatedtype_declaration" bodyChild
      then extractSwiftAssociatedType bodyChild
      else if typeIs "protocol_property_declaration" bodyChild
      then extractSwiftProtocolProperty bodyChild
      else if typeIs "protocol_function_declaration" bodyChild
      then extractSwiftProtocolFunction bodyChild
      else visit bodyChild) ;;
    stackPop).

(** The dispatch of [visitNode(node)]: the handler that fires, and
    whether the children are still to be visited. *)
Definition dispatch (ex : LanguageExtractor) (node : SyntaxNode)
  : M bool :=
  let nodeType := nodeType node in
  let isSwift := Language_eqb language Swift in
  let isKotlin := Language_eqb language Kotlin in
  if includesType (functionTypes ex) nodeType then
    stack <- getStack ;;
    (if Nat.ltb 0 (List.length stack) &&
        includesType (methodTypes ex) nodeType
     then extractMethod node
     else extractFunction node) ;;
    ret true
  else if includesType (classTypes ex) nodeType then
    (if isSwift && String.eqb nodeType "class_declaration"
     then extractSwiftClassDeclaration node
     else if isKotlin && String.eqb nodeType "class_declaration"
     then (if isKotlinInterface node then extractInterface node
           else if isKotlinEnum node then extractKotlinEnum node
           else extractKotlinClass node)
     else if isKotlin && String.eqb nodeType "object_declaration"
     then extractKotlinObject node
     else extractClass node) ;;
    ret true
  else if isKotlin && String.eqb nodeType "companion_object" then
    extractKotlinCompanionObject node ;; ret true
  else if isKotlin && String.eqb nodeType "property_declaration" then
    extractKotlinProperty node ;; ret false
  else if isKotlin && String.eqb nodeType "type_alias" then
    extractKotlinTypeAlias node ;; ret false
  else if isSwift && String.eqb nodeType "property_declaration" then
    extractSwiftProperty node ;; ret false
  else if isSwift && String.eqb nodeType "protocol_property_declaration"
  then extractSwiftProperty node ;; ret false
  else if isSwift && String.eqb nodeType "subscript_declaration" then
    extractSwiftSubscript node ;; ret true
  else if isSwift && String.eqb nodeType "typealias_declaration" then
    extractSwiftTypealias node ;; ret false
  else if isSwift && String.eqb nodeType "associatedtype_declaration" then
    extractSwiftAssociatedType node ;; ret false
  else if isSwift && String.eqb nodeType "init_declaration" then
    extractSwiftInit node ;; ret true
  else if isSwift && String.eqb nodeType "deinit_declaration" then
    extractSwiftDeinit node ;; ret true
  else if includesType (methodTypes ex) nodeType then
    extractMethod node ;; ret true
  else if includesType (interfaceTypes ex) nodeType then
    (if isSwift && String.eqb nodeType "protocol_declaration"
     then extractSwiftProtocol node
     else extractInterface node) ;;
    ret true
  else if includesType (structTypes ex) nodeType then
    extractStruct node ;; ret true
  else if includesType (enumTypes ex) nodeType then
    extractEnum node ;; ret true
  else if includesType (importTypes ex) nodeType then
    extractImport node ;; ret false
  else if includesType (callTypes ex) nodeType then
    extractCall node ;; ret false
  else ret false.

(** The body of [visitNode(node)] *)
Definition visitNodeBody (node : SyntaxNode) : M unit :=
  withExtractor (fun ex =>
    skipChildren <- dispatch ex node ;;
    when (negb skipChildren) (forEach (namedChildren node) visit)).

End Handlers.

(** [visitNode(node)]; [fuel] bounds the depth of the recursion. *)
Fixpoint visitNode (fuel : nat) (node : SyntaxNode) : M unit :=
  match fuel with
  | O => ret tt
  | S f => visitNodeBody (visitNode f) node
  end.

(** [this.visitNode(this.tree.rootNode)] *)
Definition visitTree (root : Cst) : M unit :=
  visitNode (S (height root)) (rootNode root).

End TreeSitterExtractor.

(** What [parser.parse(source)] does: it yields a tree or throws. *)
Inductive ParseOutcome : Type :=
| Parsed (root : Cst)
| Threw (message : string).

Definition Parser : Type := string -> ParseOutcome.

Definition resultOf (startTime endTime : Z) (s : State) : Result.t :=
  Result.mk (nodes s) (edges s) (unresolvedReferences s) (errors s)
            (endTime - startTime).

Section Extract.

(** The functions of [./grammars], which the extractor imports. *)
Variable detectLanguage : string -> Language.
Variable isLanguageSupported : Language -> bool.
Variable getParser : Language -> option Parser.

Variable clock : nat -> Z.

(** [language || detectLanguage(filePath)] *)
Definition languageOr (language : option Language) (filePath : string)
  : Language :=
  match language with
  | Some l => l
  | None => detectLanguage filePath
  end.

Definition failure (message : string) : Err.t := Err.mk message SevError.

(** [new TreeSitterExtractor(filePath, source, language).extract()] *)
Definition TreeSitterExtractor_extract (filePath source : string)
           (language : option Language) : Result.t :=
  let language := languageOr language filePath in
  let run : M Result.t :=
    startTime <- now clock ;;
    if negb (isLanguageSupported language) then
      endTime <- now clock ;;
      ret (Result.mk [] [] []
             [failure ("Unsupported language: " ++ languageTag language)]
             (endTime - startTime))
    else
      match getParser language with
      | None =>
          endTime <- now clock ;;
          ret (Result.mk [] [] []
                 [failure ("Failed to get parser for language: " ++
                           languageTag language)]
                 (endTime - startTime))
      | Some parser =>
          match parser source with
          | Parsed root => visitTree filePath source language clock root
          | Threw message => pushError (failure ("Parse error: " ++ message))
          end ;;
          endTime <- now clock ;;
          s <- getState ;;
          ret (resultOf startTime endTime s)
      end in
  fst (run emptyState).

End Extract.

(* ===================================================================== *)
(** * [LiquidExtractor]                                                    *)
(* ===================================================================== *)

Module LiquidPatterns.
Import Regex.
Local Open Scope list_scope.
Definition lit (ch : ascii) : ascii -> bool := Ascii.eqb ch.
Definition notQuote (ch : ascii) : bool := negb (isQuote ch).

(** The opening of a tag: an open brace, a percent sign, an optional
    dash, white space. *)
Definition tagOpen : list re :=
  [Lit "{%"; Opt (Chr (lit "-")); Star (Chr space)].

(** The closing of a tag: white space, an optional dash, a percent sign,
    a closing brace. *)
Definition tagClose : list re :=
  [Star (Chr space); Opt (Chr (lit "-")); Lit "%}"].

(** A quoted name: a quote, group [n] of one or more characters that are
    not quotes, a quote. *)
Definition quoted (n : nat) : list re :=
  [Chr isQuote; Group n (Plus (Chr notQuote)); Chr isQuote].

(** [renderRegex]: a tag opening, group 1 [render] or [include], white
    space, the quoted name as group 2. *)
Definition renderRegex : re :=
  Cat (tagOpen ++ [Group 1 (Alt (Lit "render") (Lit "include"));
                   Plus (Chr space)] ++ quoted 2).

(** [sectionRegex]: a tag opening, [section], white space, the quoted
    name as group 1. *)
Definition sectionRegex : re :=
  Cat (tagOpen ++ [Lit "section"; Plus (Chr space)] ++ quoted 1).

(** [schemaRegex]: the [schema] tag, group 1 the shortest text up to the
    [endschema] tag. *)
Definition schemaRegex : re :=
  Cat (tagOpen ++ [Lit "schema"] ++ tagClose ++
       [Group 1 (StarLazy (Chr anyChar))] ++
       tagOpen ++ [Lit "endschema"] ++ tagClose).

(** [assignRegex]: a tag opening, [assign], white space, group 1 a word,
    white space, an equals sign. *)
Definition assignRegex : re :=
  Cat (tagOpen ++ [Lit "assign"; Plus (Chr space); Group 1 (Plus (Chr word));
                   Star (Chr space); Lit "="]).
End LiquidPatterns.

Section LiquidExtractor.

Variable filePath : string.
Variable source : string.
Variable clock : nat -> Z.

(** [JSON.parse(schemaContent).name] when the content parses and the
    name is truthy; the JSON parser belongs to the runtime. *)
Variable schemaNameOf : string -> option string.

Definition newline : ascii := ascii_of_nat 10.

(** [getLineNumber(index)] *)
Definition getLineNumber (index : nat) : nat :=
  List.length (filter (Ascii.eqb newline)
                      (JS.chars (JS.substring source 0 index))) + 1.

(** [getLineStart(lineNumber)] *)
Definition getLineStart (lineNumber : nat) : nat :=
  fold_left (fun index l => index + String.length l + 1)
            (firstn (lineNumber - 1) (JS.splitOn newline source)) 0.

Definition columnAt (index line : nat) : Z :=
  Z.of_nat index - Z.of_nat (getLineStart line).

(** [this.filePath.split('/').pop() || this.filePath] *)
Definition baseName : string :=
  let l := last (JS.splitOn "/" filePath) EmptyString in
  if JS.truthy l then l else filePath.

(** [createFileNode()] *)
Definition createFileNode : M Node.t :=
  let lines := JS.splitOn newline source in
  let id := generateNodeId filePath KFile filePath 1 in
  updatedAt <- now clock ;;
  let fileNode :=
    Node.mk id KFile baseName filePath filePath Liquid
      1 (Z.of_nat (List.length lines))
      0 (Z.of_nat (String.length (last lines EmptyString)))
      updatedAt None None None None None None None None in
  pushNode fileNode ;;
  ret fileNode.

Definition containedIn (fileNodeId nodeId : string) : M unit :=
  pushEdge (Edge.mk fileNodeId nodeId EContains).

(** The node of a tag matched at [m] on one line. *)
Definition tagNode (kind : NodeKind) (key name : string)
           (m : Regex.Match) (updatedAt : Z) : Node.t :=
  let line := getLineNumber (Regex.index m) in
  Node.mk (generateNodeId filePath kind key (Z.of_nat line))
    kind name (filePath ++ "::" ++ key) filePath Liquid
    (Z.of_nat line) (Z.of_nat line)
    (columnAt (Regex.index m) line)
    (columnAt (Regex.index m) line +
     Z.of_nat (String.length (Regex.matched m)))
    updatedAt None None None None None None None None.

(** [extractSnippetReferences(fileNodeId)] *)
Definition extractSnippetReferences (fileNodeId : string) : M unit :=
  forEach (Regex.matchAll false LiquidPatterns.renderRegex source) (fun m =>
    let tagType := Regex.group 1 m in
    let snippetName := Regex.group 2 m in
    let line := getLineNumber (Regex.index m) in
    updatedAt <- now clock ;;
    let node := tagNode KComponent (tagType ++ ":" ++ snippetName)
                        snippetName m updatedAt in
    pushNode node ;;
    containedIn fileNodeId (Node.id node) ;;
    pushRef (Ref.mk fileNodeId ("snippets/" ++ snippetName ++ ".liquid")
               RReferences (Z.of_nat line)
               (columnAt (Regex.index m) line))).

(** [extractSectionReferences(fileNodeId)] *)
Definition extractSectionReferences (fileNodeId : string) : M unit :=
  forEach (Regex.matchAll false LiquidPatterns.sectionRegex source) (fun m =>
    let sectionName := Regex.group 1 m in
    let line := getLineNumber (Regex.index m) in
    updatedAt <- now clock ;;
    let node := tagNode KComponent ("section:" ++ sectionName)
                        sectionName m updatedAt in
    pushNode node ;;
    containedIn fileNodeId (Node.id node) ;;
    pushRef (Ref.mk fileNodeId ("sections/" ++ sectionName ++ ".liquid")
               RReferences (Z.of_nat line)
               (columnAt (Regex.index m) line))).

(** [extractSchema(fileNodeId)] *)
Definition extractSchema (fileNodeId : string) : M unit :=
  forEach (Regex.matchAll false LiquidPatterns.schemaRegex source) (fun m =>
    let fullMatch := Regex.matched m in
    let schemaContent := Regex.group 1 m in
    let startLine := getLineNumber (Regex.index m) in
    let endLine :=
      getLineNumber (Regex.index m + String.length fullMatch) in
    let schemaName := match schemaNameOf schemaContent with
                      | Some nm => nm
                      | None => "schema"
                      end in
    let nodeId := generateNodeId filePath KConstant
                    ("schema:" ++ schemaName) (Z.of_nat startLine) in
    updatedAt <- now clock ;;
    let node :=
      Node.mk nodeId KConstant schemaName
        (filePath ++ "::schema:" ++ schemaName) filePath Liquid
        (Z.of_nat startLine) (Z.of_nat endLine)
        (columnAt (Regex.index m) startLine) 0
        updatedAt None None None None None None
        (Some (JS.substring (JS.trim schemaContent) 0 200)) None in
    pushNode node ;;
    containedIn fileNodeId nodeId).

(** [extractAssignments(fileNodeId)] *)
Definition extractAssignments (fileNodeId : string) : M unit :=
  forEach (Regex.matchAll false LiquidPatterns.assignRegex source) (fun m =>
    let variableName := Regex.group 1 m in
    updatedAt <- now clock ;;
    let node := tagNode KVariable variableName variableName m updatedAt in
    pushNode node ;;
    containedIn fileNodeId (Node.id node)).

(** [new LiquidExtractor(filePath, source).extract()]; nothing in the
    body of the [try] throws. *)
Definition LiquidExtractor_extract : Result.t :=
  let run : M Result.t :=
    startTime <- now clock ;;
    fileNode <- createFileNode ;;
    extractSnippetReferences (Node.id fileNode) ;;
    extractSectionReferences (Node.id fileNode) ;;
    extractSchema (Node.id fileNode) ;;
    extractAssignments (Node.id fileNode) ;;
    endTime <- now clock ;;
    s <- getState ;;
    ret (resultOf startTime endTime s) in
  fst (run emptyState).

End LiquidExtractor.

(** [extractFromSource(filePath, source, language)] *)
Definition extractFromSource
           (detectLanguage : string -> Language)
           (isLanguageSupported : Language -> bool)
           (getParser : Language -> option Parser)
           (schemaNameOf : string -> option string)
           (clock : nat -> Z)
           (filePath source : string) (language : option Language)
  : Result.t :=
  let detectedLanguage := languageOr detectLanguage language filePath in
  if Language_eqb detectedLanguage Liquid
  then LiquidExtractor_extract filePath source clock schemaNameOf
  else TreeSitterExtractor_extract detectLanguage isLanguageSupported
         getParser clock filePath source (Some detectedLanguage).

(* ===================================================================== *)
(** * Trees: height of children                                            *)
(* ===================================================================== *)

Lemma height_kid (t k : Cst) : In k (kids t) -> height k < height t.
Proof.
  destruct t as [ty nm fl si ei sp ep ks]; cbn [kids height].
  induction ks as [|x r IH]; cbn [In fold_right]; [tauto|].
  intros [->|H].
  - apply Nat.lt_le_trans with (S (height k)); [lia|apply Nat.le_max_l].
  - specialize (IH H). eapply Nat.lt_le_trans; [exact IH|apply Nat.le_max_r].
Qed.

Lemma placeChildren_cst (p : Cst) (seen ks : list Cst) (c : SyntaxNode) :
  In c (placeChildren p seen ks) -> In (cst c) ks.
Proof.
  revert seen; induction ks as [|k r IH]; simpl; intros seen; [tauto|].
  intros [<-|H]; [now left|right; eauto].
Qed.

Lemma children_height (n c : SyntaxNode) :
  In c (children n) -> height (cst c) < height (cst n).
Proof.
  intros H. apply height_kid. eapply placeChildren_cst; exact H.
Qed.

Lemma namedChildren_height (n c : SyntaxNode) :
  In c (namedChildren n) -> height (cst c) < height (cst n).
Proof.
  unfold namedChildren. intros H. apply filter_In in H.
  apply children_height, H.
Qed.

Lemma getChildByField_height (n b : SyntaxNode) (f : string) :
  getChildByField n f = Some b -> height (cst b) < height (cst n).
Proof.
  unfold getChildByField, childForFieldName.
  destruct (find _ (children n)) eqn:E.
  - intros [= <-]. apply find_some in E. apply children_height, E.
  - intros H. apply find_some in H. apply namedChildren_height, H.
Qed.

(* ===================================================================== *)
(** * Two runs of the walker, side by side                                 *)
(* ===================================================================== *)

(** [createNode] is given a name other than [anonymous] whenever it makes
    a function node. *)
Definition okCreate (kind : NodeKind) (name : string) : Prop :=
  kind = KFunction -> name <> anonymous.

Section Simulation.

Variables filePath source : string.
Variable language : Language.
Variables clock1 clock2 : nat -> Z.

(** [R P s1 s2] relates the states of the two runs; [P] lists
    identifiers of nodes known to have been created. *)
Variable R : list string -> State -> State -> Prop.

Hypothesis R_weaken : forall P i s1 s2, R (i :: P) s1 s2 -> R P s1 s2.
Hypothesis R_stack : forall P s1 s2, R P s1 s2 -> nodeStack s1 = nodeStack s2.
Hypothesis R_create : forall P kind name node extra s1 s2,
  okCreate kind name -> R P s1 s2 ->
  let r1 := createNode filePath language clock1 kind name node extra s1 in
  let r2 := createNode filePath language clock2 kind name node extra s2 in
  Node.id (fst r1) = Node.id (fst r2) /\
  R (Node.id (fst r1) :: P) (snd r1) (snd r2).
Hypothesis R_ref : forall P r s1 s2,
  R P s1 s2 -> R P (exec (pushRef r) s1) (exec (pushRef r) s2).
Hypothesis R_push : forall P i s1 s2,
  In i P -> R P s1 s2 -> R P (exec (stackPush i) s1) (exec (stackPush i) s2).
Hypothesis R_pop : forall P s1 s2,
  R P s1 s2 -> R P (exec stackPop s1) (exec stackPop s2).

(** The two computations return the same value and keep the relation. *)
Definition Sim {A} (P : list string) (m1 m2 : M A) : Prop :=
  forall s1 s2, R P s1 s2 ->
    fst (m1 s1) = fst (m2 s2) /\ R P (snd (m1 s1)) (snd (m2 s2)).

Lemma Sim_ret {A} P (a : A) : Sim P (ret a) (ret a).
Proof. intros s1 s2 H; split; [reflexivity|exact H]. Qed.

Lemma Sim_bind {A B} P (m1 m2 : M A) (f1 f2 : A -> M B) :
  Sim P m1 m2 -> (forall a, Sim P (f1 a) (f2 a)) ->
  Sim P (bind m1 f1) (bind m2 f2).
Proof.
  intros Hm Hf s1 s2 H. unfold bind.
  destruct (Hm s1 s2 H) as [E H']. rewrite E. apply Hf, H'.
Qed.

Lemma Sim_create {B} P kind name node extra (f1 f2 : Node.t -> M B) :
  okCreate kind name ->
  (forall n1 n2, Node.id n1 = Node.id n2 ->
                 Sim (Node.id n1 :: P) (f1 n1) (f2 n2)) ->
  Sim P (bind (createNode filePath language clock1 kind name node extra) f1)
        (bind (createNode filePath language clock2 kind name node extra) f2).
Proof.
  intros Hok Hf s1 s2 H. unfold bind.
  destruct (R_create P kind name node extra s1 s2 Hok H) as [E H'].
  destruct (Hf _ _ E _ _ H') as [E' H'']. split; [exact E'|].
  eapply R_weaken, H''.
Qed.

Lemma Sim_getStack P : Sim P getStack getStack.
Proof. intros s1 s2 H; split; [apply (R_stack _ _ _ H)|exact H]. Qed.

Lemma Sim_pushRef P r : Sim P (pushRef r) (pushRef r).
Proof. intros s1 s2 H; split; [reflexivity|apply R_ref, H]. Qed.

Lemma Sim_push P i : In i P -> Sim P (stackPush i) (stackPush i).
Proof. intros Hi s1 s2 H; split; [reflexivity|apply R_push; assumption]. Qed.

Lemma Sim_pop P : Sim P stackPop stackPop.
Proof. intros s1 s2 H; split; [reflexivity|apply R_pop, H]. Qed.

Lemma Sim_when P b (m1 m2 : M unit) :
  Sim P m1 m2 -> Sim P (when b m1) (when b m2).
Proof. destruct b; simpl; [tauto|intros _; apply Sim_ret]. Qed.

Lemma Sim_forEach {A} P (l : list A) (f1 f2 : A -> M unit) :
  (forall x, In x l -> Sim P (f1 x) (f2 x)) ->
  Sim P (forEach l f1) (forEach l f2).
Proof.
  induction l as [|x r IH]; intros Hf; simpl; [apply Sim_ret|].
  apply Sim_bind; [apply Hf; now left|].
  intros _. apply IH. intros y Hy. apply Hf. now right.
Qed.

Lemma Sim_foldM {A B} P (l : list A) (acc : B) (f1 f2 : B -> A -> M B) :
  (forall b x, In x l -> Sim P (f1 b x) (f2 b x)) ->
  Sim P (foldM l acc f1) (foldM l acc f2).
Proof.
  revert acc. induction l as [|x r IH]; intros acc Hf; simpl;
    [apply Sim_ret|].
  apply Sim_bind; [apply Hf; now left|].
  intros b. apply IH. intros b' y Hy. apply Hf. now right.
Qed.

Ltac heights :=
  repeat match goal with
         | H : In _ (namedChildren _) |- _ =>
             apply namedChildren_height in H
         | H : getChildByField _ _ = Some _ |- _ =>
             apply getChildByField_height in H
         end;
  lia.

Ltac sim1 :=
  lazymatch goal with
  | |- Sim _ (ret _) (ret _) => apply Sim_ret
  | |- Sim _ (bind (createNode _ _ _ _ _ _ _) _) _ =>
      apply Sim_create;
      [ unfold okCreate; try congruence;
        try (intros HK;
             repeat match type of HK with
                    | context [if ?b then _ else _] => destruct b
                    end; congruence)
      | let n1 := fresh "n" in let n2 := fresh "n" in
        let E := fresh "E" in
        intros n1 n2 E; try rewrite <- E; clear E;
        generalize (Node.id n1); clear n1 n2; intro ]
  | |- Sim _ (bind _ _) (bind _ _) => apply Sim_bind; [ | intro ]
  | |- Sim _ getStack getStack => apply Sim_getStack
  | |- Sim _ (pushRef _) (pushRef _) => apply Sim_pushRef
  | |- Sim _ (stackPush _) (stackPush _) =>
      apply Sim_push; simpl; auto
  | |- Sim _ stackPop stackPop => apply Sim_pop
  | |- Sim _ (when _ _) (when _ _) => apply Sim_when
  | |- Sim _ (forEach _ _) (forEach _ _) => apply Sim_forEach; intros ? ?
  | |- Sim _ (foldM _ _ _) (foldM _ _ _) => apply Sim_foldM; intros ? ? ?
  | |- Sim _ (if ?b then _ else _) (if ?b then _ else _) => destruct b eqn:?
  | |- Sim _ (match ?x with _ => _ end) (match ?x with _ => _ end) =>
      destruct x eqn:?
  end.

Ltac sim := cbv zeta; repeat (sim1; cbv zeta).

(** ** Handlers that do not walk *)

Lemma Sim_extractCall P node :
  Sim P (extractCall source node) (extractCall source node).
Proof. unfold extractCall. sim. Qed.

Lemma Sim_visitForCalls P fuel ex node :
  Sim P (visitForCalls source fuel ex node) (visitForCalls source fuel ex node).
Proof.
  revert node. induction fuel as [|f IH]; intros node; simpl; sim.
  - apply Sim_extractCall.
  - apply IH.
Qed.

Lemma Sim_visitFunctionBody P body i :
  Sim P (visitFunctionBody source language body i)
        (visitFunctionBody source language body i).
Proof.
  unfold visitFunctionBody, withExtractor. sim. apply Sim_visitForCalls.
Qed.

Lemma Sim_extractImport P node :
  Sim P (extractImport source language node)
        (extractImport source language node).
Proof. unfold extractImport. sim. Qed.

Lemma Sim_extractInheritance P node i :
  Sim P (extractInheritance source node i) (extractInheritance source node i).
Proof. unfold extractInheritance. sim. Qed.

Lemma Sim_extractKotlinInheritance P node i :
  Sim P (extractKotlinInheritance source node i)
        (extractKotlinInheritance source node i).
Proof. unfold extractKotlinInheritance. sim. Qed.

Lemma Sim_extractSwiftInheritance P node i :
  Sim P (extractSwiftInheritance source node i)
        (extractSwiftInheritance source node i).
Proof. unfold extractSwiftInheritance. sim. Qed.

Lemma Sim_extractFunction P node :
  Sim P (extractFunction filePath source language clock1 node)
        (extractFunction filePath source language clock2 node).
Proof.
  unfold extractFunction, withExtractor. sim.
  - apply String.eqb_neq in Heqb. auto.
  - apply Sim_visitFunctionBody.
Qed.


Lemma Sim_extractMethod P node :
  Sim P (extractMethod filePath source language clock1 node)
        (extractMethod filePath source language clock2 node).
Proof.
  unfold extractMethod, withExtractor. sim.
  - apply Sim_extractFunction.
  - apply Sim_visitFunctionBody.
Qed.

Lemma Sim_extractInterface P node :
  Sim P (extractInterface filePath source language clock1 node)
        (extractInterface filePath source language clock2 node).
Proof. unfold extractInterface, withExtractor. sim. Qed.

Lemma Sim_extractEnum P node :
  Sim P (extractEnum filePath source language clock1 node)
        (extractEnum filePath source language clock2 node).
Proof. unfold extractEnum, withExtractor. sim. Qed.

Lemma Sim_extractKotlinEnumEntry P node :
  Sim P (extractKotlinEnumEntry filePath source language clock1 node)
        (extractKotlinEnumEntry filePath source language clock2 node).
Proof. unfold extractKotlinEnumEntry. sim. Qed.

Lemma Sim_extractSwiftEnumCase P node :
  Sim P (extractSwiftEnumCase filePath source language clock1 node)
        (extractSwiftEnumCase filePath source language clock2 node).
Proof. unfold extractSwiftEnumCase. sim. Qed.

Lemma Sim_extractKotlinProperty P node :
  Sim P (extractKotlinProperty filePath source language clock1 node)
        (extractKotlinProperty filePath source language clock2 node).
Proof. unfold extractKotlinProperty, withExtractor. sim. Qed.

Lemma Sim_extractKotlinTypeAlias P node :
  Sim P (extractKotlinTypeAlias filePath source language clock1 node)
        (extractKotlinTypeAlias filePath source language clock2 node).
Proof. unfold extractKotlinTypeAlias, withExtractor. sim. Qed.

Lemma Sim_extractSwiftProperty P node :
  Sim P (extractSwiftProperty filePath source language clock1 node)
        (extractSwiftProperty filePath source language clock2 node).
Proof. unfold extractSwiftProperty, withExtractor. sim. Qed.

Lemma Sim_extractSwiftSubscript P node :
  Sim P (extractSwiftSubscript filePath source language clock1 node)
        (extractSwiftSubscript filePath source language clock2 node).
Proof. unfold extractSwiftSubscript, withExtractor. sim. Qed.

Lemma Sim_extractSwiftTypealias P node :
  Sim P (extractSwiftTypealias filePath source language clock1 node)
        (extractSwiftTypealias filePath source language clock2 node).
Proof. unfold extractSwiftTypealias. sim. Qed.

Lemma Sim_extractSwiftAssociatedType P node :
  Sim P (extractSwiftAssociatedType filePath source language clock1 node)
        (extractSwiftAssociatedType filePath source language clock2 node).
Proof. unfold extractSwiftAssociatedType. sim. Qed.

Lemma Sim_extractSwiftProtocolProperty P node :
  Sim P (extractSwiftProtocolProperty filePath source language clock1 node)
        (extractSwiftProtocolProperty filePath source language clock2 node).
Proof. unfold extractSwiftProtocolProperty. sim. Qed.

Lemma Sim_extractSwiftProtocolFunction P node :
  Sim P (extractSwiftProtocolFunction filePath source language clock1 node)
        (extractSwiftProtocolFunction filePath source language clock2 node).
Proof. unfold extractSwiftProtocolFunction. sim. Qed.

(** ** Handlers that walk into a body

    The two runs may visit children with different functions, as long
    as these agree below height [h]. *)

Section Walk.

Variables visit1 visit2 : SyntaxNode -> M unit.
Variable h : nat.
Hypothesis Sim_visit : forall P c,
  height (cst c) < h -> Sim P (visit1 c) (visit2 c).

Lemma bodyOrSelf_height ex node :
  height (cst (bodyOrSelf ex node)) <= height (cst node).
Proof.
  unfold bodyOrSelf. destruct (getChildByField _ _) eqn:E; [|lia].
  apply getChildByField_height in E. lia.
Qed.

Ltac visits :=
  try (apply Sim_visit;
       repeat match goal with
              | H : In _ (namedChildren (bodyOrSelf ?ex ?n)) |- _ =>
                  apply namedChildren_height in H;
                  pose proof (bodyOrSelf_height ex n)
              | H : In _ (namedChildren _) |- _ =>
                  apply namedChildren_height in H
              end; lia).

Lemma Sim_forEachMember P node types (f1 f2 : SyntaxNode -> M unit) :
  (forall c b, In c (namedChildren node) -> In b (namedChildren c) ->
               Sim P (f1 b) (f2 b)) ->
  Sim P (forEachMember node types f1) (forEachMember node types f2).
Proof. intros Hf. unfold forEachMember. sim. eapply Hf; eassumption. Qed.

Ltac members :=
  apply Sim_forEachMember; intros ? ? ? ?.

Lemma Sim_extractClass P node :
  height (cst node) <= h ->
  Sim P (extractClass filePath source language clock1 visit1 node)
        (extractClass filePath source language clock2 visit2 node).
Proof.
  intros Hh. unfold extractClass, withExtractor. sim; visits.
  apply Sim_extractInheritance.
Qed.

Lemma Sim_extractStruct P node :
  height (cst node) <= h ->
  Sim P (extractStruct filePath source language clock1 visit1 node)
        (extractStruct filePath source language clock2 visit2 node).
Proof. intros Hh. unfold extractStruct, withExtractor. sim; visits. Qed.

Lemma Sim_extractKotlinClass P node :
  height (cst node) <= h ->
  Sim P (extractKotlinClass filePath source language clock1 visit1 node)
        (extractKotlinClass filePath source language clock2 visit2 node).
Proof.
  intros Hh. unfold extractKotlinClass, withExtractor. sim.
  - apply Sim_extractKotlinInheritance.
  - members. visits.
Qed.

Lemma Sim_extractKotlinEnum P node :
  height (cst node) <= h ->
  Sim P (extractKotlinEnum filePath source language clock1 visit1 node)
        (extractKotlinEnum filePath source language clock2 visit2 node).
Proof.
  intros Hh. unfold extractKotlinEnum, withExtractor. sim.
  - apply Sim_extractKotlinInheritance.
  - members. sim; visits. apply Sim_extractKotlinEnumEntry.
Qed.

Lemma Sim_extractKotlinObject P node :
  height (cst node) <= h ->
  Sim P (extractKotlinObject filePath source language clock1 visit1 node)
        (extractKotlinObject filePath source language clock2 visit2 node).
Proof.
  intros Hh. unfold extractKotlinObject, withExtractor. sim.
  - apply Sim_extractKotlinInheritance.
  - members. visits.
Qed.

Lemma Sim_extractKotlinCompanionObject P node :
  height (cst node) <= h ->
  Sim P (extractKotlinCompanionObject filePath source language clock1
           visit1 node)
        (extractKotlinCompanionObject filePath source language clock2
           visit2 node).
Proof.
  intros Hh. unfold extractKotlinCompanionObject, withExtractor. sim;
    members; visits.
Qed.

Lemma Sim_visitSwiftFunctionBody P node :
  height (cst node) <= h ->
  Sim P (visitSwiftFunctionBody visit1 node)
        (visitSwiftFunctionBody visit2 node).
Proof. intros Hh. unfold visitSwiftFunctionBody. members. visits. Qed.

Lemma Sim_extractSwiftInit P node :
  height (cst node) <= h ->
  Sim P (extractSwiftInit filePath source language clock1 visit1 node)
        (extractSwiftInit filePath source language clock2 visit2 node).
Proof.
  intros Hh. unfold extractSwiftInit, withExtractor. sim.
  apply Sim_visitSwiftFunctionBody, Hh.
Qed.

Lemma Sim_extractSwiftDeinit P node :
  height (cst node) <= h ->
  Sim P (extractSwiftDeinit filePath source language clock1 visit1 node)
        (extractSwiftDeinit filePath source language clock2 visit2 node).
Proof.
  intros Hh. unfold extractSwiftDeinit. sim.
  apply Sim_visitSwiftFunctionBody, Hh.
Qed.

Lemma Sim_visitSwiftClassBody P node :
  height (cst node) <= h ->
  Sim P (visitSwiftClassBody filePath source language clock1 visit1 node)
        (visitSwiftClassBody filePath source language clock2 visit2 node).
Proof.
  intros Hh. unfold visitSwiftClassBody. members. sim; visits.
  - apply Sim_extractSwiftProperty.
  - apply Sim_extractSwiftSubscript.
  - apply Sim_extractSwiftInit.
    apply namedChildren_height in H, H0. lia.
  - apply Sim_extractSwiftDeinit.
    apply namedChildren_height in H, H0. lia.
  - apply Sim_extractSwiftTypealias.
Qed.

Lemma Sim_swiftDeclaration P kind isAbstract node :
  kind <> KFunction ->
  height (cst node) <= h ->
  Sim P (swiftDeclaration filePath source language clock1 visit1 kind
           isAbstract node)
        (swiftDeclaration filePath source language clock2 visit2 kind
           isAbstract node).
Proof.
  intros Hk Hh. unfold swiftDeclaration, withExtractor. sim.
  - apply Sim_extractSwiftInheritance.
  - apply Sim_visitSwiftClassBody, Hh.
Qed.

Lemma Sim_extractSwiftEnum P node :
  height (cst node) <= h ->
  Sim P (extractSwiftEnum filePath source language clock1 visit1 node)
        (extractSwiftEnum filePath source language clock2 visit2 node).
Proof.
  intros Hh. unfold extractSwiftEnum, withExtractor. sim.
  - apply Sim_extractSwiftInheritance.
  - members. sim; visits. apply Sim_extractSwiftEnumCase.
Qed.

Lemma Sim_extractSwiftClassDeclaration P node :
  height (cst node) <= h ->
  Sim P (extractSwiftClassDeclaration filePath source language clock1
           visit1 node)
        (extractSwiftClassDeclaration filePath source language clock2
           visit2 node).
Proof.
  intros Hh. unfold extractSwiftClassDeclaration, extractSwiftExtension,
    extractSwiftActor, extractSwiftStruct, extractSwiftClass. sim;
    lazymatch goal with
    | |- Sim _ (extractSwiftEnum _ _ _ _ _ _) _ =>
        apply Sim_extractSwiftEnum, Hh
    | |- _ => apply Sim_swiftDeclaration; [discriminate|exact Hh]
    end.
Qed.

Lemma Sim_extractSwiftProtocol P node :
  height (cst node) <= h ->
  Sim P (extractSwiftProtocol filePath source language clock1 visit1 node)
        (extractSwiftProtocol filePath source language clock2 visit2 node).
Proof.
  intros Hh. unfold extractSwiftProtocol, withExtractor. sim.
  - apply Sim_extractSwiftInheritance.
  - members. sim; visits.
    + apply Sim_extractSwiftAssociatedType.
    + apply Sim_extractSwiftProtocolProperty.
    + apply Sim_extractSwiftProtocolFunction.
Qed.

Lemma Sim_dispatch P ex node :
  height (cst node) <= h ->
  Sim P (dispatch filePath source language clock1 visit1 ex node)
        (dispatch filePath source language clock2 visit2 ex node).
Proof.
  intros Hh. unfold dispatch. sim;
    lazymatch goal with
    | |- Sim _ (extractMethod _ _ _ _ _) _ => apply Sim_extractMethod
    | |- Sim _ (extractFunction _ _ _ _ _) _ => apply Sim_extractFunction
    | |- Sim _ (extractSwiftClassDeclaration _ _ _ _ _ _) _ =>
        apply Sim_extractSwiftClassDeclaration, Hh
    | |- Sim _ (extractInterface _ _ _ _ _) _ => apply Sim_extractInterface
    | |- Sim _ (extractKotlinEnum _ _ _ _ _ _) _ =>
        apply Sim_extractKotlinEnum, Hh
    | |- Sim _ (extractKotlinClass _ _ _ _ _ _) _ =>
        apply Sim_extractKotlinClass, Hh
    | |- Sim _ (extractKotlinObject _ _ _ _ _ _) _ =>
        apply Sim_extractKotlinObject, Hh
    | |- Sim _ (extractClass _ _ _ _ _ _) _ => apply Sim_extractClass, Hh
    | |- Sim _ (extractKotlinCompanionObject _ _ _ _ _ _) _ =>
        apply Sim_extractKotlinCompanionObject, Hh
    | |- Sim _ (extractKotlinProperty _ _ _ _ _) _ =>
        apply Sim_extractKotlinProperty
    | |- Sim _ (extractKotlinTypeAlias _ _ _ _ _) _ =>
        apply Sim_extractKotlinTypeAlias
    | |- Sim _ (extractSwiftProperty _ _ _ _ _) _ =>
        apply Sim_extractSwiftProperty
    | |- Sim _ (extractSwiftSubscript _ _ _ _ _) _ =>
        apply Sim_extractSwiftSubscript
    | |- Sim _ (extractSwiftTypealias _ _ _ _ _) _ =>
        apply Sim_extractSwiftTypealias
    | |- Sim _ (extractSwiftAssociatedType _ _ _ _ _) _ =>
        apply Sim_extractSwiftAssociatedType
    | |- Sim _ (extractSwiftInit _ _ _ _ _ _) _ =>
        apply Sim_extractSwiftInit, Hh
    | |- Sim _ (extractSwiftDeinit _ _ _ _ _ _) _ =>
        apply Sim_extractSwiftDeinit, Hh
    | |- Sim _ (extractSwiftProtocol _ _ _ _ _ _) _ =>
        apply Sim_extractSwiftProtocol, Hh
    | |- Sim _ (extractStruct _ _ _ _ _ _) _ => apply Sim_extractStruct, Hh
    | |- Sim _ (extractEnum _ _ _ _ _) _ => apply Sim_extractEnum
    | |- Sim _ (extractImport _ _ _) _ => apply Sim_extractImport
    | |- Sim _ (extractCall _ _) _ => apply Sim_extractCall
    end.
Qed.

Lemma Sim_visitNodeBody P node :
  height (cst node) <= h ->
  Sim P (visitNodeBody filePath source language clock1 visit1 node)
        (visitNodeBody filePath source language clock2 visit2 node).
Proof.
  intros Hh. unfold visitNodeBody, withExtractor. sim; visits.
  apply Sim_dispatch, Hh.
Qed.

End Walk.

(** The whole walk, with the same fuel on both sides. *)
Lemma Sim_visitNode fuel : forall P node,
  Sim P (visitNode filePath source language clock1 fuel node)
        (visitNode filePath source language clock2 fuel node).
Proof.
  induction fuel as [|f IH]; intros P node; simpl; [apply Sim_ret|].
  apply Sim_visitNodeBody with (h := S (height (cst node))); [|lia].
  intros P' c _. apply IH.
Qed.

End Simulation.

(* ===================================================================== *)
(** * The fuel of [visitNode] is enough                                    *)
(* ===================================================================== *)

Section Fuel.

Variables filePath source : string.
Variable language : Language.
Variable clock : nat -> Z.

Let Same (_ : list string) (s1 s2 : State) : Prop := s1 = s2.

Lemma visitNode_more_fuel (f : nat) : forall node,
  height (cst node) < f ->
  forall s, visitNode filePath source language clock f node s =
            visitNode filePath source language clock (S f) node s.
Proof.
  induction f as [|f IH]; intros node Hh s; [lia|].
  change (visitNodeBody filePath source language clock
            (visitNode filePath source language clock f) node s =
          visitNodeBody filePath source language clock
            (visitNode filePath source language clock (S f)) node s).
  assert (S : Sim Same []
                (visitNodeBody filePath source language clock
                   (visitNode filePath source language clock f) node)
                (visitNodeBody filePath source language clock
                   (visitNode filePath source language clock (S f)) node)).
  { apply Sim_visitNodeBody with (h := height (cst node)); unfold Same;
      try (intros; subst; cbv zeta; auto; fail).
    intros P c Hc s1 s2 ->. rewrite (IH c) by lia. auto. }
  destruct (S s s eq_refl) as [E1 E2].
  apply injective_projections; assumption.
Qed.

(** Any fuel above the height of the tree gives the walk of [visitTree]. *)
Theorem visitNode_fuel_enough (root : Cst) (k : nat) (s : State) :
  visitNode filePath source language clock (S (height root) + k)
            (rootNode root) s =
  visitTree filePath source language clock root s.
Proof.
  unfold visitTree. induction k as [|k IH].
  - now rewrite Nat.add_0_r.
  - rewrite <- IH. rewrite Nat.add_succ_r. symmetry.
    apply visitNode_more_fuel. simpl. lia.
Qed.

End Fuel.

(* ===================================================================== *)
(** * What every emitted node and edge satisfies                           *)
(* ===================================================================== *)

Open Scope list_scope.

Definition ids (ns : list Node.t) : list string := map Node.id ns.

(** The identifier is the kind, a colon, and the truncated digest of path,
    kind, name and start line. *)
Definition idFormula (n : Node.t) : Prop :=
  Node.id n = generateNodeId (Node.filePath n) (Node.kind n) (Node.name n)
                             (Node.startLine n).

(** How [createNode] grows the lists: a node alone, or a node with the
    containment edge from a node emitted before it. *)
Inductive Linked : list Node.t -> list Edge.t -> Prop :=
| Linked_nil : Linked [] []
| Linked_node ns es n : Linked ns es -> Linked (ns ++ [n]) es
| Linked_edge ns es n src :
    Linked ns es -> In src (ids ns) ->
    Linked (ns ++ [n]) (es ++ [Edge.mk src (Node.id n) EContains]).

(** The position of the first occurrence of [x] in [l]. *)
Fixpoint indexOf (x : string) (l : list string) : nat :=
  match l with
  | [] => 0
  | y :: r => if String.eqb x y then 0 else S (indexOf x r)
  end.

Lemma indexOf_app_in (x : string) (l l' : list string) :
  In x l -> indexOf x (l ++ l') = indexOf x l /\ indexOf x l < List.length l.
Proof.
  induction l as [|y r IH]; simpl; [tauto|].
  destruct (String.eqb_spec x y) as [->|N]; [intros _; split; [auto|lia]|].
  intros [E|H]; [congruence|]. destruct (IH H). split; [congruence|lia].
Qed.

Lemma indexOf_app_new {x : string} {l : list string} :
  ~ In x l -> indexOf x (l ++ [x]) = List.length l.
Proof.
  induction l as [|y r IH]; simpl.
  - now rewrite String.eqb_refl.
  - intros H. destruct (String.eqb_spec x y) as [->|N]; [tauto|].
    rewrite IH; tauto.
Qed.

Lemma ids_app (ns ms : list Node.t) : ids (ns ++ ms) = ids ns ++ ids ms.
Proof. apply map_app. Qed.

Lemma NoDup_snoc (l : list string) (x : string) :
  NoDup (l ++ [x]) -> NoDup l /\ ~ In x l.
Proof.
  intros H. split.
  - apply NoDup_remove_1 in H. now rewrite app_nil_r in H.
  - apply NoDup_remove_2 in H. now rewrite app_nil_r in H.
Qed.

Lemma NoDup_snoc_intro (l : list string) (x : string) :
  NoDup l -> ~ In x l -> NoDup (l ++ [x]).
Proof.
  intros Hl Hx. apply NoDup_rev in Hl.
  rewrite <- (rev_involutive (l ++ [x])). apply NoDup_rev.
  rewrite rev_app_distr. simpl. constructor; [|exact Hl].
  now rewrite <- in_rev.
Qed.

(** Every edge is a containment edge whose ends are emitted nodes. *)
Lemma Linked_ends {ns : list Node.t} {es : list Edge.t} :
  Linked ns es ->
  forall e, In e es ->
    Edge.kind e = EContains /\ In (Edge.source e) (ids ns) /\
    In (Edge.target e) (ids ns).
Proof.
  induction 1 as [|ns es n L IH|ns es n src L IH Hs]; intros e He.
  - destruct He.
  - destruct (IH e He) as (K & S & T). rewrite ids_app.
    repeat split; auto using in_or_app.
  - rewrite ids_app. apply in_app_or in He as [He|[<-|[]]].
    + destruct (IH e He) as (K & S & T).
      repeat split; auto using in_or_app.
    + simpl. repeat split; auto using in_or_app.
      apply in_or_app. right. now left.
Qed.

(** With distinct identifiers, the source of an edge is emitted before its
    target. *)
Lemma Linked_order {ns : list Node.t} {es : list Edge.t} :
  Linked ns es -> NoDup (ids ns) ->
  forall e, In e es ->
    indexOf (Edge.source e) (ids ns) < indexOf (Edge.target e) (ids ns).
Proof.
  induction 1 as [|ns es n L IH|ns es n src L IH Hs]; intros D e He.
  - destruct He.
  - rewrite ids_app in *. apply NoDup_snoc in D as [D _].
    destruct (Linked_ends L e He) as (_ & S & T).
    rewrite (proj1 (indexOf_app_in _ _ _ S)),
            (proj1 (indexOf_app_in _ _ _ T)). auto.
  - rewrite ids_app in *. simpl in D. apply NoDup_snoc in D as [D N].
    apply in_app_or in He as [He|[<-|[]]].
    + destruct (Linked_ends L e He) as (_ & S & T).
      rewrite (proj1 (indexOf_app_in _ _ _ S)),
              (proj1 (indexOf_app_in _ _ _ T)). auto.
    + cbn [Edge.source Edge.target ids map].
      change (map Node.id ns) with (ids ns).
      rewrite (indexOf_app_new N).
      destruct (indexOf_app_in src (ids ns) [Node.id n] Hs) as [-> ?]. lia.
Qed.

(** With distinct identifiers, no identifier is the target of two edges. *)
Lemma Linked_targets (ns : list Node.t) (es : list Edge.t) :
  Linked ns es -> NoDup (ids ns) -> NoDup (map Edge.target es).
Proof.
  induction 1 as [|ns es n L IH|ns es n src L IH Hs]; intros D.
  - constructor.
  - rewrite ids_app in D. apply NoDup_snoc in D as [D _]. auto.
  - rewrite ids_app in D. simpl in D. apply NoDup_snoc in D as [D N].
    rewrite map_app. simpl. apply NoDup_snoc_intro; [auto|].
    intros H. apply in_map_iff in H as (e & E & He).
    apply N. rewrite <- E. apply (Linked_ends L e He).
Qed.

(** The containment relation of a batch of edges, and its paths. *)
Definition contains (es : list Edge.t) (a b : string) : Prop :=
  In (Edge.mk a b EContains) es.

Definition path (es : list Edge.t) : string -> string -> Prop :=
  clos_trans string (contains es).

Lemma Linked_acyclic (ns : list Node.t) (es : list Edge.t) :
  Linked ns es -> NoDup (ids ns) -> forall x, ~ path es x x.
Proof.
  intros L D.
  assert (forall x y, path es x y ->
                      indexOf x (ids ns) < indexOf y (ids ns)) as H.
  { induction 1 as [x y E|x y z _ IH1 _ IH2]; [|lia].
    apply (Linked_order L D _ E). }
  intros x P. specialize (H x x P). lia.
Qed.

Lemma last_In (l : list string) (d : string) : l <> [] -> In (last l d) l.
Proof.
  induction l as [|x r IH]; [congruence|]. intros _.
  destruct r as [|y r']; [now left|].
  right. apply IH. discriminate.
Qed.

Lemma removelast_incl (l : list string) (x : string) :
  In x (removelast l) -> In x l.
Proof.
  induction l as [|y r IH]; simpl; [tauto|].
  destruct r; simpl in *; [tauto|]. intros [H|H]; auto.
Qed.

(** The node [createNode] makes, given the qualified name and the time. *)
Definition createdNode (filePath : string) (language : Language)
           (kind : NodeKind) (name : string) (node : SyntaxNode)
           (extra : Node.extra) (qualifiedName : string) (updatedAt : Z)
  : Node.t :=
  Node.mk (generateNodeId filePath kind name
             (lineOf (startPosition (cst node))))
    kind name qualifiedName filePath language
    (lineOf (startPosition (cst node))) (lineOf (endPosition (cst node)))
    (columnOf (startPosition (cst node))) (columnOf (endPosition (cst node)))
    updatedAt
    (Node.xVisibility extra) (Node.xIsExported extra) (Node.xIsAsync extra)
    (Node.xIsStatic extra) (Node.xIsAbstract extra) (Node.xSignature extra)
    (Node.xDocstring extra) (Node.xDecorators extra).

Lemma createNode_eq filePath language clock kind name node extra s :
  createNode filePath language clock kind name node extra s =
  let n := createdNode filePath language kind name node extra
             (fst (buildQualifiedName filePath name s)) (clock (ticks s)) in
  (n, mkState (nodes s ++ [n])
        (edges s ++
         (if Nat.ltb 0 (List.length (nodeStack s)) &&
             JS.truthy (topOf (nodeStack s))
          then [Edge.mk (topOf (nodeStack s)) (Node.id n) EContains]
          else []))
        (unresolvedReferences s) (errors s) (nodeStack s) (S (ticks s))).
Proof.
  unfold createNode, bind. change (snd (buildQualifiedName filePath name s))
    with s.
  unfold ret, getStack, now, pushNode, pushEdge, when, createdNode.
  cbn [fst snd nodeStack nodes edges unresolvedReferences errors ticks].
  destruct (Nat.ltb 0 (List.length (nodeStack s))); cbn [andb];
    [destruct (JS.truthy (topOf (nodeStack s)))|];
    cbn [fst snd nodeStack nodes edges unresolvedReferences errors ticks];
    rewrite ?app_nil_r; reflexivity.
Qed.

(** What [createNode] returns and does to the state. *)
Lemma createNode_run filePath language clock kind name node extra s :
  let n := fst (createNode filePath language clock kind name node extra s) in
  let s' := snd (createNode filePath language clock kind name node extra s) in
  Node.id n = generateNodeId filePath kind name
                (lineOf (startPosition (cst node))) /\
  Node.kind n = kind /\ Node.name n = name /\
  Node.filePath n = filePath /\ Node.language n = language /\
  Node.startLine n = lineOf (startPosition (cst node)) /\
  Node.updatedAt n = clock (ticks s) /\
  nodes s' = nodes s ++ [n] /\
  edges s' = edges s ++
             (if Nat.ltb 0 (List.length (nodeStack s)) &&
                 JS.truthy (topOf (nodeStack s))
              then [Edge.mk (topOf (nodeStack s)) (Node.id n) EContains]
              else []) /\
  unresolvedReferences s' = unresolvedReferences s /\
  errors s' = errors s /\ nodeStack s' = nodeStack s /\
  ticks s' = S (ticks s).
Proof.
  unfold createNode, buildQualifiedName, bind, ret, getStack, getNodes, now,
    pushNode, when. simpl.
  destruct (Nat.ltb 0 (List.length (nodeStack s))); simpl;
    [destruct (JS.truthy (topOf (nodeStack s))); simpl|];
    repeat split; auto; now rewrite app_nil_r.
Qed.

Section Invariant.

Variables filePath source : string.
Variable language : Language.

Definition nodeOK (n : Node.t) : Prop :=
  idFormula n /\ Node.filePath n = filePath /\
  Node.language n = language /\
  (Node.kind n = KFunction -> Node.name n <> anonymous).

(** The invariant of the walker. *)
Definition Inv (s : State) : Prop :=
  Forall nodeOK (nodes s) /\ Linked (nodes s) (edges s) /\
  Forall (fun i => In i (ids (nodes s))) (nodeStack s).

Definition Keeps (P : list string) (s1 s2 : State) : Prop :=
  s1 = s2 /\ Inv s1 /\ Forall (fun i => In i (ids (nodes s1))) P.

Lemma Keeps_create clock P kind name node extra s1 s2 :
  okCreate kind name -> Keeps P s1 s2 ->
  let r1 := createNode filePath language clock kind name node extra s1 in
  let r2 := createNode filePath language clock kind name node extra s2 in
  Node.id (fst r1) = Node.id (fst r2) /\
  Keeps (Node.id (fst r1) :: P) (snd r1) (snd r2).
Proof.
  intros Hok (<- & (Hn & Hl & Hs) & HP). cbv zeta.
  destruct (createNode_run filePath language clock kind name node extra s1)
    as (Ei & Ek & En & Ef & El & Esl & _ & EN & EE & _ & _ & ES & _).
  set (r := createNode filePath language clock kind name node extra s1) in *.
  assert (G : forall i, In i (ids (nodes s1)) ->
                        In i (ids (nodes (snd r)))).
  { intros i Hi. rewrite EN, ids_app. auto using in_or_app. }
  split; [reflexivity|]. split; [reflexivity|]. split; [split; [|split]|].
  - rewrite EN. apply Forall_app. split; [exact Hn|]. constructor; [|auto].
    unfold nodeOK, idFormula. rewrite Ei, Ek, En, Ef, El, Esl.
    repeat split; auto.
  - rewrite EN, EE.
    destruct (Nat.ltb 0 (List.length (nodeStack s1))) eqn:E0; simpl;
      [|rewrite app_nil_r; now constructor].
    destruct (JS.truthy (topOf (nodeStack s1))); simpl;
      [|rewrite app_nil_r; now constructor].
    constructor; [exact Hl|].
    rewrite Forall_forall in Hs. apply Hs. apply last_In.
    intros Z. rewrite Z in E0. discriminate.
  - rewrite ES. eapply Forall_impl; [|exact Hs]. exact G.
  - constructor.
    + rewrite EN, ids_app. apply in_or_app. right. now left.
    + eapply Forall_impl; [|exact HP]. exact G.
Qed.

(** The walker keeps the invariant. *)
Theorem visitNode_Inv clock fuel node s :
  Inv s -> Inv (exec (visitNode filePath source language clock fuel node) s).
Proof.
  intros H.
  assert (HS : Sim Keeps []
                (visitNode filePath source language clock fuel node)
                (visitNode filePath source language clock fuel node)).
  { apply Sim_visitNode; unfold Keeps.
    - intros P i s1 s2 (E & I & F). inversion F; auto.
    - intros P s1 s2 (-> & _); reflexivity.
    - intros; now apply Keeps_create.
    - intros P r s1 s2 (<- & I & F). auto.
    - intros P i s1 s2 Hi (<- & (I1 & I2 & I3) & F).
      repeat split; auto. simpl. apply Forall_app. split; [exact I3|].
      constructor; [|constructor]. rewrite Forall_forall in F. auto.
    - intros P s1 s2 (<- & (I1 & I2 & I3) & F).
      repeat split; auto. simpl. rewrite Forall_forall in *.
      intros x Hx. apply I3, removelast_incl, Hx. }
  destruct (HS s s) as (_ & _ & I & _); [|exact I].
  split; [reflexivity|]. split; [exact H|constructor].
Qed.

Lemma Inv_empty : Inv emptyState.
Proof. repeat split; simpl; constructor. Qed.

End Invariant.

(* ===================================================================== *)
(** * The clock only shows in [updatedAt]                                  *)
(* ===================================================================== *)

(** A state without its time stamps. *)
Definition unstamp (s : State) : State :=
  mkState (map (Node.withUpdatedAt 0) (nodes s)) (edges s)
          (unresolvedReferences s) (errors s) (nodeStack s) 0.

Definition SameButTime (_ : list string) (s1 s2 : State) : Prop :=
  unstamp s1 = unstamp s2.

Lemma unstamp_fields (s1 s2 : State) :
  unstamp s1 = unstamp s2 ->
  map (Node.withUpdatedAt 0) (nodes s1) = map (Node.withUpdatedAt 0) (nodes s2)
  /\ edges s1 = edges s2 /\ unresolvedReferences s1 = unresolvedReferences s2
  /\ errors s1 = errors s2 /\ nodeStack s1 = nodeStack s2.
Proof. unfold unstamp. intros [=]. auto. Qed.

Lemma find_name_unstamped (i : string) (ns1 ns2 : list Node.t) :
  map (Node.withUpdatedAt 0) ns1 = map (Node.withUpdatedAt 0) ns2 ->
  option_map Node.name (find (fun n => String.eqb (Node.id n) i) ns1) =
  option_map Node.name (find (fun n => String.eqb (Node.id n) i) ns2).
Proof.
  revert ns2. induction ns1 as [|a r IH]; intros [|b r2]; cbn [map find];
    try discriminate; [reflexivity|].
  intros H.
  assert (Node.id a = Node.id b /\ Node.name a = Node.name b /\
          map (Node.withUpdatedAt 0) r = map (Node.withUpdatedAt 0) r2)
    as (Ei & En & Er)
    by (unfold Node.withUpdatedAt in H at 1 3; injection H; intros;
        repeat split; assumption).
  rewrite Ei. destruct (String.eqb (Node.id b) i); simpl; [now f_equal|auto].
Qed.

Lemma buildQualifiedName_unstamped filePath name (s1 s2 : State) :
  unstamp s1 = unstamp s2 ->
  fst (buildQualifiedName filePath name s1) =
  fst (buildQualifiedName filePath name s2).
Proof.
  intros H. apply unstamp_fields in H as (En & _ & _ & _ & Es).
  unfold buildQualifiedName, bind, ret, getStack, getNodes.
  cbn [fst snd]. rewrite Es. do 3 f_equal. apply flat_map_ext. intros i.
  pose proof (find_name_unstamped i _ _ En) as F.
  destruct (find _ (nodes s1)), (find _ (nodes s2)); simpl in F;
    congruence.
Qed.

Lemma SameButTime_create filePath language clock1 clock2 P kind name node
      extra s1 s2 :
  SameButTime P s1 s2 ->
  let r1 := createNode filePath language clock1 kind name node extra s1 in
  let r2 := createNode filePath language clock2 kind name node extra s2 in
  Node.id (fst r1) = Node.id (fst r2) /\
  SameButTime (Node.id (fst r1) :: P) (snd r1) (snd r2).
Proof.
  unfold SameButTime. intros H. cbv zeta.
  pose proof (buildQualifiedName_unstamped filePath name _ _ H) as Q.
  apply unstamp_fields in H as (En & Ee & Er & Ex & Es).
  rewrite !createNode_eq. cbv zeta. rewrite Q, Es.
  split; [reflexivity|]. unfold unstamp.
  cbn [fst snd nodeStack nodes edges unresolvedReferences errors ticks].
  rewrite !map_app, En, Ee, Er, Ex. reflexivity.
Qed.

(** Two walks that differ in the clock differ in the time stamps only. *)
Theorem visitNode_unstamped filePath source language clock1 clock2 fuel node
        s1 s2 :
  unstamp s1 = unstamp s2 ->
  unstamp (exec (visitNode filePath source language clock1 fuel node) s1) =
  unstamp (exec (visitNode filePath source language clock2 fuel node) s2).
Proof.
  intros H.
  assert (HS : Sim SameButTime []
                 (visitNode filePath source language clock1 fuel node)
                 (visitNode filePath source language clock2 fuel node)).
  { apply Sim_visitNode; unfold SameButTime.
    - auto.
    - intros P a b E. now apply unstamp_fields in E.
    - intros P kind name nd extra a b _ E.
      apply (SameButTime_create filePath language clock1 clock2 P kind name
               nd extra a b E).
    - intros P r a b E. apply unstamp_fields in E as (En & Ee & Er & Ex & Es).
      unfold exec, pushRef, unstamp. simpl. congruence.
    - intros P i a b _ E. apply unstamp_fields in E as (En & Ee & Er & Ex & Es).
      unfold exec, stackPush, unstamp. simpl. congruence.
    - intros P a b E. apply unstamp_fields in E as (En & Ee & Er & Ex & Es).
      unfold exec, stackPop, unstamp. simpl. congruence. }
  apply (HS s1 s2 H).
Qed.

(* ===================================================================== *)
(** * What a walk leaves untouched                                         *)
(* ===================================================================== *)

(** From [s0] to [s] only references were added. *)
Definition refsAdded (s0 s : State) : Prop :=
  nodes s = nodes s0 /\ edges s = edges s0 /\ errors s = errors s0 /\
  nodeStack s = nodeStack s0 /\ ticks s = ticks s0 /\
  exists l, unresolvedReferences s = unresolvedReferences s0 ++ l.

Definition RefsOnly (s0 : State) (_ : list string) (s1 s2 : State) : Prop :=
  s1 = s2 /\ refsAdded s0 s1.

Lemma refsAdded_refl (s : State) : refsAdded s s.
Proof. repeat split. exists []. now rewrite app_nil_r. Qed.


Lemma RefsOnly_ref s0 P r s1 s2 :
  RefsOnly s0 P s1 s2 ->
  RefsOnly s0 P (exec (pushRef r) s1) (exec (pushRef r) s2).
Proof.
  intros [<- (A & B & C & D & E & l & F)]. split; [reflexivity|].
  unfold exec, pushRef. simpl. repeat split; auto.
  exists (l ++ [r]). now rewrite F, app_assoc.
Qed.


Lemma extractInheritance_refsAdded source node i s :
  refsAdded s (exec (extractInheritance source node i) s).
Proof.
  apply (Sim_extractInheritance source (RefsOnly s) (RefsOnly_ref s) []
           node i s s).
  split; [reflexivity|apply refsAdded_refl].
Qed.

Lemma extractKotlinInheritance_refsAdded source node i s :
  refsAdded s (exec (extractKotlinInheritance source node i) s).
Proof.
  apply (Sim_extractKotlinInheritance source (RefsOnly s) (RefsOnly_ref s) []
           node i s s).
  split; [reflexivity|apply refsAdded_refl].
Qed.

Lemma extractSwiftInheritance_refsAdded source node i s :
  refsAdded s (exec (extractSwiftInheritance source node i) s).
Proof.
  apply (Sim_extractSwiftInheritance source (RefsOnly s) (RefsOnly_ref s) []
           node i s s).
  split; [reflexivity|apply refsAdded_refl].
Qed.

(** From [s0] to [s] the lists of nodes, edges and references were
    extended, and no error was recorded. *)
Definition grown (s0 s : State) : Prop :=
  (exists l, nodes s = nodes s0 ++ l) /\
  (exists l, edges s = edges s0 ++ l) /\
  (exists l, unresolvedReferences s = unresolvedReferences s0 ++ l) /\
  errors s = errors s0.

Definition Grows (s0 : State) (_ : list string) (s1 s2 : State) : Prop :=
  s1 = s2 /\ grown s0 s1.

Lemma grown_refl (s : State) : grown s s.
Proof. repeat split; try (exists []; now rewrite app_nil_r). Qed.

(** The walker only ever appends to its output and records no error. *)
Theorem visitNode_grows filePath source language clock fuel node s :
  grown s (exec (visitNode filePath source language clock fuel node) s).
Proof.
  assert (HS : Sim (Grows s) []
                 (visitNode filePath source language clock fuel node)
                 (visitNode filePath source language clock fuel node)).
  { apply Sim_visitNode; unfold Grows.
    - auto.
    - now intros P a b [-> _].
    - intros P kind name nd extra a b _ [<- ((ln & Hn) & (le & He) & Hr & Hx)].
      cbv zeta. rewrite createNode_eq. cbv zeta. cbn [fst snd].
      split; [reflexivity|]. split; [reflexivity|].
      unfold grown. cbn [nodes edges unresolvedReferences errors].
      repeat split; auto.
      + eexists. rewrite Hn, <- app_assoc. reflexivity.
      + eexists. rewrite He, <- app_assoc. reflexivity.
    - intros P r a b [<- (Hn & He & (lr & Hr) & Hx)].
      split; [reflexivity|]. unfold exec, pushRef, grown. simpl.
      repeat split; auto. eexists. rewrite Hr, <- app_assoc. reflexivity.
    - intros P i a b _ [<- H]. split; [reflexivity|exact H].
    - intros P a b [<- H]. split; [reflexivity|exact H]. }
  apply (HS s s). split; [reflexivity|apply grown_refl].
Qed.

(* ===================================================================== *)
(** * The output of [LiquidExtractor] in closed form                       *)
(* ===================================================================== *)

Lemma bind_eq {A B} (m : M A) (f : A -> M B) (s s' : State) (a : A) :
  m s = (a, s') -> bind m f s = f a s'.
Proof. unfold bind. now intros ->. Qed.

Lemma forEach_pointwise {A} (l : list A) (f g : A -> M unit) :
  (forall x s, f x s = g x s) -> forall s, forEach l f s = forEach l g s.
Proof.
  intros H. induction l as [|x r IH]; intros s; simpl; [reflexivity|].
  unfold bind. rewrite H. apply IH.
Qed.

Section LiquidClosedForm.

Variables filePath source : string.
Variable clock : nat -> Z.
Variable schemaNameOf : string -> option string.

(** One turn of a loop of the extractor: a node stamped with the time,
    its edge from the file node, and its references. *)
Definition emitTag (fileNodeId : string) (mk : Z -> Node.t)
           (refs : list Ref.t) : M unit :=
  updatedAt <- now clock ;;
  pushNode (mk updatedAt) ;;
  containedIn fileNodeId (Node.id (mk updatedAt)) ;;
  forEach refs pushRef.

(** The nodes of the matches [ms], stamped from the [k]-th reading of
    the clock on. *)
Fixpoint stamped {A} (mk : A -> Z -> Node.t) (ms : list A) (k : nat)
  : list Node.t :=
  match ms with
  | [] => []
  | m :: r => mk m (clock k) :: stamped mk r (S k)
  end.

Definition edgeFrom (fileNodeId : string) (n : Node.t) : Edge.t :=
  Edge.mk fileNodeId (Node.id n) EContains.

Lemma forEach_pushRef (rs : list Ref.t) (s : State) :
  forEach rs pushRef s =
  (tt, mkState (nodes s) (edges s) (unresolvedReferences s ++ rs)
               (errors s) (nodeStack s) (ticks s)).
Proof.
  revert s. induction rs as [|r rs IH]; intros s; simpl.
  - rewrite app_nil_r. now destruct s.
  - unfold bind. rewrite IH. simpl. now rewrite <- app_assoc.
Qed.

Lemma emitTag_run (fileNodeId : string) (mk : Z -> Node.t)
      (refs : list Ref.t) (s : State) :
  emitTag fileNodeId mk refs s =
  (tt, mkState (nodes s ++ [mk (clock (ticks s))])
               (edges s ++ [edgeFrom fileNodeId (mk (clock (ticks s)))])
               (unresolvedReferences s ++ refs)
               (errors s) (nodeStack s) (S (ticks s))).
Proof. unfold emitTag, bind. rewrite forEach_pushRef. reflexivity. Qed.

Lemma forEach_emitTag {A} (fileNodeId : string) (mk : A -> Z -> Node.t)
      (rf : A -> list Ref.t) (ms : list A) (s : State) :
  forEach ms (fun m => emitTag fileNodeId (mk m) (rf m)) s =
  (tt, mkState (nodes s ++ stamped mk ms (ticks s))
               (edges s ++ map (edgeFrom fileNodeId)
                               (stamped mk ms (ticks s)))
               (unresolvedReferences s ++ flat_map rf ms)
               (errors s) (nodeStack s) (ticks s + List.length ms)).
Proof.
  revert s. induction ms as [|m r IH]; intros s;
    cbn [forEach stamped map flat_map List.length].
  - rewrite !app_nil_r, Nat.add_0_r. now destruct s.
  - unfold bind. rewrite emitTag_run. cbn [snd]. rewrite IH.
    cbn [nodes edges unresolvedReferences errors nodeStack ticks].
    rewrite <- !app_assoc. cbn [app]. do 2 f_equal. lia.
Qed.

Definition snippetNode (m : Regex.Match) (t : Z) : Node.t :=
  tagNode filePath source KComponent
    (Regex.group 1 m ++ ":" ++ Regex.group 2 m)%string (Regex.group 2 m) m t.

Definition snippetRef (fileNodeId : string) (m : Regex.Match) : Ref.t :=
  Ref.mk fileNodeId ("snippets/" ++ Regex.group 2 m ++ ".liquid")%string
    RReferences
    (Z.of_nat (getLineNumber source (Regex.index m)))
    (columnAt source (Regex.index m)
              (getLineNumber source (Regex.index m))).

Definition sectionNode (m : Regex.Match) (t : Z) : Node.t :=
  tagNode filePath source KComponent
    ("section:" ++ Regex.group 1 m)%string (Regex.group 1 m) m t.

Definition sectionRef (fileNodeId : string) (m : Regex.Match) : Ref.t :=
  Ref.mk fileNodeId ("sections/" ++ Regex.group 1 m ++ ".liquid")%string
    RReferences
    (Z.of_nat (getLineNumber source (Regex.index m)))
    (columnAt source (Regex.index m)
              (getLineNumber source (Regex.index m))).

Definition schemaName (m : Regex.Match) : string :=
  match schemaNameOf (Regex.group 1 m) with
  | Some nm => nm
  | None => "schema"
  end.

Definition schemaNode (m : Regex.Match) (t : Z) : Node.t :=
  let startLine := getLineNumber source (Regex.index m) in
  Node.mk (generateNodeId filePath KConstant
             ("schema:" ++ schemaName m)%string (Z.of_nat startLine))
    KConstant (schemaName m)
    (filePath ++ "::schema:" ++ schemaName m)%string filePath Liquid
    (Z.of_nat startLine)
    (Z.of_nat (getLineNumber source
                 (Regex.index m + String.length (Regex.matched m))))
    (columnAt source (Regex.index m) startLine) 0
    t None None None None None None
    (Some (JS.substring (JS.trim (Regex.group 1 m)) 0 200)) None.

Definition assignNode (m : Regex.Match) (t : Z) : Node.t :=
  tagNode filePath source KVariable (Regex.group 1 m) (Regex.group 1 m) m t.

Definition renders : list Regex.Match :=
  Regex.matchAll false LiquidPatterns.renderRegex source.
Definition sections : list Regex.Match :=
  Regex.matchAll false LiquidPatterns.sectionRegex source.
Definition schemas : list Regex.Match :=
  Regex.matchAll false LiquidPatterns.schemaRegex source.
Definition assigns : list Regex.Match :=
  Regex.matchAll false LiquidPatterns.assignRegex source.

Definition fileNodeAt (t : Z) : Node.t :=
  fst (createFileNode filePath source (fun _ => t) emptyState).

Definition fileId : string := generateNodeId filePath KFile filePath 1.

(** The nodes that follow the file node. *)
Definition tagNodes : list Node.t :=
  let k1 := 2 in
  let k2 := k1 + List.length renders in
  let k3 := k2 + List.length sections in
  let k4 := k3 + List.length schemas in
  stamped snippetNode renders k1 ++ stamped sectionNode sections k2 ++
  stamped schemaNode schemas k3 ++ stamped assignNode assigns k4.

Lemma createFileNode_run (s : State) :
  createFileNode filePath source clock s =
  (fileNodeAt (clock (ticks s)),
   mkState (nodes s ++ [fileNodeAt (clock (ticks s))]) (edges s)
           (unresolvedReferences s) (errors s) (nodeStack s)
           (S (ticks s))).
Proof. reflexivity. Qed.

Lemma fileNodeAt_id (t : Z) : Node.id (fileNodeAt t) = fileId.
Proof. reflexivity. Qed.

Definition after {A} (mk : A -> Z -> Node.t) (rf : A -> list Ref.t)
           (ms : list A) (s : State) : State :=
  mkState (nodes s ++ stamped mk ms (ticks s))
          (edges s ++ map (edgeFrom fileId) (stamped mk ms (ticks s)))
          (unresolvedReferences s ++ flat_map rf ms)
          (errors s) (nodeStack s) (ticks s + List.length ms).

Lemma extractSnippetReferences_run (s : State) :
  extractSnippetReferences filePath source clock fileId s =
  (tt, after snippetNode (fun m => [snippetRef fileId m]) renders s).
Proof.
  unfold extractSnippetReferences.
  rewrite (forEach_pointwise _ _
             (fun m => emitTag fileId (snippetNode m) [snippetRef fileId m]))
    by reflexivity.
  apply forEach_emitTag.
Qed.

Lemma extractSectionReferences_run (s : State) :
  extractSectionReferences filePath source clock fileId s =
  (tt, after sectionNode (fun m => [sectionRef fileId m]) sections s).
Proof.
  unfold extractSectionReferences.
  rewrite (forEach_pointwise _ _
             (fun m => emitTag fileId (sectionNode m) [sectionRef fileId m]))
    by reflexivity.
  apply forEach_emitTag.
Qed.

Lemma extractSchema_run (s : State) :
  extractSchema filePath source clock schemaNameOf fileId s =
  (tt, after schemaNode (fun _ => []) schemas s).
Proof.
  unfold extractSchema.
  rewrite (forEach_pointwise _ _
             (fun m => emitTag fileId (schemaNode m) []))
    by reflexivity.
  apply forEach_emitTag.
Qed.

Lemma extractAssignments_run (s : State) :
  extractAssignments filePath source clock fileId s =
  (tt, after assignNode (fun _ => []) assigns s).
Proof.
  unfold extractAssignments.
  rewrite (forEach_pointwise _ _
             (fun m => emitTag fileId (assignNode m) []))
    by reflexivity.
  apply forEach_emitTag.
Qed.

Lemma flat_map_singleton {A B} (f : A -> B) (l : list A) :
  flat_map (fun m => [f m]) l = map f l.
Proof. induction l; simpl; congruence. Qed.

Lemma flat_map_nil {A B} (l : list A) :
  flat_map (fun _ => @nil B) l = [].
Proof. induction l; simpl; auto. Qed.

Ltac norm :=
  cbn [nodes edges unresolvedReferences errors nodeStack ticks app].

(** The result of the extraction, list by list. *)
Theorem LiquidExtractor_extract_eq :
  let r := LiquidExtractor_extract filePath source clock schemaNameOf in
  Result.nodes r = fileNodeAt (clock 1) :: tagNodes /\
  Result.edges r = map (edgeFrom fileId) tagNodes /\
  Result.unresolvedReferences r =
    map (snippetRef fileId) renders ++ map (sectionRef fileId) sections /\
  Result.errors r = [].
Proof.
  cbv zeta. unfold LiquidExtractor_extract, tagNodes.
  erewrite bind_eq by reflexivity. unfold emptyState; norm.
  erewrite bind_eq by apply createFileNode_run. norm.
  rewrite fileNodeAt_id.
  erewrite bind_eq by apply extractSnippetReferences_run.
  unfold after; norm.
  erewrite bind_eq by apply extractSectionReferences_run.
  unfold after; norm.
  erewrite bind_eq by apply extractSchema_run.
  unfold after; norm.
  erewrite bind_eq by apply extractAssignments_run.
  unfold after; norm.
  erewrite bind_eq by reflexivity. norm.
  erewrite bind_eq by reflexivity.
  unfold ret, resultOf.
  cbn [fst Result.nodes Result.edges Result.unresolvedReferences
       Result.errors]. norm.
  rewrite !flat_map_singleton, !flat_map_nil, !app_nil_r, !map_app,
    <- !app_assoc.
  repeat split.
Qed.

End LiquidClosedForm.

(* ===================================================================== *)
(** * The result of [TreeSitterExtractor.extract], case by case            *)
(* ===================================================================== *)

(** The state in which the walk starts: nothing emitted, the clock read
    once. *)
Definition started : State := mkState [] [] [] [] [] 1.

Section ExtractCases.

Variable detectLanguage : string -> Language.
Variable isLanguageSupported : Language -> bool.
Variable getParser : Language -> option Parser.
Variable clock : nat -> Z.
Variables filePath source : string.
Variable language : option Language.

Let lang : Language := languageOr detectLanguage language filePath.
Let extracted : Result.t :=
  TreeSitterExtractor_extract detectLanguage isLanguageSupported getParser
    clock filePath source language.

Ltac norm :=
  cbn [nodes edges unresolvedReferences errors nodeStack ticks app].

Lemma extract_unsupported :
  isLanguageSupported lang = false ->
  extracted =
  Result.mk [] [] []
    [failure ("Unsupported language: " ++ languageTag lang)]
    (clock 1 - clock 0).
Proof.
  intros H. unfold extracted, TreeSitterExtractor_extract. fold lang.
  erewrite bind_eq by reflexivity. rewrite H. cbn [negb].
  erewrite bind_eq by reflexivity. reflexivity.
Qed.

Lemma extract_no_parser :
  isLanguageSupported lang = true -> getParser lang = None ->
  extracted =
  Result.mk [] [] []
    [failure ("Failed to get parser for language: " ++ languageTag lang)]
    (clock 1 - clock 0).
Proof.
  intros H G. unfold extracted, TreeSitterExtractor_extract. fold lang.
  erewrite bind_eq by reflexivity. rewrite H, G. cbn [negb].
  erewrite bind_eq by reflexivity. reflexivity.
Qed.

Lemma extract_threw (parser : Parser) (message : string) :
  isLanguageSupported lang = true -> getParser lang = Some parser ->
  parser source = Threw message ->
  extracted =
  Result.mk [] [] [] [failure ("Parse error: " ++ message)]
    (clock 1 - clock 0).
Proof.
  intros H G T. unfold extracted, TreeSitterExtractor_extract. fold lang.
  erewrite bind_eq by reflexivity. rewrite H, G, T. cbn [negb].
  erewrite bind_eq by reflexivity.
  erewrite bind_eq by reflexivity.
  erewrite bind_eq by reflexivity. reflexivity.
Qed.

Lemma extract_parsed (parser : Parser) (root : Cst) :
  isLanguageSupported lang = true -> getParser lang = Some parser ->
  parser source = Parsed root ->
  let s := exec (visitTree filePath source lang clock root) started in
  extracted = resultOf (clock 0) (clock (ticks s)) s.
Proof.
  intros H G T. cbv zeta.
  unfold extracted, TreeSitterExtractor_extract. fold lang.
  erewrite bind_eq by reflexivity. rewrite H, G, T. cbn [negb].
  unfold emptyState. norm.
  erewrite bind_eq by apply surjective_pairing.
  erewrite bind_eq by reflexivity.
  erewrite bind_eq by reflexivity. reflexivity.
Qed.

(** The lists of the result are those of a state grown by a walk from
    [started], or they are empty with one error. *)
Lemma extract_cases :
  (exists root s,
      s = exec (visitTree filePath source lang clock root) started /\
      extracted = resultOf (clock 0) (clock (ticks s)) s) \/
  (exists message,
      extracted = Result.mk [] [] [] [failure message] (clock 1 - clock 0)).
Proof.
  destruct (isLanguageSupported lang) eqn:H;
    [|right; eexists; now apply extract_unsupported].
  destruct (getParser lang) as [parser|] eqn:G;
    [|right; eexists; now apply extract_no_parser].
  destruct (parser source) as [root|message] eqn:T.
  - left. exists root. eexists. split; [reflexivity|].
    exact (extract_parsed parser root H G T).
  - right. eexists. exact (extract_threw parser message H G T).
Qed.

End ExtractCases.

(* ===================================================================== *)
(** * Determinism up to the clock                                          *)
(* ===================================================================== *)

Definition unstampNodes (ns : list Node.t) : list Node.t :=
  map (Node.withUpdatedAt 0) ns.

Lemma unstamp_stamped {A} (clock : nat -> Z) (mk : A -> Z -> Node.t)
      (ms : list A) (k : nat) :
  (forall m t, Node.withUpdatedAt 0 (mk m t) =
               Node.withUpdatedAt 0 (mk m 0%Z)) ->
  unstampNodes (stamped clock mk ms k) =
  map (fun m => Node.withUpdatedAt 0 (mk m 0%Z)) ms.
Proof.
  intros H. revert k. induction ms as [|m r IH]; intros k; simpl;
    [reflexivity|]. rewrite H. f_equal. apply IH.
Qed.

Lemma edgeFrom_unstamp (fid : string) (ns : list Node.t) :
  map (edgeFrom fid) ns = map (edgeFrom fid) (unstampNodes ns).
Proof.
  unfold unstampNodes. rewrite map_map. apply map_ext. reflexivity.
Qed.

Lemma unstamp_tagNodes filePath source clock1 clock2 schemaNameOf :
  unstampNodes (tagNodes filePath source clock1 schemaNameOf) =
  unstampNodes (tagNodes filePath source clock2 schemaNameOf).
Proof.
  unfold tagNodes, unstampNodes. cbv zeta. rewrite !map_app.
  change (map (Node.withUpdatedAt 0)) with unstampNodes.
  rewrite !unstamp_stamped by reflexivity. reflexivity.
Qed.

Lemma Liquid_unstamped filePath source clock1 clock2 schemaNameOf :
  let r1 := LiquidExtractor_extract filePath source clock1 schemaNameOf in
  let r2 := LiquidExtractor_extract filePath source clock2 schemaNameOf in
  unstampNodes (Result.nodes r1) = unstampNodes (Result.nodes r2) /\
  Result.edges r1 = Result.edges r2 /\
  Result.unresolvedReferences r1 = Result.unresolvedReferences r2.
Proof.
  cbv zeta.
  destruct (LiquidExtractor_extract_eq filePath source clock1 schemaNameOf)
    as (N1 & E1 & R1 & _).
  destruct (LiquidExtractor_extract_eq filePath source clock2 schemaNameOf)
    as (N2 & E2 & R2 & _).
  rewrite N1, N2, E1, E2, R1, R2.
  pose proof (unstamp_tagNodes filePath source clock1 clock2 schemaNameOf)
    as T.
  split; [|split; [|reflexivity]].
  - unfold unstampNodes in *. cbn [map]. rewrite T. reflexivity.
  - rewrite (edgeFrom_unstamp _ (tagNodes filePath source clock1 _)),
            (edgeFrom_unstamp _ (tagNodes filePath source clock2 _)).
    now rewrite T.
Qed.

Lemma TreeSitter_unstamped detectLanguage isLanguageSupported getParser
      clock1 clock2 filePath source language :
  let r1 := TreeSitterExtractor_extract detectLanguage isLanguageSupported
              getParser clock1 filePath source language in
  let r2 := TreeSitterExtractor_extract detectLanguage isLanguageSupported
              getParser clock2 filePath source language in
  unstampNodes (Result.nodes r1) = unstampNodes (Result.nodes r2) /\
  Result.edges r1 = Result.edges r2 /\
  Result.unresolvedReferences r1 = Result.unresolvedReferences r2.
Proof.
  cbv zeta.
  set (lang := languageOr detectLanguage language filePath).
  destruct (isLanguageSupported lang) eqn:H.
  2:{ rewrite !extract_unsupported by exact H. repeat split. }
  destruct (getParser lang) as [parser|] eqn:G.
  2:{ rewrite !extract_no_parser by assumption. repeat split. }
  destruct (parser source) as [root|message] eqn:T.
  2:{ rewrite !(extract_threw _ _ _ _ _ _ _ parser message H G T).
      repeat split. }
  rewrite !(extract_parsed _ _ _ _ _ _ _ parser root H G T).
  pose proof (visitNode_unstamped filePath source lang clock1 clock2
                (S (height root)) (rootNode root) started started eq_refl)
    as U.
  apply unstamp_fields in U as (Un & Ue & Ur & _).
  unfold resultOf, visitTree. cbn [Result.nodes Result.edges
                                   Result.unresolvedReferences].
  split; [exact Un|split; [exact Ue|exact Ur]].
Qed.

(** C2.  Two runs of the extractor on the same file path, source text and
    language give the same nodes, edges and unresolved references, in the
    same order, whatever the clock shows in either run: the results differ
    at most in [durationMs] and in the [updatedAt] of the nodes. *)
Theorem C2_determinism detectLanguage isLanguageSupported getParser
        schemaNameOf clock1 clock2 filePath source language :
  let r1 := extractFromSource detectLanguage isLanguageSupported getParser
              schemaNameOf clock1 filePath source language in
  let r2 := extractFromSource detectLanguage isLanguageSupported getParser
              schemaNameOf clock2 filePath source language in
  unstampNodes (Result.nodes r1) = unstampNodes (Result.nodes r2) /\
  Result.edges r1 = Result.edges r2 /\
  Result.unresolvedReferences r1 = Result.unresolvedReferences r2.
Proof.
  cbv zeta. unfold extractFromSource.
  destruct (Language_eqb _ Liquid).
  - apply Liquid_unstamped.
  - apply TreeSitter_unstamped.
Qed.

(* ===================================================================== *)
(** * Unsupported languages                                                *)
(* ===================================================================== *)

(** C3.  When the language of the input (given, or detected from the file
    path) is not supported, or has no parser, the extraction returns a
    result with no node, no edge, no unresolved reference and exactly one
    error record, of severity [error]; being a total function it does not
    throw.  The functions of the grammar registry are parameters. *)
Theorem C3_unsupported_language detectLanguage isLanguageSupported getParser
        clock filePath source language :
  let lang := languageOr detectLanguage language filePath in
  isLanguageSupported lang = false \/ getParser lang = None ->
  let r := TreeSitterExtractor_extract detectLanguage isLanguageSupported
             getParser clock filePath source language in
  Result.nodes r = [] /\ Result.edges r = [] /\
  Result.unresolvedReferences r = [] /\
  exists message, Result.errors r = [Err.mk message SevError].
Proof.
  cbv zeta. intros H.
  destruct (isLanguageSupported
              (languageOr detectLanguage language filePath)) eqn:S.
  - destruct H as [H|H]; [discriminate|].
    rewrite extract_no_parser by assumption.
    repeat split. eexists. reflexivity.
  - rewrite extract_unsupported by assumption.
    repeat split. eexists. reflexivity.
Qed.

Lemma C3_unsupported_language_witness :
  let r := TreeSitterExtractor_extract
             (fun _ => Unknown) (fun l => negb (Language_eqb l Unknown))
             (fun _ => None) (fun k => Z.of_nat k)
             "styles.css" "a { color: red }" None in
  Result.nodes r = [] /\ Result.edges r = [] /\
  Result.unresolvedReferences r = [] /\
  exists message, Result.errors r = [Err.mk message SevError].
Proof.
  apply (C3_unsupported_language
           (fun _ => Unknown) (fun l => negb (Language_eqb l Unknown))
           (fun _ => None) (fun k => Z.of_nat k)
           "styles.css" "a { color: red }" None).
  left. reflexivity.
Defined.

(* ===================================================================== *)
(** * Example inputs                                                       *)
(* ===================================================================== *)

Module Examples.

(** A node on the first row, from column [a] to column [b]. *)
Definition tok (ty : string) (named : bool) (fld : option string)
           (a b : nat) (ks : list Cst) : Cst :=
  mkCst ty named fld a b (mkPoint 0 a) (mkPoint 0 b) ks.

Definition ticking : nat -> Z := fun k => Z.of_nat k.

(** An extractor whose grammar registry knows the language [l] and
    parses every source to [tree]. *)
Definition extractTree (l : Language) (tree : Cst)
           (filePath source : string) : Result.t :=
  extractFromSource (fun _ => l) (fun _ => true)
    (fun _ => Some (fun _ => Parsed tree)) (fun _ => None) ticking
    filePath source None.

Definition extractLiquid (filePath source : string) : Result.t :=
  extractFromSource (fun _ => Liquid) (fun _ => true) (fun _ => None)
    (fun _ => None) ticking filePath source None.

(** [{% render 'product-card' %}] and [{% include 'product-card' %}] *)
Definition renderCard : string := "{% render 'product-card' %}".
Definition includeCard : string := "{% include 'product-card' %}".

(** [import './a'] in TypeScript, at top level. *)
Definition importSource : string := "import './a'".
Definition importTree : Cst :=
  tok "program" true None 0 12
    [tok "import_statement" true None 0 12
       [tok "import" false None 0 6 [];
        tok "string" true (Some "source") 7 12 []]].

(** [struct { int x; } s;] in C: a structure without a name. *)
Definition anonStructSource : string := "struct { int x; } s;".
Definition anonStructTree : Cst :=
  tok "translation_unit" true None 0 20
    [tok "declaration" true None 0 20
       [tok "struct_specifier" true (Some "type") 0 17
          [tok "struct" false None 0 6 [];
           tok "field_declaration_list" true (Some "body") 7 17
             [tok "field_declaration" true None 9 15
                [tok "primitive_type" true (Some "type") 9 12 [];
                 tok "field_identifier" true (Some "declarator") 13 14 []]]];
        tok "identifier" true (Some "declarator") 18 19 []]].

(** [class A { m() {} } class B { m() {} }] in JavaScript, on one line. *)
Definition twoClassesSource : string :=
  "class A { m() {} } class B { m() {} }".
Definition classAt (a : nat) : Cst :=
  tok "class_declaration" true None a (a + 18)
    [tok "class" false None a (a + 5) [];
     tok "identifier" true (Some "name") (a + 6) (a + 7) [];
     tok "class_body" true (Some "body") (a + 8) (a + 18)
       [tok "method_definition" true (Some "member") (a + 10) (a + 16)
          [tok "property_identifier" true (Some "name") (a + 10) (a + 11) [];
           tok "formal_parameters" true (Some "parameters")
               (a + 11) (a + 13) [];
           tok "statement_block" true (Some "body") (a + 14) (a + 16) []]]].
Definition twoClassesTree : Cst :=
  tok "program" true None 0 37 [classAt 0; classAt 19].

(** [struct User: Codable {}] in Swift. *)
Definition swiftStructSource : string := "struct User: Codable {}".
Definition swiftStructTree : Cst :=
  tok "source_file" true None 0 23
    [tok "class_declaration" true None 0 23
       [tok "struct" false (Some "declaration_kind") 0 6 [];
        tok "type_identifier" true (Some "name") 7 11 [];
        tok ":" false None 11 12 [];
        tok "inheritance_specifier" true None 13 20
          [tok "user_type" true (Some "inherits_from") 13 20
             [tok "type_identifier" true None 13 20 []]];
        tok "class_body" true (Some "body") 21 23 []]].


(** [function f() { g(); }] and [() => 1] in TypeScript. *)
Definition functionSource : string := "function f() { g(); }".
Definition functionNode : SyntaxNode :=
  rootNode
    (tok "function_declaration" true None 0 21
       [tok "function" false None 0 8 [];
        tok "identifier" true (Some "name") 9 10 [];
        tok "formal_parameters" true (Some "parameters") 10 12 [];
        tok "statement_block" true (Some "body") 13 21
          [tok "expression_statement" true None 15 19
             [tok "call_expression" true None 15 18
                [tok "identifier" true (Some "function") 15 16 [];
                 tok "arguments" true (Some "arguments") 16 18 []]]]]).

Definition arrowSource : string := "() => 1".
Definition arrowTree : Cst :=
  tok "program" true None 0 7
    [tok "expression_statement" true None 0 7
       [tok "arrow_function" true None 0 7
          [tok "formal_parameters" true (Some "parameters") 0 2 [];
           tok "=>" false None 3 5 [];
           tok "number" true (Some "body") 6 7 []]]].

End Examples.

(* ===================================================================== *)
(** * C1: node identity                                                    *)
(* ===================================================================== *)

Lemma substring_all (k : string) : String.substring 0 (String.length k) k = k.
Proof. induction k as [|ch k IH]; simpl; [reflexivity|now rewrite IH]. Qed.

Lemma substringFrom_append (p k : string) :
  JS.substringFrom (p ++ k) (String.length p) = k.
Proof.
  unfold JS.substringFrom. induction p as [|ch p IH]; simpl.
  - rewrite Nat.sub_0_r. apply substring_all.
  - exact IH.
Qed.

Lemma length_append (p k : string) :
  String.length (p ++ k) = String.length p + String.length k.
Proof. induction p as [|ch p IH]; simpl; [reflexivity|now rewrite IH]. Qed.

Lemma substringFrom_qualified (filePath key : string) :
  JS.substringFrom (filePath ++ "::" ++ key) (String.length filePath + 2) = key.
Proof.
  change (filePath ++ "::" ++ key)%string
    with (filePath ++ ("::" ++ key))%string.
  replace (filePath ++ ("::" ++ key))%string
    with ((filePath ++ "::") ++ key)%string.
  - replace (String.length filePath + 2)
      with (String.length (filePath ++ "::")%string).
    + apply substringFrom_append.
    + rewrite length_append. reflexivity.
  - induction filePath as [|ch f IH]; simpl; [reflexivity|now rewrite IH].
Qed.

(** The name hashed into the identifier of a node of a Liquid template:
    the file path for the file node, else what follows the file path and
    the two colons in the qualified name. *)
Definition liquidKey (filePath : string) (n : Node.t) : string :=
  match Node.kind n with
  | KFile => filePath
  | _ => JS.substringFrom (Node.qualifiedName n) (String.length filePath + 2)
  end.

Definition liquidIdFormula (filePath : string) (n : Node.t) : Prop :=
  Node.id n = generateNodeId filePath (Node.kind n) (liquidKey filePath n)
                             (Node.startLine n).

Lemma Forall_stamped {A} (Q : Node.t -> Prop) (clock : nat -> Z)
      (mk : A -> Z -> Node.t) (ms : list A) (k : nat) :
  (forall m t, Q (mk m t)) -> Forall Q (stamped clock mk ms k).
Proof.
  intros H. revert k. induction ms as [|m r IH]; intros k; simpl;
    constructor; auto.
Qed.

Lemma Liquid_idFormula filePath source clock schemaNameOf :
  Forall (liquidIdFormula filePath)
    (Result.nodes (LiquidExtractor_extract filePath source clock schemaNameOf)).
Proof.
  destruct (LiquidExtractor_extract_eq filePath source clock schemaNameOf)
    as (N & _). rewrite N. constructor; [reflexivity|].
  unfold tagNodes. cbv zeta. rewrite !Forall_app.
  repeat split; apply Forall_stamped; intros m t;
    unfold liquidIdFormula, liquidKey, snippetNode, sectionNode, schemaNode,
      assignNode, tagNode;
    cbn [Node.id Node.kind Node.qualifiedName Node.startLine];
    try (change (filePath ++ "::schema:" ++ schemaName schemaNameOf m)%string
           with (filePath ++ "::" ++ ("schema:" ++
                                      schemaName schemaNameOf m))%string);
    rewrite substringFrom_qualified; reflexivity.
Qed.

Lemma started_Inv filePath language : Inv filePath language started.
Proof. repeat split; simpl; constructor. Qed.

(** What the invariant of the walker gives for the result. *)
Lemma TreeSitter_result_Inv detectLanguage isLanguageSupported getParser
      clock filePath source language :
  let r := TreeSitterExtractor_extract detectLanguage isLanguageSupported
             getParser clock filePath source language in
  Forall (nodeOK filePath (languageOr detectLanguage language filePath))
         (Result.nodes r) /\
  Linked (Result.nodes r) (Result.edges r).
Proof.
  cbv zeta.
  destruct (extract_cases detectLanguage isLanguageSupported getParser clock
              filePath source language)
    as [(root & s & Es & ->)|(message & ->)].
  - pose proof (visitNode_Inv filePath source
                  (languageOr detectLanguage language filePath) clock
                  (S (height root)) (rootNode root) started
                  (started_Inv _ _)) as (In1 & In2 & _).
    unfold visitTree in Es. rewrite <- Es in In1, In2.
    split; assumption.
  - split; constructor.
Qed.

Lemma TreeSitter_idFormula detectLanguage isLanguageSupported getParser
      clock filePath source language :
  Forall idFormula
    (Result.nodes (TreeSitterExtractor_extract detectLanguage
                     isLanguageSupported getParser clock filePath source
                     language)).
Proof.
  eapply Forall_impl;
    [|apply (TreeSitter_result_Inv detectLanguage isLanguageSupported
               getParser clock filePath source language)].
  intros n H. apply H.
Qed.

Definition idFormulab (n : Node.t) : bool :=
  String.eqb (Node.id n)
    (generateNodeId (Node.filePath n) (Node.kind n) (Node.name n)
                    (Node.startLine n)).

Lemma idFormulab_spec (n : Node.t) : idFormulab n = true <-> idFormula n.
Proof. apply String.eqb_eq. Qed.

Lemma kindTag_inj (a b : NodeKind) : kindTag a = kindTag b -> a = b.
Proof. destruct a, b; simpl; intros H; try reflexivity; discriminate H. Qed.

(** Same file path, kind, name and start line, but another identifier. *)
Definition sameKeyOtherId (n1 n2 : Node.t) : bool :=
  String.eqb (Node.filePath n1) (Node.filePath n2) &&
  NodeKind_eqb (Node.kind n1) (Node.kind n2) &&
  String.eqb (Node.name n1) (Node.name n2) &&
  Z.eqb (Node.startLine n1) (Node.startLine n2) &&
  negb (String.eqb (Node.id n1) (Node.id n2)).

Lemma sameKeyOtherId_spec (n1 n2 : Node.t) :
  sameKeyOtherId n1 n2 = true ->
  Node.filePath n1 = Node.filePath n2 /\ Node.kind n1 = Node.kind n2 /\
  Node.name n1 = Node.name n2 /\ Node.startLine n1 = Node.startLine n2 /\
  Node.id n1 <> Node.id n2.
Proof.
  unfold sameKeyOtherId, NodeKind_eqb. rewrite !andb_true_iff.
  intros ((((F & K) & N) & L) & I).
  apply String.eqb_eq in F, K, N. apply Z.eqb_eq in L.
  apply negb_true_iff, String.eqb_neq in I. apply kindTag_inj in K. auto.
Qed.

(** C1, as stated, fails on a Liquid template: the component node of
    [{% render 'product-card' %}] is named [product-card], but its
    identifier hashes [render:product-card]; and the same tag written with
    [include] gives a node of the same path, kind, name and line with
    another identifier. *)
Lemma C1_counterexample :
  ~ Forall idFormula
      (Result.nodes (Examples.extractLiquid "index.liquid"
                       Examples.renderCard)) /\
  (exists n1 n2,
      In n1 (Result.nodes (Examples.extractLiquid "index.liquid"
                             Examples.renderCard)) /\
      In n2 (Result.nodes (Examples.extractLiquid "index.liquid"
                             Examples.includeCard)) /\
      Node.filePath n1 = Node.filePath n2 /\ Node.kind n1 = Node.kind n2 /\
      Node.name n1 = Node.name n2 /\ Node.startLine n1 = Node.startLine n2 /\
      Node.id n1 <> Node.id n2).
Proof.
  split.
  - intros H.
    assert (B : forallb idFormulab
                  (Result.nodes (Examples.extractLiquid "index.liquid"
                                   Examples.renderCard)) = true).
    { apply forallb_forall. intros n Hn. apply idFormulab_spec.
      rewrite Forall_forall in H. exact (H n Hn). }
    vm_compute in B. discriminate B.
  - assert (B : existsb (fun n1 =>
                  existsb (sameKeyOtherId n1)
                    (Result.nodes (Examples.extractLiquid "index.liquid"
                                     Examples.includeCard)))
                  (Result.nodes (Examples.extractLiquid "index.liquid"
                                   Examples.renderCard)) = true)
      by (vm_compute; reflexivity).
    apply existsb_exists in B as (n1 & H1 & B).
    apply existsb_exists in B as (n2 & H2 & B).
    exists n1, n2. split; [exact H1|split; [exact H2|]].
    apply sameKeyOtherId_spec, B.
Qed.

(** C1, amended.  Every node emitted by the tree-sitter extractor has the
    identifier [kind:h], where [h] is the first 32 hexadecimal characters
    of the SHA-256 digest of [filePath:kind:name:startLine]; so two nodes
    of tree-sitter extractions with the same file path, kind, name and
    start line have the same identifier.  Every node emitted by the Liquid
    extractor has the identifier built in the same way from its
    [liquidKey] in place of its name. *)
Theorem C1_node_identity :
  (forall detectLanguage isLanguageSupported getParser clock filePath source
          language,
      Forall idFormula
        (Result.nodes (TreeSitterExtractor_extract detectLanguage
                         isLanguageSupported getParser clock filePath source
                         language))) /\
  (forall filePath source clock schemaNameOf,
      Forall (liquidIdFormula filePath)
        (Result.nodes (LiquidExtractor_extract filePath source clock
                         schemaNameOf))) /\
  (forall n1 n2,
      idFormula n1 -> idFormula n2 ->
      Node.filePath n1 = Node.filePath n2 -> Node.kind n1 = Node.kind n2 ->
      Node.name n1 = Node.name n2 -> Node.startLine n1 = Node.startLine n2 ->
      Node.id n1 = Node.id n2).
Proof.
  split; [|split].
  - intros. apply TreeSitter_idFormula.
  - intros. apply Liquid_idFormula.
  - unfold idFormula. intros n1 n2 -> -> -> -> -> ->. reflexivity.
Qed.

(* ===================================================================== *)
(** * C7: anonymous constructs                                             *)
(* ===================================================================== *)

Definition namedIfFunction (n : Node.t) : Prop :=
  Node.kind n = KFunction -> Node.name n <> anonymous.

Lemma Liquid_kinds filePath source clock schemaNameOf :
  let r := LiquidExtractor_extract filePath source clock schemaNameOf in
  exists f rest,
    Result.nodes r = f :: rest /\ Node.kind f = KFile /\
    Node.id f = fileId filePath /\
    Forall (fun n => Node.kind n = KComponent \/ Node.kind n = KConstant \/
                     Node.kind n = KVariable) rest /\
    Result.edges r = map (edgeFrom (fileId filePath)) rest.
Proof.
  cbv zeta.
  destruct (LiquidExtractor_extract_eq filePath source clock schemaNameOf)
    as (N & E & _).
  exists (fileNodeAt filePath source (clock 1)).
  exists (tagNodes filePath source clock schemaNameOf).
  split; [exact N|]. split; [reflexivity|]. split; [reflexivity|].
  split; [|exact E].
  unfold tagNodes. cbv zeta. rewrite !Forall_app.
  split; [|split; [|split]]; apply Forall_stamped; intros m t; cbn; tauto.
Qed.

(** C7, as stated, fails: a structure without a name in a C file is
    emitted as a node named [<anonymous>]. *)
Lemma C7_counterexample :
  exists n,
    In n (Result.nodes (Examples.extractTree CLang Examples.anonStructTree
                          "a.c" Examples.anonStructSource)) /\
    Node.kind n = KStruct /\ Node.name n = anonymous.
Proof.
  assert (B : existsb (fun n => NodeKind_eqb (Node.kind n) KStruct &&
                                String.eqb (Node.name n) anonymous)
                (Result.nodes (Examples.extractTree CLang
                                 Examples.anonStructTree "a.c"
                                 Examples.anonStructSource)) = true)
    by (vm_compute; reflexivity).
  apply existsb_exists in B as (n & Hn & B).
  apply andb_true_iff in B as [K N].
  exists n. split; [exact Hn|]. split.
  - apply kindTag_inj, String.eqb_eq, K.
  - apply String.eqb_eq, N.
Qed.

(** C7, amended.  No emitted node of kind [function] is named
    [<anonymous>]: a function whose name cannot be resolved produces no
    node. *)
Theorem C7_no_anonymous_function detectLanguage isLanguageSupported getParser
        schemaNameOf clock filePath source language :
  Forall namedIfFunction
    (Result.nodes (extractFromSource detectLanguage isLanguageSupported
                     getParser schemaNameOf clock filePath source language)).
Proof.
  unfold extractFromSource. destruct (Language_eqb _ Liquid).
  - destruct (Liquid_kinds filePath source clock schemaNameOf)
      as (f & rest & -> & Kf & _ & Kr & _).
    constructor; [intros K; congruence|].
    eapply Forall_impl; [|exact Kr].
    intros n [K|[K|K]] K'; congruence.
  - eapply Forall_impl;
      [|apply (TreeSitter_result_Inv detectLanguage isLanguageSupported
                 getParser clock filePath source (Some _))].
    intros n (_ & _ & _ & H). exact H.
Qed.

(* ===================================================================== *)
(** * C8: the containment forest                                           *)
(* ===================================================================== *)

Lemma Linked_star (f : Node.t) (ns : list Node.t) :
  Linked (f :: ns) (map (edgeFrom (Node.id f)) ns).
Proof.
  induction ns as [|n ns IH] using rev_ind.
  - apply (Linked_node [] [] f), Linked_nil.
  - rewrite map_app. change (f :: ns ++ [n]) with ((f :: ns) ++ [n]).
    apply Linked_edge; [exact IH|]. now left.
Qed.

Lemma result_Linked detectLanguage isLanguageSupported getParser
      schemaNameOf clock filePath source language :
  let r := extractFromSource detectLanguage isLanguageSupported getParser
             schemaNameOf clock filePath source language in
  Linked (Result.nodes r) (Result.edges r).
Proof.
  cbv zeta. unfold extractFromSource. destruct (Language_eqb _ Liquid).
  - destruct (Liquid_kinds filePath source clock schemaNameOf)
      as (f & rest & -> & _ & <- & _ & ->).
    apply Linked_star.
  - apply (TreeSitter_result_Inv detectLanguage isLanguageSupported
             getParser clock filePath source (Some _)).
Qed.

(** The targets of the containment edges of a result. *)
Definition containsTargets (r : Result.t) : list string :=
  map Edge.target
      (filter (fun e => match Edge.kind e with EContains => true | _ => false end)
              (Result.edges r)).

(** C8, as stated, fails: two JavaScript classes on one line, each with a
    method [m], give the two methods one identifier, which is then the
    target of two containment edges. *)
Lemma C8_counterexample :
  ~ NoDup (containsTargets
             (Examples.extractTree JavaScript Examples.twoClassesTree "a.js"
                Examples.twoClassesSource)).
Proof.
  intros H.
  assert (E : containsTargets
                (Examples.extractTree JavaScript Examples.twoClassesTree
                   "a.js" Examples.twoClassesSource) =
              ["method:5f6c58a610f51f93ab059e5ebd8742a7";
               "method:5f6c58a610f51f93ab059e5ebd8742a7"]%string)
    by (vm_compute; reflexivity).
  rewrite E in H. inversion H as [|? ? N _]. apply N. now left.
Qed.

(** C8, amended.  When the identifiers of the emitted nodes are pairwise
    distinct, the edges of the result, all of them containment edges
    between emitted nodes, form a forest: no identifier is the target of
    two edges, and no path of edges leads from a node back to itself. *)
Theorem C8_containment_forest detectLanguage isLanguageSupported getParser
        schemaNameOf clock filePath source language :
  let r := extractFromSource detectLanguage isLanguageSupported getParser
             schemaNameOf clock filePath source language in
  NoDup (ids (Result.nodes r)) ->
  (forall e, In e (Result.edges r) ->
             Edge.kind e = EContains /\
             In (Edge.source e) (ids (Result.nodes r)) /\
             In (Edge.target e) (ids (Result.nodes r))) /\
  NoDup (containsTargets r) /\
  (forall x, ~ path (Result.edges r) x x).
Proof.
  cbv zeta. intros D.
  pose proof (result_Linked detectLanguage isLanguageSupported getParser
                schemaNameOf clock filePath source language) as L.
  cbv zeta in L. split; [|split].
  - apply (Linked_ends L).
  - unfold containsTargets.
    rewrite forallb_filter_id.
    + apply (Linked_targets _ _ L D).
    + apply forallb_forall. intros e He.
      now rewrite (proj1 (Linked_ends L e He)).
  - apply (Linked_acyclic _ _ L D).
Qed.

Lemma C8_containment_forest_witness :
  let r := Examples.extractTree JavaScript
             (Examples.tok "program" true None 0 18 [Examples.classAt 0])
             "a.js" "class A { m() {} }" in
  (forall e, In e (Result.edges r) ->
             Edge.kind e = EContains /\
             In (Edge.source e) (ids (Result.nodes r)) /\
             In (Edge.target e) (ids (Result.nodes r))) /\
  NoDup (containsTargets r) /\
  (forall x, ~ path (Result.edges r) x x).
Proof.
  apply (C8_containment_forest
           (fun _ => JavaScript) (fun _ => true)
           (fun _ => Some (fun _ => Parsed
              (Examples.tok "program" true None 0 18 [Examples.classAt 0])))
           (fun _ => None) Examples.ticking "a.js" "class A { m() {} }" None).
  vm_compute. constructor.
  - simpl. intros [H|[]]. discriminate H.
  - constructor; [simpl; tauto|constructor].
Defined.

(* ===================================================================== *)
(** * C10: Liquid templates                                                *)
(* ===================================================================== *)



(* ===================================================================== *)
(** * C5: default visibility                                               *)
(* ===================================================================== *)








(* ===================================================================== *)
(** * C9: Swift inheritance                                                *)
(* ===================================================================== *)

(** C9 on a structure: for [struct User: Codable {}] the code emits a
    [struct] node and one reference to [Codable], of kind [extends]. *)
Lemma C9_swift_struct_extends :
  let r := Examples.extractTree Swift Examples.swiftStructTree "User.swift"
             Examples.swiftStructSource in
  map (fun n => (Node.kind n, Node.name n)) (Result.nodes r) =
    [(KStruct, "User"%string)] /\
  map (fun x => (Ref.referenceName x, Ref.referenceKind x))
      (Result.unresolvedReferences r) = [("Codable"%string, RExtends)].
Proof. vm_compute. split; reflexivity. Qed.

(* ===================================================================== *)
(** * The dispatch of [visitNode] on import and function types            *)
(* ===================================================================== *)

Lemma includesType_cases (t : string) (types : list string) :
  includesType types t = true -> In t types.
Proof.
  unfold includesType. intros H. apply existsb_exists in H as (x & Hx & E).
  apply String.eqb_eq in E. now subst.
Qed.

(** Decide the closed tests of a dispatch once the node type is known. *)
Ltac decide_tests :=
  repeat match goal with
         | |- context [if ?b then _ else _] =>
             let v := eval vm_compute in b in
             change b with v; cbv beta iota
         end.

(** A node of an import type is handled by [extractImport], and its
    children are visited afterwards. *)
Lemma dispatch_import filePath source language clock visit ex node s :
  EXTRACTORS language = Some ex ->
  includesType (importTypes ex) (nodeType node) = true ->
  dispatch filePath source language clock visit ex node s =
  (false, exec (extractImport source language node) s).
Proof.
  intros He Ht. apply includesType_cases in Ht.
  destruct language; simpl in He; try discriminate He;
    injection He as <-; simpl in Ht;
    repeat (destruct Ht as [Ht|Ht]); try contradiction;
    unfold dispatch; cbv zeta; rewrite <- Ht; decide_tests; reflexivity.
Qed.

Lemma grown_trans (a b c : State) : grown a b -> grown b c -> grown a c.
Proof.
  intros ((l1 & N1) & (l2 & E1) & (l3 & R1) & X1)
         ((m1 & N2) & (m2 & E2) & (m3 & R2) & X2).
  repeat split; try congruence.
  - exists (l1 ++ m1). now rewrite N2, N1, app_assoc.
  - exists (l2 ++ m2). now rewrite E2, E1, app_assoc.
  - exists (l3 ++ m3). now rewrite R2, R1, app_assoc.
Qed.

Lemma forEach_grows {A} (l : list A) (f : A -> M unit) :
  (forall x s, grown s (exec (f x) s)) ->
  forall s, grown s (exec (forEach l f) s).
Proof.
  intros H. induction l as [|x r IH]; intros s; simpl.
  - apply grown_refl.
  - unfold exec, bind. cbv zeta.
    eapply grown_trans; [apply H|apply IH].
Qed.

(** What [extractImport] does to the state. *)
Lemma extractImport_run source language node s :
  exec (extractImport source language node) s =
  if JS.truthy (moduleNameOf source language node) &&
     Nat.ltb 0 (List.length (nodeStack s)) &&
     JS.truthy (topOf (nodeStack s))
  then exec (pushRef (Ref.mk (topOf (nodeStack s))
                        (moduleNameOf source language node) RImports
                        (lineOf (startPosition (cst node)))
                        (columnOf (startPosition (cst node))))) s
  else s.
Proof.
  unfold extractImport, exec, bind, getStack, when. cbv zeta. cbn [fst snd].
  destruct (JS.truthy (moduleNameOf source language node)); cbn [andb];
    [|reflexivity].
  destruct (Nat.ltb 0 (List.length (nodeStack s))); cbn [andb];
    [|reflexivity].
  destruct (JS.truthy (topOf (nodeStack s))); reflexivity.
Qed.

(* ===================================================================== *)
(** * C4: imports                                                          *)
(* ===================================================================== *)

(** C4, as stated, fails: an import at the top level of a TypeScript file
    is a node of an import type with a module name, and no reference is
    emitted for it. *)
Lemma C4_counterexample :
  let import := nth 0 (namedChildren (rootNode Examples.importTree))
                    (rootNode Examples.importTree) in
  includesType (importTypes Policy.typescript) (nodeType import) = true /\
  moduleNameOf Examples.importSource TypeScript import = "./a"%string /\
  Result.unresolvedReferences
    (Examples.extractTree TypeScript Examples.importTree "a.ts"
       Examples.importSource) = [].
Proof. vm_compute. repeat split. Qed.

(** C4, amended.  When the walker visits a node whose type is one of the
    import types of the language and from which a module name, not empty,
    is extracted: if the scope stack is not empty (and its top is not the
    empty string) an unresolved reference of kind [imports] to the module
    name is emitted from the innermost scope; if the scope stack is empty,
    at the top level, the import emits nothing. *)
Theorem C4_import_reference filePath source language clock fuel ex node s :
  EXTRACTORS language = Some ex ->
  includesType (importTypes ex) (nodeType node) = true ->
  JS.truthy (moduleNameOf source language node) = true ->
  (nodeStack s <> [] -> JS.truthy (topOf (nodeStack s)) = true ->
   In (Ref.mk (topOf (nodeStack s)) (moduleNameOf source language node)
         RImports (lineOf (startPosition (cst node)))
         (columnOf (startPosition (cst node))))
      (unresolvedReferences
         (exec (visitNode filePath source language clock (S fuel) node) s)))
  /\
  (nodeStack s = [] -> exec (extractImport source language node) s = s).
Proof.
  intros He Ht Hm. split.
  - intros Hs Htop.
    cbn [visitNode]. unfold visitNodeBody, withExtractor, extractor.
    rewrite He. unfold exec at 1.
    erewrite bind_eq by (apply dispatch_import; assumption).
    cbn [negb when].
    pose proof (forEach_grows (namedChildren node)
                  (visitNode filePath source language clock fuel)
                  (fun x s => visitNode_grows filePath source language clock
                                fuel x s)
                  (exec (extractImport source language node) s))
      as (_ & _ & (l & R) & _).
    unfold exec in R at 1. rewrite R. apply in_or_app. left.
    rewrite extractImport_run, Hm, Htop.
    destruct (nodeStack s) as [|x r]; [congruence|].
    cbn [List.length Nat.ltb Nat.leb andb].
    unfold exec, pushRef. cbn [snd unresolvedReferences].
    apply in_or_app. right. now left.
  - intros Hs. rewrite extractImport_run, Hs. cbn [List.length Nat.ltb
      Nat.leb andb]. now rewrite andb_false_r.
Qed.

Lemma C4_import_reference_witness :
  let import := nth 0 (namedChildren (rootNode Examples.importTree))
                    (rootNode Examples.importTree) in
  let s := mkState [] [] [] [] ["class:0"%string] 0 in
  (nodeStack s <> [] -> JS.truthy (topOf (nodeStack s)) = true ->
   In (Ref.mk (topOf (nodeStack s))
         (moduleNameOf Examples.importSource TypeScript import)
         RImports (lineOf (startPosition (cst import)))
         (columnOf (startPosition (cst import))))
      (unresolvedReferences
         (exec (visitNode "a.ts" Examples.importSource TypeScript
                  Examples.ticking 1 import) s)))
  /\
  (nodeStack s = [] ->
   exec (extractImport Examples.importSource TypeScript import) s = s).
Proof.
  apply (C4_import_reference "a.ts" Examples.importSource TypeScript
           Examples.ticking 0 Policy.typescript); reflexivity.
Defined.

(* ===================================================================== *)
(** * C6: functions and methods                                            *)
(* ===================================================================== *)









(* ===================================================================== *)
(** * The depth bound of the walk                                          *)
(* ===================================================================== *)

Lemma visitNode_any_fuel filePath source language clock node k s :
  visitNode filePath source language clock (S (height (cst node)) + k) node s =
  visitNode filePath source language clock (S (height (cst node))) node s.
Proof.
  induction k as [|k IH]; [now rewrite Nat.add_0_r|].
  rewrite <- IH, Nat.add_succ_r. symmetry.
  apply visitNode_more_fuel. lia.
Qed.

(** X1.  The recursion of [visitNode] is bounded by the tree alone: from
    any node and any state, two depth bounds above the height of the
    node's tree give the same result and the same state. *)
Theorem walk_fuel_irrelevant filePath source language clock node f1 f2 s :
  height (cst node) < f1 -> height (cst node) < f2 ->
  visitNode filePath source language clock f1 node s =
  visitNode filePath source language clock f2 node s.
Proof.
  intros H1 H2.
  replace f1 with (S (height (cst node)) + (f1 - S (height (cst node))))
    by lia.
  replace f2 with (S (height (cst node)) + (f2 - S (height (cst node))))
    by lia.
  now rewrite !visitNode_any_fuel.
Qed.

Lemma walk_fuel_irrelevant_witness :
  visitNode "a.ts" Examples.functionSource TypeScript Examples.ticking 6
            Examples.functionNode emptyState =
  visitNode "a.ts" Examples.functionSource TypeScript Examples.ticking 9
            Examples.functionNode emptyState.
Proof.
  apply (walk_fuel_irrelevant "a.ts" Examples.functionSource TypeScript
           Examples.ticking Examples.functionNode 6 9 emptyState);
    cbv; lia.
Defined.

(* ===================================================================== *)
(** * The readings of the clock                                            *)
(* ===================================================================== *)

(** The clock was read once before the walk and once for every node, in
    the order of emission. *)
Definition clocked (clock : nat -> Z) (s : State) : Prop :=
  ticks s = S (List.length (nodes s)) /\
  map Node.updatedAt (nodes s) = map clock (seq 1 (List.length (nodes s))).

Definition Clocked (clock : nat -> Z) (_ : list string) (s1 s2 : State)
  : Prop :=
  s1 = s2 /\ clocked clock s1.

Lemma clocked_create filePath language clock kind name node extra s :
  clocked clock s ->
  clocked clock
    (snd (createNode filePath language clock kind name node extra s)).
Proof.
  intros [Ht Hu].
  destruct (createNode_run filePath language clock kind name node extra s)
    as (_ & _ & _ & _ & _ & _ & Eu & EN & _ & _ & _ & _ & ET).
  unfold clocked. rewrite EN, ET, length_app, map_app, Hu.
  cbn [List.length map]. rewrite Eu, Ht, Nat.add_1_r.
  split; [reflexivity|]. rewrite seq_S, map_app. reflexivity.
Qed.

Lemma visitNode_clocked filePath source language clock fuel node s :
  clocked clock s ->
  clocked clock (exec (visitNode filePath source language clock fuel node) s).
Proof.
  intros H.
  assert (HS : Sim (Clocked clock) []
                 (visitNode filePath source language clock fuel node)
                 (visitNode filePath source language clock fuel node)).
  { apply Sim_visitNode; unfold Clocked.
    - auto.
    - now intros P a b [-> _].
    - intros P kind name nd extra a b _ [<- C]. cbv zeta.
      split; [reflexivity|]. split; [reflexivity|].
      now apply clocked_create.
    - intros P r a b [<- C]. split; [reflexivity|exact C].
    - intros P i a b _ [<- C]. split; [reflexivity|exact C].
    - intros P a b [<- C]. split; [reflexivity|exact C]. }
  apply (HS s s). split; [reflexivity|exact H].
Qed.

Lemma stamped_length {A} (clock : nat -> Z) (mk : A -> Z -> Node.t)
      (ms : list A) (k : nat) :
  List.length (stamped clock mk ms k) = List.length ms.
Proof.
  revert k. induction ms as [|m r IH]; intros k; simpl; [reflexivity|].
  now rewrite IH.
Qed.

Lemma stamped_updatedAt {A} (clock : nat -> Z) (mk : A -> Z -> Node.t)
      (ms : list A) (k : nat) :
  (forall m t, Node.updatedAt (mk m t) = t) ->
  map Node.updatedAt (stamped clock mk ms k) =
  map clock (seq k (List.length ms)).
Proof.
  intros H. revert k. induction ms as [|m r IH]; intros k; simpl;
    [reflexivity|]. now rewrite H, IH.
Qed.

Ltac fields :=
  cbn [nodes edges unresolvedReferences errors nodeStack ticks app].

Lemma LiquidExtractor_duration filePath source clock schemaNameOf :
  Result.durationMs
    (LiquidExtractor_extract filePath source clock schemaNameOf) =
  Z.sub
    (clock (2 + List.length (renders source) + List.length (sections source) +
            List.length (schemas source) + List.length (assigns source)))
    (clock 0).
Proof.
  unfold LiquidExtractor_extract.
  erewrite bind_eq by reflexivity. unfold emptyState; fields.
  erewrite bind_eq by apply createFileNode_run. fields.
  rewrite fileNodeAt_id.
  erewrite bind_eq by apply extractSnippetReferences_run.
  unfold after; fields.
  erewrite bind_eq by apply extractSectionReferences_run.
  unfold after; fields.
  erewrite bind_eq by apply extractSchema_run.
  unfold after; fields.
  erewrite bind_eq by apply extractAssignments_run.
  unfold after; fields.
  erewrite bind_eq by reflexivity. fields.
  erewrite bind_eq by reflexivity.
  unfold ret, resultOf. cbn [fst Result.durationMs]. reflexivity.
Qed.

Lemma tagNodes_length filePath source clock schemaNameOf :
  List.length (tagNodes filePath source clock schemaNameOf) =
  List.length (renders source) + List.length (sections source) +
  List.length (schemas source) + List.length (assigns source).
Proof.
  unfold tagNodes. cbv zeta. rewrite !length_app, !stamped_length. lia.
Qed.

Lemma tagNodes_updatedAt filePath source clock schemaNameOf :
  map Node.updatedAt (tagNodes filePath source clock schemaNameOf) =
  map clock (seq 2 (List.length
                      (tagNodes filePath source clock schemaNameOf))).
Proof.
  rewrite tagNodes_length. unfold tagNodes. cbv zeta.
  rewrite !map_app, !stamped_updatedAt by reflexivity.
  rewrite !seq_app, !map_app, <- !app_assoc. repeat f_equal; lia.
Qed.

(** X2.  An extraction reads the clock once when it starts, once for
    every node it emits, in the order of emission, and once when it ends:
    the [updatedAt] of the [i]-th node is the [i]-th reading after the
    first, and [durationMs] is the last reading less the first. *)
Theorem clock_readings detectLanguage isLanguageSupported getParser
        schemaNameOf clock filePath source language :
  let r := extractFromSource detectLanguage isLanguageSupported getParser
             schemaNameOf clock filePath source language in
  map Node.updatedAt (Result.nodes r) =
    map clock (seq 1 (List.length (Result.nodes r))) /\
  Result.durationMs r =
    Z.sub (clock (S (List.length (Result.nodes r)))) (clock 0).
Proof.
  cbv zeta. unfold extractFromSource.
  set (lang := languageOr detectLanguage language filePath).
  destruct (Language_eqb lang Liquid).
  - rewrite LiquidExtractor_duration.
    destruct (LiquidExtractor_extract_eq filePath source clock schemaNameOf)
      as (N & _). rewrite N. cbn [List.length map seq].
    rewrite tagNodes_updatedAt, tagNodes_length. split; reflexivity.
  - change lang with (languageOr detectLanguage (Some lang) filePath).
    destruct (isLanguageSupported
                (languageOr detectLanguage (Some lang) filePath)) eqn:H.
    2:{ rewrite extract_unsupported by exact H. split; reflexivity. }
    destruct (getParser (languageOr detectLanguage (Some lang) filePath))
      as [parser|] eqn:G.
    2:{ rewrite extract_no_parser by assumption. split; reflexivity. }
    destruct (parser source) as [root|message] eqn:T.
    2:{ rewrite (extract_threw _ _ _ _ _ _ _ parser message H G T).
        split; reflexivity. }
    rewrite (extract_parsed _ _ _ _ _ _ _ parser root H G T).
    destruct (visitNode_clocked filePath source lang clock
                (S (height root)) (rootNode root) started) as [Ht Hu];
      [split; reflexivity|].
    unfold resultOf, visitTree.
    cbn [Result.nodes Result.durationMs languageOr].
    split; [exact Hu|]. now rewrite Ht.
Qed.

(* ===================================================================== *)
(** * Errors                                                               *)
(* ===================================================================== *)


(** X4.  When the parser throws on the source, the result holds exactly
    one error, whose message is [Parse error: ] followed by the message
    of the exception, and nothing else; the clock has been read twice. *)
Theorem parse_failure_reported detectLanguage isLanguageSupported getParser
        schemaNameOf clock filePath source language parser message :
  let lang := languageOr detectLanguage language filePath in
  Language_eqb lang Liquid = false ->
  isLanguageSupported lang = true ->
  getParser lang = Some parser ->
  parser source = Threw message ->
  extractFromSource detectLanguage isLanguageSupported getParser
    schemaNameOf clock filePath source language =
  Result.mk [] [] [] [Err.mk ("Parse error: " ++ message) SevError]
            (clock 1 - clock 0).
Proof.
  cbv zeta. intros L H G T. unfold extractFromSource. rewrite L.
  exact (extract_threw detectLanguage isLanguageSupported getParser clock
           filePath source (Some _) parser message H G T).
Qed.

Lemma parse_failure_reported_witness :
  extractFromSource (fun _ => Python) (fun _ => true)
    (fun _ => Some (fun _ => Threw "out of memory")) (fun _ => None)
    Examples.ticking "a.py" "def f(): pass" None =
  Result.mk [] [] [] [Err.mk "Parse error: out of memory" SevError] 1.
Proof.
  apply (parse_failure_reported (fun _ => Python) (fun _ => true)
           (fun _ => Some (fun _ => Threw "out of memory")) (fun _ => None)
           Examples.ticking "a.py" "def f(): pass" None
           (fun _ => Threw "out of memory") "out of memory");
    reflexivity.
Defined.



(* ===================================================================== *)
(** * File path and language of the nodes                                  *)
(* ===================================================================== *)

(** X6.  Every node of a result carries the file path given to the
    extraction and the language it ran for, the one given or else the one
    detected from the file path. *)
Theorem nodes_carry_path_and_language detectLanguage isLanguageSupported
        getParser schemaNameOf clock filePath source language :
  Forall (fun n => Node.filePath n = filePath /\
                   Node.language n =
                     languageOr detectLanguage language filePath)
    (Result.nodes (extractFromSource detectLanguage isLanguageSupported
                     getParser schemaNameOf clock filePath source language)).
Proof.
  unfold extractFromSource.
  destruct (Language_eqb _ Liquid) eqn:L.
  - assert (E : languageOr detectLanguage language filePath = Liquid)
      by (destruct (languageOr detectLanguage language filePath);
          try discriminate L; reflexivity).
    rewrite E.
    destruct (LiquidExtractor_extract_eq filePath source clock schemaNameOf)
      as (N & _). rewrite N. constructor; [split; reflexivity|].
    unfold tagNodes. cbv zeta. rewrite !Forall_app.
    repeat split; apply Forall_stamped; intros m t; split; reflexivity.
  - eapply Forall_impl;
      [|apply (TreeSitter_result_Inv detectLanguage isLanguageSupported
                 getParser clock filePath source (Some _))].
    intros n (_ & F & G & _). split; [exact F|exact G].
Qed.

(* ===================================================================== *)
(** * References and components of a Liquid template                      *)
(* ===================================================================== *)

Definition isComponent (n : Node.t) : bool :=
  NodeKind_eqb (Node.kind n) KComponent.

Lemma filter_stamped_all {A} (clock : nat -> Z) (mk : A -> Z -> Node.t)
      (ms : list A) (k : nat) :
  (forall m t, isComponent (mk m t) = true) ->
  filter isComponent (stamped clock mk ms k) = stamped clock mk ms k.
Proof.
  intros H. revert k. induction ms as [|m r IH]; intros k; simpl;
    [reflexivity|]. now rewrite H, IH.
Qed.

Lemma filter_stamped_none {A} (clock : nat -> Z) (mk : A -> Z -> Node.t)
      (ms : list A) (k : nat) :
  (forall m t, isComponent (mk m t) = false) ->
  filter isComponent (stamped clock mk ms k) = [].
Proof.
  intros H. revert k. induction ms as [|m r IH]; intros k; simpl;
    [reflexivity|]. now rewrite H, IH.
Qed.

Lemma Forall2_stamped {A} (Q : Ref.t -> Node.t -> Prop) (clock : nat -> Z)
      (rf : A -> Ref.t) (mk : A -> Z -> Node.t) (ms : list A) (k : nat) :
  (forall m t, Q (rf m) (mk m t)) ->
  Forall2 Q (map rf ms) (stamped clock mk ms k).
Proof.
  intros H. revert k. induction ms as [|m r IH]; intros k; simpl;
    constructor; auto.
Qed.

(** The reference that goes with a component node. *)
Definition refersTo (fileNodeId : string) (r : Ref.t) (n : Node.t) : Prop :=
  Ref.fromNodeId r = fileNodeId /\ Ref.referenceKind r = RReferences /\
  Ref.line r = Node.startLine n /\ Ref.column r = Node.startColumn n /\
  (Ref.referenceName r = "snippets/" ++ Node.name n ++ ".liquid" \/
   Ref.referenceName r = "sections/" ++ Node.name n ++ ".liquid")%string.

(** X7.  In the result for a Liquid template the unresolved references
    and the nodes of kind [component] correspond one to one, in order:
    each reference is of kind [references], leaves from the file node,
    stands on the line and at the column where its component starts, and
    names [snippets/N.liquid] or [sections/N.liquid] for the name [N] of
    the component. *)
Theorem liquid_references_match_components filePath source clock
        schemaNameOf :
  let r := LiquidExtractor_extract filePath source clock schemaNameOf in
  Forall2 (refersTo (fileId filePath))
    (Result.unresolvedReferences r)
    (filter isComponent (Result.nodes r)).
Proof.
  cbv zeta.
  destruct (LiquidExtractor_extract_eq filePath source clock schemaNameOf)
    as (N & _ & R & _). rewrite N, R. unfold tagNodes. cbv zeta.
  cbn [filter]. change (isComponent (fileNodeAt filePath source (clock 1)))
    with false. cbv iota.
  rewrite !filter_app.
  rewrite (filter_stamped_all clock (snippetNode filePath source))
    by reflexivity.
  rewrite (filter_stamped_all clock (sectionNode filePath source))
    by reflexivity.
  rewrite (filter_stamped_none clock (schemaNode filePath source schemaNameOf))
    by reflexivity.
  rewrite (filter_stamped_none clock (assignNode filePath source))
    by reflexivity.
  rewrite !app_nil_r.
  apply Forall2_app; apply Forall2_stamped; intros m t;
    unfold refersTo; cbn; tauto.
Qed.

(* ===================================================================== *)
(** * The shape of a node identifier                                       *)
(* ===================================================================== *)

Definition isLowerHex (ch : ascii) : bool :=
  let n := JS.code ch in
  (Nat.leb 48 n && Nat.leb n 57) || (Nat.leb 97 n && Nat.leb n 102).

Lemma chars_substring (n : nat) (s : string) :
  JS.chars (String.substring 0 n s) = firstn n (JS.chars s).
Proof.
  revert n. induction s as [|ch s IH]; intros [|n]; simpl; try reflexivity.
  now rewrite <- IH.
Qed.

Lemma chars_length (s : string) :
  List.length (JS.chars s) = String.length s.
Proof. induction s as [|ch s IH]; simpl; [reflexivity|now rewrite IH]. Qed.

Lemma bytesBE_length (n : nat) (x : N) :
  List.length (Sha256.bytesBE n x) = n.
Proof.
  revert x. induction n as [|n IH]; intros x; simpl; [reflexivity|].
  rewrite length_app, IH. simpl. lia.
Qed.

Lemma bytesBE_bound (n : nat) (x : N) :
  Forall (fun b => (b < 256)%N) (Sha256.bytesBE n x).
Proof.
  revert x. induction n as [|n IH]; intros x; simpl; [constructor|].
  apply Forall_app. split; [apply IH|].
  constructor; [|constructor]. apply N.mod_lt. discriminate.
Qed.

Lemma digest_bytes (msg : list N) :
  List.length (Sha256.digest msg) = 32 /\
  Forall (fun b => (b < 256)%N) (Sha256.digest msg).
Proof.
  unfold Sha256.digest. cbv zeta.
  set (r := fold_left Sha256.compress _ _). clearbody r.
  cbn [flat_map]. split.
  - rewrite !length_app, !bytesBE_length. reflexivity.
  - rewrite !Forall_app. repeat split;
      try apply bytesBE_bound; constructor.
Qed.

Lemma hexDigit_lower (n : N) :
  (n < 16)%N -> isLowerHex (Sha256.hexDigit n) = true.
Proof.
  intros H.
  assert (E : In n [0; 1; 2; 3; 4; 5; 6; 7; 8; 9; 10; 11; 12; 13; 14; 15]%N).
  { destruct n as [|p]; [now left|].
    do 4 (destruct p as [p|p|]; try (cbn; tauto)); exfalso; lia. }
  cbn in E.
  repeat (destruct E as [<-|E]; [reflexivity|]). destruct E.
Qed.

Lemma hex_chars (bs : list N) :
  Forall (fun b => (b < 256)%N) bs ->
  List.length (JS.chars (Sha256.hex bs)) = 2 * List.length bs /\
  Forall (fun ch => isLowerHex ch = true) (JS.chars (Sha256.hex bs)).
Proof.
  intros H. unfold Sha256.hex, JS.str, JS.chars.
  rewrite list_ascii_of_string_of_list_ascii.
  induction H as [|b r Hb Hr [IH1 IH2]]; cbn [flat_map List.length app];
    [split; [reflexivity|constructor]|].
  split; [rewrite IH1; lia|].
  constructor; [|constructor; [|exact IH2]]; apply hexDigit_lower.
  - apply N.Div0.div_lt_upper_bound. exact Hb.
  - apply N.mod_lt. discriminate.
Qed.

(** X8.  A node identifier is the tag of the kind, a colon, and exactly
    thirty-two lower-case hexadecimal digits, whatever the file path, the
    name and the line. *)
Theorem node_id_shape filePath kind name line :
  exists h,
    generateNodeId filePath kind name line = (kindTag kind ++ ":" ++ h)%string
    /\ String.length h = 32 /\
    Forall (fun ch => isLowerHex ch = true) (JS.chars h).
Proof.
  unfold generateNodeId. cbv zeta.
  set (key := (filePath ++ ":" ++ kindTag kind ++ ":" ++ name ++ ":" ++
               JS.ofZ line)%string). clearbody key.
  exists (JS.substring (Sha256.sha256hex key) 0 32).
  split; [reflexivity|].
  unfold JS.substring, Sha256.sha256hex.
  change (String.substring (Nat.min 0 32) (Nat.max 0 32 - Nat.min 0 32))
    with (String.substring 0 32).
  destruct (digest_bytes (Sha256.utf8 key)) as [L B].
  destruct (hex_chars _ B) as [HL HF]. rewrite L in HL.
  set (h := Sha256.hex _) in *. clearbody h.
  rewrite <- chars_length, chars_substring. split.
  - rewrite firstn_length_le; [reflexivity|]. rewrite HL. cbn. lia.
  - rewrite <- (firstn_skipn 32 (JS.chars h)) in HF.
    apply Forall_app in HF. apply HF.
Qed.

(* ===================================================================== *)
(** * Call references                                                      *)
(* ===================================================================== *)

(** From [s] to [s'] only the references [l] were added. *)
Definition addsRefs (l : list Ref.t) (s s' : State) : Prop :=
  s' = mkState (nodes s) (edges s) (unresolvedReferences s ++ l)
               (errors s) (nodeStack s) (ticks s).

Lemma addsRefs_nil (s : State) : addsRefs [] s s.
Proof. unfold addsRefs. rewrite app_nil_r. now destruct s. Qed.

Lemma addsRefs_trans (l1 l2 : list Ref.t) (s1 s2 s3 : State) :
  addsRefs l1 s1 s2 -> addsRefs l2 s2 s3 -> addsRefs (l1 ++ l2) s1 s3.
Proof.
  unfold addsRefs. intros -> ->. cbn. now rewrite app_assoc.
Qed.

Lemma addsRefs_stack (l : list Ref.t) (s s' : State) :
  addsRefs l s s' -> nodeStack s' = nodeStack s.
Proof. now intros ->. Qed.

(** A call reference attributed to the innermost scope of [stack]. *)
Definition callFrom (stack : list string) (r : Ref.t) : Prop :=
  JS.truthy (topOf stack) = true /\ Ref.fromNodeId r = topOf stack /\
  Ref.referenceKind r = RCalls /\ JS.truthy (Ref.referenceName r) = true.

Lemma extractCall_adds source node (s : State) :
  exists l, addsRefs l s (exec (extractCall source node) s) /\
            Forall (callFrom (nodeStack s)) l.
Proof.
  unfold extractCall, exec, bind, getStack. cbn [fst snd].
  destruct (Nat.eqb (List.length (nodeStack s)) 0);
    [exists []; split; [apply addsRefs_nil|constructor]|].
  destruct (JS.truthy (topOf (nodeStack s))) eqn:T; cbn [negb];
    [|exists []; split; [apply addsRefs_nil|constructor]].
  cbv zeta.
  match goal with
  | |- context [when (JS.truthy ?n) (pushRef ?r)] =>
      set (callee := n); set (ref := r)
  end.
  destruct (JS.truthy callee) eqn:C; cbn [when];
    [|exists []; split; [apply addsRefs_nil|constructor]].
  exists [ref]. split; [reflexivity|].
  constructor; [|constructor]. repeat split; assumption.
Qed.

Lemma forEach_adds {A} (Q : Ref.t -> Prop) (st : list string)
      (f : A -> M unit) (xs : list A) :
  (forall x s, In x xs -> nodeStack s = st ->
     exists l, addsRefs l s (exec (f x) s) /\ Forall Q l) ->
  forall s, nodeStack s = st ->
    exists l, addsRefs l s (exec (forEach xs f) s) /\ Forall Q l.
Proof.
  intros Hf. induction xs as [|x r IH]; intros s Hs.
  - exists []. split; [apply addsRefs_nil|constructor].
  - change (exec (forEach (x :: r) f) s)
      with (exec (forEach r f) (exec (f x) s)).
    destruct (Hf x s (or_introl eq_refl) Hs) as (l1 & A1 & Q1).
    destruct (IH (fun y s' Hy => Hf y s' (or_intror Hy)) (exec (f x) s))
      as (l2 & A2 & Q2);
      [rewrite (addsRefs_stack _ _ _ A1); exact Hs|].
    exists (l1 ++ l2). split; [eapply addsRefs_trans; eassumption|].
    apply Forall_app. split; assumption.
Qed.

Lemma visitForCalls_adds source fuel ex node (s : State) :
  exists l, addsRefs l s (exec (visitForCalls source fuel ex node) s) /\
            Forall (callFrom (nodeStack s)) l.
Proof.
  revert node s. induction fuel as [|f IH]; intros node s.
  - exists []. split; [apply addsRefs_nil|constructor].
  - change (exec (visitForCalls source (S f) ex node) s)
      with (exec (forEach (namedChildren node) (visitForCalls source f ex))
              (exec (when (includesType (callTypes ex) (nodeType node))
                          (extractCall source node)) s)).
    assert (exists l1,
               addsRefs l1 s
                 (exec (when (includesType (callTypes ex) (nodeType node))
                             (extractCall source node)) s) /\
               Forall (callFrom (nodeStack s)) l1) as (l1 & A1 & Q1).
    { destruct (includesType _ _); cbn [when];
        [apply extractCall_adds|].
      exists []. split; [apply addsRefs_nil|constructor]. }
    destruct (forEach_adds (callFrom (nodeStack s)) (nodeStack s)
                (visitForCalls source f ex) (namedChildren node))
      with (s := exec (when (includesType (callTypes ex) (nodeType node))
                            (extractCall source node)) s)
      as (l2 & A2 & Q2).
    + intros x s' _ Hs'. destruct (IH x s') as (l & Al & Ql).
      exists l. split; [exact Al|]. now rewrite Hs' in Ql.
    + apply (addsRefs_stack _ _ _ A1).
    + exists (l1 ++ l2). split; [eapply addsRefs_trans; eassumption|].
      apply Forall_app. split; assumption.
Qed.

(** X9.  [visitFunctionBody] only adds unresolved references, all of
    kind [calls] and with a name that is not empty, and it attributes
    them to the innermost scope on the stack, not to the identifier it
    is passed; with no scope on the stack it adds nothing. *)
Theorem call_references_from_scope source language body functionId s :
  exists l,
    addsRefs l s (exec (visitFunctionBody source language body functionId) s)
    /\ Forall (callFrom (nodeStack s)) l /\
    (nodeStack s = [] -> l = []).
Proof.
  assert (exists l,
             addsRefs l s
               (exec (visitFunctionBody source language body functionId) s)
             /\ Forall (callFrom (nodeStack s)) l) as (l & A & Q).
  { unfold visitFunctionBody, withExtractor.
    destruct (extractor language); [apply visitForCalls_adds|].
    exists []. split; [apply addsRefs_nil|constructor]. }
  exists l. split; [exact A|]. split; [exact Q|].
  intros E. destruct l as [|r l]; [reflexivity|].
  inversion Q as [|? ? (T & _) _]. rewrite E in T. discriminate T.
Qed.

(* ===================================================================== *)
(** * Inheritance references of Swift and Kotlin                           *)
(* ===================================================================== *)

Definition isNil {A} (l : list A) : bool :=
  match l with [] => true | _ :: _ => false end.

Section Heritage.

(** What the first reference of a declaration may be. *)
Variable F : Ref.t -> Prop.
Variable classId : string.

Definition implementsRef (r : Ref.t) : Prop :=
  Ref.fromNodeId r = classId /\ Ref.referenceKind r = RImplements.

(** The references a loop over the specifiers has added, [first] telling
    whether none had been added before it. *)
Definition heritage (first : bool) (l : list Ref.t) : Prop :=
  match l with
  | [] => True
  | r :: rest =>
      Ref.fromNodeId r = classId /\
      (if first then F r else Ref.referenceKind r = RImplements) /\
      Forall implementsRef rest
  end.

(** One turn of such a loop, which carries the flag [isFirst]. *)
Definition Turn {A} (f : bool -> A -> M bool) (x : A) : Prop :=
  forall b s, exists l,
    addsRefs l s (snd (f b x s)) /\ heritage b l /\
    fst (f b x s) = b && isNil l.

Lemma heritage_app (b : bool) (l1 l2 : list Ref.t) :
  heritage b l1 -> heritage (b && isNil l1) l2 -> heritage b (l1 ++ l2).
Proof.
  destruct l1 as [|r rest]; cbn [app isNil].
  - now rewrite andb_true_r.
  - rewrite andb_false_r. intros (H1 & H2 & H3) H4.
    split; [exact H1|]. split; [exact H2|].
    apply Forall_app. split; [exact H3|].
    destruct l2 as [|r2 rest2]; [constructor|].
    destruct H4 as (G1 & G2 & G3). constructor; [split; assumption|exact G3].
Qed.

Lemma isNil_app {A} (l1 l2 : list A) :
  isNil (l1 ++ l2) = isNil l1 && isNil l2.
Proof. now destruct l1. Qed.

Lemma Turn_skip (s : State) (b : bool) :
  exists l, addsRefs l s (snd (ret b s)) /\ heritage b l /\
            fst (ret b s) = b && isNil l.
Proof.
  exists []. split; [apply addsRefs_nil|]. split; [exact I|].
  cbn. now rewrite andb_true_r.
Qed.

Lemma foldM_heritage {A} (f : bool -> A -> M bool) (xs : list A) :
  (forall x, In x xs -> Turn f x) ->
  forall b s, exists l,
    addsRefs l s (snd (foldM xs b f s)) /\ heritage b l /\
    fst (foldM xs b f s) = b && isNil l.
Proof.
  induction xs as [|x r IH]; intros Hf b s.
  - apply Turn_skip.
  - change (foldM (x :: r) b f s)
      with (foldM r (fst (f b x s)) f (snd (f b x s))).
    destruct (Hf x (or_introl eq_refl) b s) as (l1 & A1 & H1 & E1).
    destruct (IH (fun y Hy => Hf y (or_intror Hy)) (fst (f b x s))
                 (snd (f b x s))) as (l2 & A2 & H2 & E2).
    exists (l1 ++ l2). split; [eapply addsRefs_trans; eassumption|].
    rewrite E1 in H2. split; [now apply heritage_app|].
    now rewrite E2, E1, isNil_app, andb_assoc.
Qed.

End Heritage.

Lemma extractSwiftInheritance_heritage source node classId s :
  exists l,
    addsRefs l s (exec (extractSwiftInheritance source node classId) s) /\
    heritage (fun r => Ref.referenceKind r = RExtends) classId true l.
Proof.
  unfold extractSwiftInheritance.
  match goal with
  | |- context [foldM ?xs true ?f] =>
      destruct (foldM_heritage (fun r => Ref.referenceKind r = RExtends)
                  classId f xs) with (b := true) (s := s)
        as (l & A & H & _)
  end.
  - intros child _ b s'. cbv beta.
    destruct (typeIs "inheritance_specifier" child);
      [|apply Turn_skip].
    apply foldM_heritage. intros specChild _ b' s''. cbv beta.
    destruct (typeIs "user_type" specChild);
      [|apply Turn_skip].
    eexists [_]. split; [reflexivity|]. split; [|now destruct b'].
    split; [reflexivity|]. split; [now destruct b'|constructor].
  - exists l. split; [exact A|exact H].
Qed.

(** X10.  [extractSwiftInheritance] only adds unresolved references, all
    of them from the declaration it is given; the first it adds is of
    kind [extends] and every later one of kind [implements], whatever
    the kind of the declaration. *)
Theorem swift_inheritance_kinds source node classId s :
  exists l,
    addsRefs l s (exec (extractSwiftInheritance source node classId) s) /\
    Forall (fun r => Ref.fromNodeId r = classId) l /\
    match l with
    | [] => True
    | r :: rest =>
        Ref.referenceKind r = RExtends /\
        Forall (fun r => Ref.referenceKind r = RImplements) rest
    end.
Proof.
  destruct (extractSwiftInheritance_heritage source node classId s)
    as (l & A & H).
  exists l. split; [exact A|]. destruct l as [|r rest]; [split; auto|].
  destruct H as (H1 & H2 & H3). split.
  - constructor; [exact H1|]. eapply Forall_impl; [|exact H3].
    intros a Ha. apply Ha.
  - split; [exact H2|]. eapply Forall_impl; [|exact H3].
    intros a Ha. apply Ha.
Qed.

Lemma extractKotlinInheritance_heritage source node classId s :
  exists l,
    addsRefs l s (exec (extractKotlinInheritance source node classId) s) /\
    heritage (fun r => Ref.referenceKind r = RExtends \/
                       Ref.referenceKind r = RImplements) classId true l.
Proof.
  unfold extractKotlinInheritance.
  match goal with
  | |- context [foldM ?xs true ?f] =>
      destruct (foldM_heritage
                  (fun r => Ref.referenceKind r = RExtends \/
                            Ref.referenceKind r = RImplements)
                  classId f xs) with (b := true) (s := s)
        as (l & A & H & _)
  end.
  - intros child _ b s'. cbv beta.
    destruct (typeIs "delegation_specifier" child);
      [|apply Turn_skip].
    apply foldM_heritage. intros specChild _ b' s''. cbv beta.
    destruct (typeIs "constructor_invocation" specChild).
    + destruct (find _ _); [|apply Turn_skip].
      eexists [_]. split; [reflexivity|]. split; [|now destruct b'].
      split; [reflexivity|]. split; [destruct b'; cbn; tauto|constructor].
    + destruct (typeIs "user_type" specChild);
        [|apply Turn_skip].
      eexists [_]. split; [reflexivity|]. split; [|now destruct b'].
      split; [reflexivity|]. split; [destruct b'; cbn; tauto|constructor].
  - exists l. split; [exact A|exact H].
Qed.

(** X11.  [extractKotlinInheritance] only adds unresolved references,
    all of them from the declaration it is given and of kind [extends]
    or [implements]; only the first it adds can be of kind [extends]. *)
Theorem kotlin_inheritance_kinds source node classId s :
  exists l,
    addsRefs l s (exec (extractKotlinInheritance source node classId) s) /\
    Forall (fun r => Ref.fromNodeId r = classId) l /\
    match l with
    | [] => True
    | r :: rest =>
        (Ref.referenceKind r = RExtends \/
         Ref.referenceKind r = RImplements) /\
        Forall (fun r => Ref.referenceKind r = RImplements) rest
    end.
Proof.
  destruct (extractKotlinInheritance_heritage source node classId s)
    as (l & A & H).
  exists l. split; [exact A|]. destruct l as [|r rest]; [split; auto|].
  destruct H as (H1 & H2 & H3). split.
  - constructor; [exact H1|]. eapply Forall_impl; [|exact H3].
    intros a Ha. apply Ha.
  - split; [exact H2|]. eapply Forall_impl; [|exact H3].
    intros a Ha. apply Ha.
Qed.

(* ===================================================================== *)
(** * Lines and columns of a Liquid template                               *)
(* ===================================================================== *)

Definition isNewline (ch : ascii) : bool := Ascii.eqb newline ch.

(** The line terminators among the first [i] characters. *)
Definition newlinesBefore (i : nat) (s : string) : nat :=
  List.length (filter isNewline (firstn i (JS.chars s))).

(** The characters of the first [k] lines, terminators included. *)
Definition lineStartOf (k : nat) (s : string) : nat :=
  fold_left (fun index l => index + String.length l + 1)
            (firstn k (JS.splitOn newline s)) 0.

Lemma getLineNumber_eq (source : string) (i : nat) :
  getLineNumber source i = newlinesBefore i source + 1.
Proof.
  unfold getLineNumber, newlinesBefore, JS.substring.
  rewrite Nat.min_0_l, Nat.max_0_l, Nat.sub_0_r, chars_substring.
  reflexivity.
Qed.

Lemma getLineStart_eq (source : string) (i : nat) :
  getLineStart source (getLineNumber source i) =
  lineStartOf (newlinesBefore i source) source.
Proof.
  rewrite getLineNumber_eq. unfold getLineStart, lineStartOf.
  now rewrite Nat.add_sub.
Qed.

Lemma fold_left_lengths (ls : list string) (a : nat) :
  fold_left (fun index l => index + String.length l + 1) ls a =
  a + fold_left (fun index l => index + String.length l + 1) ls 0.
Proof.
  revert a. induction ls as [|l r IH]; intros a; simpl; [lia|].
  rewrite (IH (a + String.length l + 1)), (IH (String.length l + 1)). lia.
Qed.

Lemma splitOn_cons (sep : ascii) (s : string) :
  exists l r, JS.splitOn sep s = l :: r.
Proof.
  induction s as [|ch s (l & r & IH)]; simpl; [eauto|].
  destruct (Ascii.eqb ch sep); [eauto|]. rewrite IH. eauto.
Qed.

Lemma newlinesBefore_mono (s : string) (i j : nat) :
  i <= j -> newlinesBefore i s <= newlinesBefore j s.
Proof.
  unfold newlinesBefore. generalize (JS.chars s) as l. intros l.
  revert i j. induction l as [|ch l IH]; intros [|i] [|j] H;
    cbn [firstn filter List.length]; try lia.
  assert (i <= j) as H' by lia. specialize (IH i j H').
  destruct (isNewline ch); cbn [List.length]; lia.
Qed.

Lemma newlinesBefore_lines (s : string) (i : nat) :
  newlinesBefore i s + 1 <= List.length (JS.splitOn newline s).
Proof.
  unfold newlinesBefore. revert i.
  induction s as [|ch s IH]; intros [|i]; cbn [JS.chars list_ascii_of_string
    firstn filter List.length JS.splitOn]; try lia.
  - destruct (Ascii.eqb ch newline); [cbn; lia|].
    destruct (splitOn_cons newline s) as (l & r & ->). cbn. lia.
  - specialize (IH i). change (isNewline ch) with (Ascii.eqb newline ch).
    rewrite Ascii.eqb_sym.
    destruct (Ascii.eqb ch newline); cbn [List.length].
    + unfold JS.chars in IH. lia.
    + destruct (splitOn_cons newline s) as (l & r & E). rewrite E in *.
      cbn [List.length] in *. unfold JS.chars in IH. lia.
Qed.

Lemma lineStartOf_le (s : string) (i : nat) :
  lineStartOf (newlinesBefore i s) s <= i.
Proof.
  unfold lineStartOf, newlinesBefore. revert i.
  induction s as [|ch s IH]; intros [|i]; cbn [JS.chars list_ascii_of_string
    firstn filter List.length JS.splitOn fold_left]; try lia.
  specialize (IH i). change (isNewline ch) with (Ascii.eqb newline ch).
  rewrite Ascii.eqb_sym.
  unfold JS.chars in IH.
  destruct (Ascii.eqb ch newline); cbn [List.length firstn fold_left].
  - rewrite fold_left_lengths. cbn [String.length]. lia.
  - destruct (splitOn_cons newline s) as (l & r & E). rewrite E in *.
    destruct (List.length (filter _ _)) as [|c]; cbn [firstn fold_left] in *;
      [lia|].
    rewrite fold_left_lengths in IH. rewrite fold_left_lengths.
    cbn [String.length]. lia.
Qed.

(** X12.  Line numbers are counted from one, never decrease along the
    source and never exceed the number of lines of the source. *)
Theorem line_numbers_monotone (source : string) (i j : nat) :
  i <= j ->
  1 <= getLineNumber source i /\
  getLineNumber source i <= getLineNumber source j /\
  getLineNumber source j <= List.length (JS.splitOn newline source).
Proof.
  intros H. rewrite !getLineNumber_eq.
  pose proof (newlinesBefore_mono source i j H).
  pose proof (newlinesBefore_lines source j). lia.
Qed.

Lemma line_numbers_monotone_witness :
  let source := String "a" (String newline (String "b" EmptyString)) in
  1 <= getLineNumber source 1 /\
  getLineNumber source 1 <= getLineNumber source 3 /\
  getLineNumber source 3 <= List.length (JS.splitOn newline source).
Proof.
  apply (line_numbers_monotone
           (String "a" (String newline (String "b" EmptyString))) 1 3).
  lia.
Defined.

Lemma columnAt_nonneg (source : string) (i : nat) :
  (0 <= columnAt source i (getLineNumber source i))%Z.
Proof.
  unfold columnAt. rewrite getLineStart_eq.
  pose proof (lineStartOf_le source i). lia.
Qed.

(** X13.  Every node of the result for a Liquid template starts on a line
    numbered from one and at a column that is not negative: the start of
    the line of a match is never beyond the match. *)
Theorem liquid_positions_in_range filePath source clock schemaNameOf :
  Forall (fun n => (1 <= Node.startLine n)%Z /\ (0 <= Node.startColumn n)%Z)
    (Result.nodes
       (LiquidExtractor_extract filePath source clock schemaNameOf)).
Proof.
  destruct (LiquidExtractor_extract_eq filePath source clock schemaNameOf)
    as (N & _). rewrite N. constructor; [split; cbn; lia|].
  unfold tagNodes. cbv zeta. rewrite !Forall_app.
  repeat split; apply Forall_stamped; intros m t;
    unfold snippetNode, sectionNode, schemaNode, assignNode, tagNode;
    cbn [Node.startLine Node.startColumn];
    (split; [rewrite getLineNumber_eq; lia|apply columnAt_nonneg]).
Qed.

(* ===================================================================== *)
(** * Documentation comments                                               *)
(* ===================================================================== *)

Lemma dropWhile_head (p : ascii -> bool) (l : list ascii) :
  match JS.dropWhile p l with [] => True | x :: _ => p x = false end.
Proof.
  induction l as [|x r IH]; simpl; [exact I|].
  destruct (p x) eqn:E; [exact IH|exact E].
Qed.

Lemma dropWhile_id (p : ascii -> bool) (l : list ascii) :
  match l with [] => True | x :: _ => p x = false end ->
  JS.dropWhile p l = l.
Proof. destruct l as [|x r]; simpl; [reflexivity|]. now intros ->. Qed.

Lemma dropWhile_snoc (p : ascii -> bool) (l : list ascii) (x : ascii) :
  p x = false -> exists u, JS.dropWhile p (l ++ [x]) = u ++ [x].
Proof.
  intros H. induction l as [|y r (u & IH)]; simpl.
  - rewrite H. now exists [].
  - destruct (p y); [now exists u|]. now exists (y :: r).
Qed.

Lemma trim_idempotent (s : string) : JS.trim (JS.trim s) = JS.trim s.
Proof.
  unfold JS.trim, JS.str, JS.chars.
  rewrite list_ascii_of_string_of_list_ascii.
  set (l := JS.dropWhile JS.isWhiteSpace (list_ascii_of_string s)).
  pose proof (dropWhile_head JS.isWhiteSpace (list_ascii_of_string s)) as H.
  fold l in H. clearbody l.
  set (r := JS.dropWhile JS.isWhiteSpace (rev l)).
  pose proof (dropWhile_head JS.isWhiteSpace (rev l)) as Hr. fold r in Hr.
  assert (Hh : match rev r with
               | [] => True
               | x :: _ => JS.isWhiteSpace x = false
               end).
  { destruct l as [|x t]; [exact I|].
    destruct (dropWhile_snoc JS.isWhiteSpace (rev t) x H) as (u & E).
    unfold r. cbn [rev]. rewrite E, rev_app_distr. exact H. }
  rewrite (dropWhile_id _ (rev r) Hh), rev_involutive.
  now rewrite (dropWhile_id _ r Hr).
Qed.

Lemma precedingComments_grows fuel sibling source (c : string)
      (cs : list string) :
  precedingComments fuel sibling source (c :: cs) <> [].
Proof.
  revert sibling c cs. induction fuel as [|f IH]; intros sibling c cs;
    cbn [precedingComments]; [discriminate|].
  destruct sibling as [sib|]; [|discriminate].
  destruct (isCommentType (nodeType sib)); [apply IH|discriminate].
Qed.

(** X14.  A node has a docstring exactly when its previous named sibling
    is a comment, and a docstring is trimmed: trimming it again changes
    nothing. *)
Theorem docstring_of_preceding_comment (node : SyntaxNode) (source : string) :
  (getPrecedingDocstring node source = None <->
   match previousNamedSibling node with
   | Some sib => isCommentType (nodeType sib) = false
   | None => True
   end) /\
  (forall d, getPrecedingDocstring node source = Some d -> JS.trim d = d).
Proof.
  unfold getPrecedingDocstring. cbv zeta. split.
  - cbn [precedingComments].
    destruct (previousNamedSibling node) as [sib|]; [|tauto].
    destruct (isCommentType (nodeType sib)); [|tauto].
    pose proof (precedingComments_grows (List.length (before node))
                  (previousNamedSibling sib) source
                  (getNodeText sib source) []) as G.
    destruct (precedingComments _ _ _ _); [congruence|].
    split; discriminate.
  - intros d. destruct (precedingComments _ _ _ _); [discriminate|].
    intros [= <-]. apply trim_idempotent.
Qed.

(* ===================================================================== *)
(** * One run of the walker, with its scope stack                          *)
(* ===================================================================== *)

(** The kinds of node the walker makes. *)
Definition okKind (kind : NodeKind) : Prop :=
  kind <> KFile /\ kind <> KVariable /\ kind <> KComponent /\
  kind <> KRoute.

(** The references the walker records: from a node known to have been
    created or from the innermost scope, and never of kind
    [references]. *)
Definition okRef (P stack : list string) (r : Ref.t) : Prop :=
  (In (Ref.fromNodeId r) P \/
   (stack <> [] /\ Ref.fromNodeId r = topOf stack)) /\
  Ref.referenceKind r <> RReferences.

Section Scoped.

Variables filePath source : string.
Variable language : Language.
Variable clock : nat -> Z.

(** [G P s] is what is known of the state; [P] lists identifiers of
    nodes known to have been created. *)
Variable G : list string -> State -> Prop.

Hypothesis G_weaken : forall P i s, G (i :: P) s -> G P s.
Hypothesis G_create : forall P kind name node extra s,
  okKind kind -> G P s ->
  let r := createNode filePath language clock kind name node extra s in
  G (Node.id (fst r) :: P) (snd r).
Hypothesis G_ref : forall P r s,
  okRef P (nodeStack s) r -> G P s -> G P (exec (pushRef r) s).
Hypothesis G_push : forall P i s,
  In i P -> G P s -> G P (exec (stackPush i) s).
Hypothesis G_pop : forall P s, G P s -> G P (exec stackPop s).

(** The computation keeps [G] and takes the scope stack from [st] to
    [st']. *)
Definition Run {A} (P st st' : list string) (m : M A) : Prop :=
  forall s, G P s -> nodeStack s = st ->
    G P (snd (m s)) /\ nodeStack (snd (m s)) = st'.

Lemma Run_ret {A} P st (a : A) : Run P st st (ret a).
Proof. intros s H E; split; assumption. Qed.

Lemma Run_bind {A B} P st st1 st2 (m : M A) (f : A -> M B) :
  Run P st st1 m -> (forall a, Run P st1 st2 (f a)) ->
  Run P st st2 (bind m f).
Proof.
  intros Hm Hf s H E. unfold bind. cbv zeta.
  destruct (Hm s H E) as [H' E']. apply Hf; assumption.
Qed.

Lemma Run_create {B} P st st' kind name node extra (f : Node.t -> M B) :
  okKind kind ->
  (forall n, Run (Node.id n :: P) st st' (f n)) ->
  Run P st st' (bind (createNode filePath language clock kind name node extra)
                     f).
Proof.
  intros Hk Hf s H E. unfold bind. cbv zeta.
  pose proof (G_create P kind name node extra s Hk H) as H'. cbv zeta in H'.
  destruct (createNode_run filePath language clock kind name node extra s)
    as (_ & _ & _ & _ & _ & _ & _ & _ & _ & _ & _ & ES & _).
  cbv zeta in ES.
  set (r := createNode filePath language clock kind name node extra s) in *.
  destruct (Hf (fst r) (snd r) H') as [H'' E''];
    [rewrite ES; exact E|].
  split; [eapply G_weaken; exact H''|exact E''].
Qed.

Lemma Run_getStack {B} P st st' (k : list string -> M B) :
  Run P st st' (k st) -> Run P st st' (bind getStack k).
Proof.
  intros Hk s H E. unfold bind, getStack. cbn [fst snd].
  rewrite E. apply Hk; assumption.
Qed.

Lemma Run_pushRef P st r : okRef P st r -> Run P st st (pushRef r).
Proof.
  intros Hr s H E. split; [|exact E].
  apply (G_ref P r s); [now rewrite E|exact H].
Qed.

Lemma Run_push P st i : In i P -> Run P st (st ++ [i]) (stackPush i).
Proof.
  intros Hi s H E. split; [now apply (G_push P i s)|].
  cbn. now rewrite E.
Qed.

Lemma Run_pop P st i : Run P (st ++ [i]) st stackPop.
Proof.
  intros s H E. split; [now apply (G_pop P s)|].
  cbn. rewrite E. apply removelast_last.
Qed.

Lemma Run_when P st b (m : M unit) :
  (b = true -> Run P st st m) -> Run P st st (when b m).
Proof. destruct b; simpl; [auto|intros _; apply Run_ret]. Qed.

Lemma Run_forEach {A} P st (l : list A) (f : A -> M unit) :
  (forall x, In x l -> Run P st st (f x)) -> Run P st st (forEach l f).
Proof.
  induction l as [|x r IH]; intros Hf; simpl; [apply Run_ret|].
  eapply Run_bind; [apply Hf; now left|].
  intros _. apply IH. intros y Hy. apply Hf. now right.
Qed.

Lemma Run_foldM {A B} P st (l : list A) (acc : B) (f : B -> A -> M B) :
  (forall b x, In x l -> Run P st st (f b x)) ->
  Run P st st (foldM l acc f).
Proof.
  revert acc. induction l as [|x r IH]; intros acc Hf; simpl;
    [apply Run_ret|].
  eapply Run_bind; [apply Hf; now left|].
  intros b. apply IH. intros b' y Hy. apply Hf. now right.
Qed.

(** The side conditions: the kind of a node, the source of a
    reference. *)
Ltac okkind :=
  try assumption;
  repeat match goal with
         | |- context [if ?b then _ else _] => destruct b
         end;
  unfold okKind; repeat split; discriminate.

Ltac nonempty :=
  let Z := fresh "Z" in
  intros Z; rewrite Z in *;
  cbn [List.length Nat.ltb Nat.leb Nat.eqb] in *;
  rewrite ?andb_false_r in *; discriminate.

Ltac okref :=
  split;
  [ first [ left; cbn [Ref.fromNodeId]; simpl; now auto
          | right; split; [nonempty|reflexivity] ]
  | cbn [Ref.referenceKind];
    repeat match goal with
           | |- context [if ?b then _ else _] => destruct b
           end;
    discriminate ].

Ltac run1 :=
  lazymatch goal with
  | |- Run _ _ _ (ret _) => apply Run_ret
  | |- Run _ _ _ (bind (createNode _ _ _ _ _ _ _) _) =>
      apply Run_create;
      [ okkind
      | let n := fresh "n" in
        intros n; generalize (Node.id n); clear n; intro ]
  | |- Run _ _ _ (bind getStack _) => apply Run_getStack; cbv beta
  | |- Run _ _ _ (bind _ _) => eapply Run_bind; [ | intro ]
  | |- Run _ _ _ (pushRef _) => apply Run_pushRef; okref
  | |- Run _ _ _ (stackPush _) => apply Run_push; simpl; now auto
  | |- Run _ _ _ stackPop => apply Run_pop
  | |- Run _ _ _ (when _ _) => apply Run_when; intro
  | |- Run _ _ _ (forEach _ _) => apply Run_forEach; intros ? ?
  | |- Run _ _ _ (foldM _ _ _) => apply Run_foldM; intros ? ? ?
  | |- Run _ _ _ (if ?b then _ else _) => destruct b eqn:?
  | |- Run _ _ _ (match ?x with _ => _ end) => destruct x eqn:?
  end.

Tactic Notation "run" "with" tactic3(leaf) :=
  cbv zeta; repeat (first [run1 | leaf]; cbv zeta).

Ltac run := run with fail.

(** ** Handlers that do not walk *)

Lemma Run_extractCall P st node : Run P st st (extractCall source node).
Proof. unfold extractCall. run. Qed.

Lemma Run_visitForCalls P st fuel ex node :
  Run P st st (visitForCalls source fuel ex node).
Proof.
  revert node. induction fuel as [|f IH]; intros node; simpl;
    run with
      (idtac;
       lazymatch goal with
       | |- Run _ _ _ (extractCall _ _) => apply Run_extractCall
       | |- Run _ _ _ (visitForCalls _ _ _ _) => apply IH
       end).
Qed.

Lemma Run_visitFunctionBody P st body i :
  Run P st st (visitFunctionBody source language body i).
Proof.
  unfold visitFunctionBody, withExtractor.
  run with (apply Run_visitForCalls).
Qed.

Lemma Run_extractImport P st node :
  Run P st st (extractImport source language node).
Proof. unfold extractImport. run. Qed.

Lemma Run_extractInheritance P st node i :
  In i P -> Run P st st (extractInheritance source node i).
Proof. intros Hi. unfold extractInheritance. run. Qed.

Lemma Run_extractKotlinInheritance P st node i :
  In i P -> Run P st st (extractKotlinInheritance source node i).
Proof. intros Hi. unfold extractKotlinInheritance. run. Qed.

Lemma Run_extractSwiftInheritance P st node i :
  In i P -> Run P st st (extractSwiftInheritance source node i).
Proof. intros Hi. unfold extractSwiftInheritance. run. Qed.

Lemma Run_extractFunction P st node :
  Run P st st (extractFunction filePath source language clock node).
Proof.
  unfold extractFunction, withExtractor.
  run with (apply Run_visitFunctionBody).
Qed.

Lemma Run_extractMethod P st node :
  Run P st st (extractMethod filePath source language clock node).
Proof.
  unfold extractMethod, withExtractor.
  run with
    (idtac;
     lazymatch goal with
     | |- Run _ _ _ (extractFunction _ _ _ _ _) => apply Run_extractFunction
     | |- Run _ _ _ (visitFunctionBody _ _ _ _) =>
         apply Run_visitFunctionBody
     end).
Qed.

Lemma Run_extractInterface P st node :
  Run P st st (extractInterface filePath source language clock node).
Proof. unfold extractInterface, withExtractor. run. Qed.

Lemma Run_extractEnum P st node :
  Run P st st (extractEnum filePath source language clock node).
Proof. unfold extractEnum, withExtractor. run. Qed.

Lemma Run_extractKotlinEnumEntry P st node :
  Run P st st (extractKotlinEnumEntry filePath source language clock node).
Proof. unfold extractKotlinEnumEntry, withExtractor. run. Qed.

Lemma Run_extractSwiftEnumCase P st node :
  Run P st st (extractSwiftEnumCase filePath source language clock node).
Proof. unfold extractSwiftEnumCase, withExtractor. run. Qed.

Lemma Run_extractKotlinProperty P st node :
  Run P st st (extractKotlinProperty filePath source language clock node).
Proof. unfold extractKotlinProperty, withExtractor. run. Qed.

Lemma Run_extractKotlinTypeAlias P st node :
  Run P st st (extractKotlinTypeAlias filePath source language clock node).
Proof. unfold extractKotlinTypeAlias, withExtractor. run. Qed.

Lemma Run_extractSwiftProperty P st node :
  Run P st st (extractSwiftProperty filePath source language clock node).
Proof. unfold extractSwiftProperty, withExtractor. run. Qed.

Lemma Run_extractSwiftSubscript P st node :
  Run P st st (extractSwiftSubscript filePath source language clock node).
Proof. unfold extractSwiftSubscript, withExtractor. run. Qed.

Lemma Run_extractSwiftTypealias P st node :
  Run P st st (extractSwiftTypealias filePath source language clock node).
Proof. unfold extractSwiftTypealias, withExtractor. run. Qed.

Lemma Run_extractSwiftAssociatedType P st node :
  Run P st st (extractSwiftAssociatedType filePath source language clock node).
Proof. unfold extractSwiftAssociatedType, withExtractor. run. Qed.

Lemma Run_extractSwiftProtocolProperty P st node :
  Run P st st
      (extractSwiftProtocolProperty filePath source language clock node).
Proof. unfold extractSwiftProtocolProperty, withExtractor. run. Qed.

Lemma Run_extractSwiftProtocolFunction P st node :
  Run P st st
      (extractSwiftProtocolFunction filePath source language clock node).
Proof. unfold extractSwiftProtocolFunction, withExtractor. run. Qed.

(** ** Handlers that walk into a body *)

Section RunWalk.

Variable visit : SyntaxNode -> M unit.
Hypothesis Run_visit : forall P st c, Run P st st (visit c).

Lemma Run_forEachMember P st node types (f : SyntaxNode -> M unit) :
  (forall b, Run P st st (f b)) -> Run P st st (forEachMember node types f).
Proof. intros Hf. unfold forEachMember. run with (apply Hf). Qed.

Ltac leaf :=
  idtac;
  lazymatch goal with
  | |- Run _ _ _ (visit _) => apply Run_visit
  | |- Run _ _ _ (forEachMember _ _ _) => apply Run_forEachMember; intro
  | |- Run _ _ _ (extractInheritance _ _ _) =>
      apply Run_extractInheritance; simpl; now auto
  | |- Run _ _ _ (extractKotlinInheritance _ _ _) =>
      apply Run_extractKotlinInheritance; simpl; now auto
  | |- Run _ _ _ (extractSwiftInheritance _ _ _) =>
      apply Run_extractSwiftInheritance; simpl; now auto
  | |- Run _ _ _ (extractKotlinEnumEntry _ _ _ _ _) =>
      apply Run_extractKotlinEnumEntry
  | |- Run _ _ _ (extractSwiftEnumCase _ _ _ _ _) =>
      apply Run_extractSwiftEnumCase
  | |- Run _ _ _ (extractSwiftProperty _ _ _ _ _) =>
      apply Run_extractSwiftProperty
  | |- Run _ _ _ (extractSwiftSubscript _ _ _ _ _) =>
      apply Run_extractSwiftSubscript
  | |- Run _ _ _ (extractSwiftTypealias _ _ _ _ _) =>
      apply Run_extractSwiftTypealias
  | |- Run _ _ _ (extractSwiftAssociatedType _ _ _ _ _) =>
      apply Run_extractSwiftAssociatedType
  | |- Run _ _ _ (extractSwiftProtocolProperty _ _ _ _ _) =>
      apply Run_extractSwiftProtocolProperty
  | |- Run _ _ _ (extractSwiftProtocolFunction _ _ _ _ _) =>
      apply Run_extractSwiftProtocolFunction
  end.

Lemma Run_extractClass P st node :
  Run P st st (extractClass filePath source language clock visit node).
Proof. unfold extractClass, withExtractor. run with leaf. Qed.

Lemma Run_extractStruct P st node :
  Run P st st (extractStruct filePath source language clock visit node).
Proof. unfold extractStruct, withExtractor. run with leaf. Qed.

Lemma Run_extractKotlinClass P st node :
  Run P st st (extractKotlinClass filePath source language clock visit node).
Proof. unfold extractKotlinClass, withExtractor. run with leaf. Qed.

Lemma Run_extractKotlinEnum P st node :
  Run P st st (extractKotlinEnum filePath source language clock visit node).
Proof. unfold extractKotlinEnum, withExtractor. run with leaf. Qed.

Lemma Run_extractKotlinObject P st node :
  Run P st st (extractKotlinObject filePath source language clock visit node).
Proof. unfold extractKotlinObject, withExtractor. run with leaf. Qed.

Lemma Run_extractKotlinCompanionObject P st node :
  Run P st st (extractKotlinCompanionObject filePath source language clock
                 visit node).
Proof. unfold extractKotlinCompanionObject, withExtractor. run with leaf. Qed.

Lemma Run_visitSwiftFunctionBody P st node :
  Run P st st (visitSwiftFunctionBody visit node).
Proof. unfold visitSwiftFunctionBody. run with leaf. Qed.

Lemma Run_extractSwiftInit P st node :
  Run P st st (extractSwiftInit filePath source language clock visit node).
Proof.
  unfold extractSwiftInit, withExtractor.
  run with (apply Run_visitSwiftFunctionBody).
Qed.

Lemma Run_extractSwiftDeinit P st node :
  Run P st st (extractSwiftDeinit filePath source language clock visit node).
Proof.
  unfold extractSwiftDeinit.
  run with (apply Run_visitSwiftFunctionBody).
Qed.

Lemma Run_visitSwiftClassBody P st node :
  Run P st st (visitSwiftClassBody filePath source language clock visit node).
Proof.
  unfold visitSwiftClassBody.
  run with
    (idtac;
     lazymatch goal with
     | |- Run _ _ _ (extractSwiftInit _ _ _ _ _ _) =>
         apply Run_extractSwiftInit
     | |- Run _ _ _ (extractSwiftDeinit _ _ _ _ _ _) =>
         apply Run_extractSwiftDeinit
     | |- _ => leaf
     end).
Qed.

Lemma Run_swiftDeclaration P st kind isAbstract node :
  okKind kind ->
  Run P st st (swiftDeclaration filePath source language clock visit kind
                 isAbstract node).
Proof.
  intros Hk. unfold swiftDeclaration, withExtractor.
  run with
    (idtac;
     lazymatch goal with
     | |- Run _ _ _ (visitSwiftClassBody _ _ _ _ _ _) =>
         apply Run_visitSwiftClassBody
     | |- _ => leaf
     end).
Qed.

Lemma Run_extractSwiftEnum P st node :
  Run P st st (extractSwiftEnum filePath source language clock visit node).
Proof. unfold extractSwiftEnum, withExtractor. run with leaf. Qed.

Lemma Run_extractSwiftClassDeclaration P st node :
  Run P st st (extractSwiftClassDeclaration filePath source language clock
                 visit node).
Proof.
  unfold extractSwiftClassDeclaration, extractSwiftExtension,
    extractSwiftActor, extractSwiftStruct, extractSwiftClass.
  run with
    (idtac;
     lazymatch goal with
     | |- Run _ _ _ (extractSwiftEnum _ _ _ _ _ _) =>
         apply Run_extractSwiftEnum
     | |- Run _ _ _ (swiftDeclaration _ _ _ _ _ _ _ _) =>
         apply Run_swiftDeclaration;
         unfold okKind; repeat split; discriminate
     end).
Qed.

Lemma Run_extractSwiftProtocol P st node :
  Run P st st (extractSwiftProtocol filePath source language clock visit
                 node).
Proof. unfold extractSwiftProtocol, withExtractor. run with leaf. Qed.

Lemma Run_dispatch P st ex node :
  Run P st st (dispatch filePath source language clock visit ex node).
Proof.
  unfold dispatch.
  run with
    (idtac;
     lazymatch goal with
     | |- Run _ _ _ (extractMethod _ _ _ _ _) => apply Run_extractMethod
     | |- Run _ _ _ (extractFunction _ _ _ _ _) => apply Run_extractFunction
     | |- Run _ _ _ (extractSwiftClassDeclaration _ _ _ _ _ _) =>
         apply Run_extractSwiftClassDeclaration
     | |- Run _ _ _ (extractInterface _ _ _ _ _) => apply Run_extractInterface
     | |- Run _ _ _ (extractKotlinEnum _ _ _ _ _ _) =>
         apply Run_extractKotlinEnum
     | |- Run _ _ _ (extractKotlinClass _ _ _ _ _ _) =>
         apply Run_extractKotlinClass
     | |- Run _ _ _ (extractKotlinObject _ _ _ _ _ _) =>
         apply Run_extractKotlinObject
     | |- Run _ _ _ (extractClass _ _ _ _ _ _) => apply Run_extractClass
     | |- Run _ _ _ (extractKotlinCompanionObject _ _ _ _ _ _) =>
         apply Run_extractKotlinCompanionObject
     | |- Run _ _ _ (extractKotlinProperty _ _ _ _ _) =>
         apply Run_extractKotlinProperty
     | |- Run _ _ _ (extractKotlinTypeAlias _ _ _ _ _) =>
         apply Run_extractKotlinTypeAlias
     | |- Run _ _ _ (extractSwiftInit _ _ _ _ _ _) =>
         apply Run_extractSwiftInit
     | |- Run _ _ _ (extractSwiftDeinit _ _ _ _ _ _) =>
         apply Run_extractSwiftDeinit
     | |- Run _ _ _ (extractSwiftProtocol _ _ _ _ _ _) =>
         apply Run_extractSwiftProtocol
     | |- Run _ _ _ (extractStruct _ _ _ _ _ _) => apply Run_extractStruct
     | |- Run _ _ _ (extractEnum _ _ _ _ _) => apply Run_extractEnum
     | |- Run _ _ _ (extractImport _ _ _) => apply Run_extractImport
     | |- Run _ _ _ (extractCall _ _) => apply Run_extractCall
     | |- _ => leaf
     end).
Qed.

Lemma Run_visitNodeBody P st node :
  Run P st st (visitNodeBody filePath source language clock visit node).
Proof.
  unfold visitNodeBody, withExtractor.
  run with
    (idtac;
     lazymatch goal with
     | |- Run _ _ _ (dispatch _ _ _ _ _ _ _) => apply Run_dispatch
     | |- _ => leaf
     end).
Qed.

End RunWalk.

(** The whole walk. *)
Lemma Run_visitNode fuel : forall P st node,
  Run P st st (visitNode filePath source language clock fuel node).
Proof.
  induction fuel as [|f IH]; intros P st node; simpl; [apply Run_ret|].
  apply Run_visitNodeBody. intros P' st' c. apply IH.
Qed.

End Scoped.

(* ===================================================================== *)
(** * The scope stack is restored                                          *)
(* ===================================================================== *)

(** X15.  The walk leaves the scope stack as it found it: every handler
    that pushes the identifier of the node it made pops it when it is
    done with the body. *)
Theorem walk_restores_scope_stack filePath source language clock fuel node
        s :
  nodeStack (exec (visitNode filePath source language clock fuel node) s) =
  nodeStack s.
Proof.
  apply (Run_visitNode filePath source language clock (fun _ _ => True)
           (fun _ _ _ _ => I) (fun _ _ _ _ _ _ _ _ => I)
           (fun _ _ _ _ _ => I) (fun _ _ _ _ _ => I) (fun _ _ _ => I)
           fuel [] (nodeStack s) node s I eq_refl).
Qed.

(* ===================================================================== *)
(** * What the walker emits                                                *)
(* ===================================================================== *)

Definition knownSource (ns : list Node.t) (r : Ref.t) : Prop :=
  In (Ref.fromNodeId r) (ids ns) /\ Ref.referenceKind r <> RReferences.

(** Nodes of the kinds of the walker, references that leave from emitted
    nodes, scopes that are emitted nodes. *)
Definition sound (s : State) : Prop :=
  Forall (fun n => okKind (Node.kind n)) (nodes s) /\
  Forall (knownSource (nodes s)) (unresolvedReferences s) /\
  Forall (fun i => In i (ids (nodes s))) (nodeStack s).

Definition Sound (P : list string) (s : State) : Prop :=
  sound s /\ Forall (fun i => In i (ids (nodes s))) P.

Lemma Sound_create filePath language clock P kind name node extra s :
  okKind kind -> Sound P s ->
  let r := createNode filePath language clock kind name node extra s in
  Sound (Node.id (fst r) :: P) (snd r).
Proof.
  intros Hk ((Hn & Hr & Hs) & HP). cbv zeta.
  destruct (createNode_run filePath language clock kind name node extra s)
    as (_ & Ek & _ & _ & _ & _ & _ & EN & _ & ER & _ & ES & _).
  set (r := createNode filePath language clock kind name node extra s) in *.
  cbv zeta in *.
  assert (G : forall i, In i (ids (nodes s)) -> In i (ids (nodes (snd r)))).
  { intros i Hi. rewrite EN, ids_app. auto using in_or_app. }
  split; [split; [|split]|].
  - rewrite EN. apply Forall_app. split; [exact Hn|].
    constructor; [|constructor]. now rewrite Ek.
  - rewrite ER. eapply Forall_impl; [|exact Hr].
    intros a [Ha Hk']. split; [apply G, Ha|exact Hk'].
  - rewrite ES. eapply Forall_impl; [|exact Hs]. exact G.
  - constructor.
    + rewrite EN, ids_app. apply in_or_app. right. now left.
    + eapply Forall_impl; [|exact HP]. exact G.
Qed.

Lemma visitNode_sound filePath source language clock fuel node s :
  sound s ->
  sound (exec (visitNode filePath source language clock fuel node) s).
Proof.
  intros H.
  apply (Run_visitNode filePath source language clock Sound) with
    (P := []) (st := nodeStack s); [| | | | |split; [exact H|constructor]
                                     |reflexivity].
  - intros P i s' [Hs HP]. split; [exact Hs|]. now inversion HP.
  - intros P kind name nd extra s'. apply Sound_create.
  - intros P r s' [Hf Hk] ((Hn & Hr & Hs) & HP).
    split; [split; [exact Hn|split; [|exact Hs]]|exact HP].
    cbn [exec pushRef snd unresolvedReferences nodes].
    apply Forall_app. split; [exact Hr|].
    constructor; [|constructor]. split; [|exact Hk].
    destruct Hf as [Hf | [Hne Ht]].
    + rewrite Forall_forall in HP. apply HP, Hf.
    + rewrite Forall_forall in Hs. apply Hs. rewrite Ht.
      apply last_In, Hne.
  - intros P i s' Hi ((Hn & Hr & Hs) & HP).
    split; [split; [exact Hn|split; [exact Hr|]]|exact HP].
    cbn [exec stackPush snd nodeStack nodes].
    apply Forall_app. split; [exact Hs|]. constructor; [|constructor].
    rewrite Forall_forall in HP. apply HP, Hi.
  - intros P s' ((Hn & Hr & Hs) & HP).
    split; [split; [exact Hn|split; [exact Hr|]]|exact HP].
    cbn [exec stackPop snd nodeStack nodes].
    rewrite Forall_forall in *. intros x Hx.
    apply Hs, removelast_incl, Hx.
Qed.

Lemma TreeSitter_result_sound detectLanguage isLanguageSupported getParser
      clock filePath source language :
  let r := TreeSitterExtractor_extract detectLanguage isLanguageSupported
             getParser clock filePath source language in
  Forall (fun n => okKind (Node.kind n)) (Result.nodes r) /\
  Forall (knownSource (Result.nodes r)) (Result.unresolvedReferences r).
Proof.
  cbv zeta.
  destruct (extract_cases detectLanguage isLanguageSupported getParser clock
              filePath source language)
    as [(root & s & Es & ->)|(message & ->)].
  - assert (H0 : sound started) by (repeat split; constructor).
    pose proof (visitNode_sound filePath source
                  (languageOr detectLanguage language filePath) clock
                  (S (height root)) (rootNode root) started H0)
      as (Hn & Hr & _).
    unfold visitTree in Es. rewrite <- Es in Hn, Hr.
    split; assumption.
  - split; constructor.
Qed.

(** X16.  Every unresolved reference of a result leaves from a node of
    that result: its [fromNodeId] is the identifier of an emitted
    node. *)
Theorem reference_sources_are_nodes detectLanguage isLanguageSupported
        getParser schemaNameOf clock filePath source language :
  let r := extractFromSource detectLanguage isLanguageSupported getParser
             schemaNameOf clock filePath source language in
  Forall (fun ref => In (Ref.fromNodeId ref) (ids (Result.nodes r)))
         (Result.unresolvedReferences r).
Proof.
  cbv zeta. unfold extractFromSource. destruct (Language_eqb _ Liquid).
  - destruct (LiquidExtractor_extract_eq filePath source clock schemaNameOf)
      as (N & _ & R & _). rewrite N, R.
    apply Forall_app. split; apply Forall_forall; intros ref Href;
      apply in_map_iff in Href as (m & <- & _); left; reflexivity.
  - eapply Forall_impl;
      [|apply (TreeSitter_result_sound detectLanguage isLanguageSupported
                 getParser clock filePath source (Some _))].
    intros ref H. apply H.
Qed.

(** X17.  For a language other than Liquid the result holds no node of
    kind [file], [variable], [component] or [route]: the walker makes
    no node for the file itself. *)
Theorem walker_node_kinds detectLanguage isLanguageSupported getParser
        schemaNameOf clock filePath source language :
  Language_eqb (languageOr detectLanguage language filePath) Liquid = false ->
  Forall (fun n => okKind (Node.kind n))
    (Result.nodes (extractFromSource detectLanguage isLanguageSupported
                     getParser schemaNameOf clock filePath source language)).
Proof.
  intros L. unfold extractFromSource. rewrite L.
  apply (TreeSitter_result_sound detectLanguage isLanguageSupported
           getParser clock filePath source (Some _)).
Qed.

Lemma walker_node_kinds_witness :
  Forall (fun n => okKind (Node.kind n))
    (Result.nodes
       (extractFromSource (fun _ => JavaScript) (fun _ => true)
          (fun _ => Some (fun _ => Parsed Examples.twoClassesTree))
          (fun _ => None) Examples.ticking "a.js" Examples.twoClassesSource
          None)).
Proof.
  apply (walker_node_kinds (fun _ => JavaScript) (fun _ => true)
           (fun _ => Some (fun _ => Parsed Examples.twoClassesTree))
           (fun _ => None) Examples.ticking "a.js" Examples.twoClassesSource
           None).
  reflexivity.
Defined.

(** X18.  For a language other than Liquid every unresolved reference is
    of kind [calls], [imports], [extends] or [implements]. *)
Theorem walker_reference_kinds detectLanguage isLanguageSupported getParser
        schemaNameOf clock filePath source language :
  Language_eqb (languageOr detectLanguage language filePath) Liquid = false ->
  Forall (fun ref => Ref.referenceKind ref = RCalls \/
                     Ref.referenceKind ref = RImports \/
                     Ref.referenceKind ref = RExtends \/
                     Ref.referenceKind ref = RImplements)
    (Result.unresolvedReferences
       (extractFromSource detectLanguage isLanguageSupported getParser
          schemaNameOf clock filePath source language)).
Proof.
  intros L. unfold extractFromSource. rewrite L.
  eapply Forall_impl;
    [|apply (TreeSitter_result_sound detectLanguage isLanguageSupported
               getParser clock filePath source (Some _))].
  intros ref [_ H]. destruct (Ref.referenceKind ref); tauto.
Qed.

Lemma walker_reference_kinds_witness :
  Forall (fun ref => Ref.referenceKind ref = RCalls \/
                     Ref.referenceKind ref = RImports \/
                     Ref.referenceKind ref = RExtends \/
                     Ref.referenceKind ref = RImplements)
    (Result.unresolvedReferences
       (extractFromSource (fun _ => Swift) (fun _ => true)
          (fun _ => Some (fun _ => Parsed Examples.swiftStructTree))
          (fun _ => None) Examples.ticking "User.swift"
          Examples.swiftStructSource None)).
Proof.
  apply (walker_reference_kinds (fun _ => Swift) (fun _ => true)
           (fun _ => Some (fun _ => Parsed Examples.swiftStructTree))
           (fun _ => None) Examples.ticking "User.swift"
           Examples.swiftStructSource None).
  reflexivity.
Defined.

(* ===================================================================== *)
(** * Qualified names                                                      *)
(* ===================================================================== *)








(* ===================================================================== *)
(** * The pattern of [render] tags on a tag written out                   *)
(* ===================================================================== *)

Module RegexFacts.
Import Regex.

(** The position reached by consuming the characters [l]. *)
Fixpoint eat (l : list ascii) (i : Input) : Input :=
  match l with
  | [] => i
  | ch :: r => eat r (mkInput (Some ch) (S (pos i)) (tl (rest i)) (caps i))
  end.

Lemma eat_fields (l : list ascii) : forall (i : Input) (t : list ascii),
  rest i = l ++ t ->
  rest (eat l i) = t /\ pos (eat l i) = pos i + List.length l /\
  caps (eat l i) = caps i.
Proof.
  induction l as [|ch r IH]; intros i t H; cbn [eat].
  - cbn. rewrite Nat.add_0_r. auto.
  - destruct (IH (mkInput (Some ch) (S (pos i)) (tl (rest i)) (caps i)) t)
      as (R & P & C); [cbn; now rewrite H|].
    rewrite R, P, C. cbn. repeat split. lia.
Qed.

Lemma eat_app (l1 l2 : list ascii) (i : Input) :
  eat (l1 ++ l2) i = eat l2 (eat l1 i).
Proof. revert i. induction l1 as [|ch r IH]; intros i; cbn; auto. Qed.

(** The next character, if any, is not in the class [p]. *)
Definition stops (p : ascii -> bool) (t : list ascii) : Prop :=
  match t with [] => True | ch :: _ => p ch = false end.

Lemma run_Chr_ok ml p i k ch t :
  rest i = ch :: t -> p ch = true -> run ml (Chr p) i k = k (eat [ch] i).
Proof. intros H Hp. cbn. now rewrite H, Hp. Qed.

Lemma run_Chr_stops ml p i k :
  stops p (rest i) -> run ml (Chr p) i k = None.
Proof. unfold stops. cbn. destruct (rest i); [auto|now intros ->]. Qed.

Lemma run_Lit_ok ml (s : string) : forall i k t,
  rest i = JS.chars s ++ t -> run ml (Lit s) i k = k (eat (JS.chars s) i).
Proof.
  induction s as [|ch s IH]; intros i k t H; [reflexivity|].
  cbn [Lit JS.chars list_ascii_of_string eat].
  change (run ml (Seq (Chr (Ascii.eqb ch)) (Lit s)) i k)
    with (run ml (Chr (Ascii.eqb ch)) i (fun i' => run ml (Lit s) i' k)).
  rewrite (run_Chr_ok ml _ i _ ch (JS.chars s ++ t) H (Ascii.eqb_refl ch)).
  cbn [eat]. apply (IH _ k t). cbn. now rewrite H.
Qed.

(** The loop of a greedy star, as [run] unfolds it. *)
Definition starIter (ml : bool) (r : re) (k : Input -> option Input)
  : nat -> Input -> option Input :=
  fix iter (fuel : nat) (i : Input) {struct fuel} : option Input :=
    match fuel with
    | O => k i
    | S f =>
        orElse (run ml r i (fun i' => if Nat.eqb (pos i') (pos i)
                                      then None else iter f i'))
               (k i)
    end.

Lemma starIter_ok ml p k e (l : list ascii) : forall fuel i t,
  List.length l < fuel -> rest i = l ++ t ->
  Forall (fun ch => p ch = true) l -> stops p t ->
  k (eat l i) = Some e -> starIter ml (Chr p) k fuel i = Some e.
Proof.
  induction l as [|ch r IH]; intros fuel i t Hf H Hl Ht Hk;
    destruct fuel as [|f]; try (cbn in Hf; lia); cbn [starIter].
  - rewrite run_Chr_stops; [exact Hk|]. now rewrite H.
  - inversion Hl as [|? ? Hc Hr]; subst.
    rewrite (run_Chr_ok ml p i _ ch (r ++ t) H Hc). cbn [eat pos].
    rewrite (proj2 (Nat.eqb_neq _ _) (Nat.neq_succ_diag_l (pos i))).
    fold (starIter ml (Chr p) k).
    rewrite (IH f _ t); [reflexivity| | | | |].
    + cbn in Hf. lia.
    + cbn. now rewrite H.
    + exact Hr.
    + exact Ht.
    + exact Hk.
Qed.

Lemma run_Star_ok ml p k e (l : list ascii) i t :
  rest i = l ++ t -> Forall (fun ch => p ch = true) l -> stops p t ->
  k (eat l i) = Some e -> run ml (Star (Chr p)) i k = Some e.
Proof.
  intros H Hl Ht Hk.
  change (run ml (Star (Chr p)) i k)
    with (starIter ml (Chr p) k (S (List.length (rest i))) i).
  apply (starIter_ok ml p k e l _ i t); try assumption.
  rewrite H, length_app. lia.
Qed.

Lemma run_Plus_ok ml p k e (l : list ascii) i t :
  l <> [] -> rest i = l ++ t -> Forall (fun ch => p ch = true) l ->
  stops p t -> k (eat l i) = Some e ->
  run ml (Plus (Chr p)) i k = Some e.
Proof.
  intros Hn H Hl Ht Hk. destruct l as [|ch r]; [congruence|].
  inversion Hl as [|? ? Hc Hr]; subst.
  change (run ml (Plus (Chr p)) i k)
    with (run ml (Chr p) i (fun i' => run ml (Star (Chr p)) i' k)).
  rewrite (run_Chr_ok ml p i _ ch (r ++ t) H Hc).
  apply (run_Star_ok ml p k e r _ t); try assumption.
  cbn. now rewrite H.
Qed.

Lemma run_Opt_skip ml p i k :
  stops p (rest i) -> run ml (Opt (Chr p)) i k = k i.
Proof.
  intros H. change (run ml (Opt (Chr p)) i k)
    with (orElse (run ml (Chr p) i k) (k i)).
  now rewrite run_Chr_stops.
Qed.

End RegexFacts.

Section RenderTag.

Import Regex RegexFacts LiquidPatterns.

(** A tag written out: white space [ws1], the word [tag], white space
    [ws2], the [name] between the quotes [q1] and [q2]. *)
Variables ws1 ws2 : list ascii.
Variables tag name : string.
Variables q1 q2 : ascii.

Hypothesis ws1_space : Forall (fun ch => space ch = true) ws1.
Hypothesis tag_word : tag = "render" \/ tag = "include".
Hypothesis ws2_some : ws2 <> [].
Hypothesis ws2_space : Forall (fun ch => space ch = true) ws2.
Hypothesis q1_quote : isQuote q1 = true.
Hypothesis name_some : name <> EmptyString.
Hypothesis name_plain : Forall (fun ch => notQuote ch = true) (JS.chars name).
Hypothesis q2_quote : isQuote q2 = true.

Definition tagText : list ascii :=
  JS.chars "{%" ++ ws1 ++ JS.chars tag ++ ws2 ++
  q1 :: JS.chars name ++ [q2].

Ltac seq :=
  lazymatch goal with
  | |- run ?ml (Seq ?a ?b) ?i ?k = _ =>
      change (run ml (Seq a b) i k)
        with (run ml a i (fun i' => run ml b i' k))
  end.

Ltac grp :=
  lazymatch goal with
  | |- run ?ml (Group ?n ?r) ?i ?k = _ =>
      change (run ml (Group n r) i k)
        with (run ml r i (fun i' =>
                k (mkInput (prev i') (pos i') (rest i')
                     ((n, JS.str (firstn (pos i' - pos i) (rest i)))
                      :: caps i'))))
  end.

Lemma quote_not_space (ch : ascii) : isQuote ch = true -> space ch = false.
Proof.
  unfold isQuote. intros H. apply orb_true_iff in H as [H|H];
    apply Ascii.eqb_eq in H; subst; reflexivity.
Qed.

Lemma firstn_exact {A} (l t : list A) :
  firstn (List.length l) (l ++ t) = l.
Proof.
  rewrite firstn_app, Nat.sub_diag, firstn_all. cbn. apply app_nil_r.
Qed.

(** From the white space after the word of the tag on. *)
Lemma quoted_name_run (j : Input) (post : list ascii) :
  rest j = ws2 ++ q1 :: JS.chars name ++ q2 :: post ->
  exists e,
    run false (Cat ([Plus (Chr space)] ++ quoted 2)) j Some = Some e /\
    caps e = (2, name) :: caps j /\
    pos e = pos j + List.length ws2 + 1 + String.length name + 1 /\
    rest e = post.
Proof.
  intros H. unfold quoted. cbn [app Cat].
  destruct (eat_fields ws2 j _ H) as (R1 & P1 & C1).
  destruct (eat_fields [q1] (eat ws2 j) _ R1) as (R2 & P2 & C2).
  destruct (eat_fields (JS.chars name) (eat [q1] (eat ws2 j)) _ R2)
    as (R3 & P3 & C3).
  set (j2 := eat [q1] (eat ws2 j)) in *.
  set (j3 := eat (JS.chars name) j2) in *.
  set (j4 := mkInput (prev j3) (pos j3) (rest j3)
               ((2, JS.str (firstn (pos j3 - pos j2) (rest j2)))
                :: caps j3)).
  exists (eat [q2] j4). split; [|split; [|split]].
  - seq. apply (run_Plus_ok false space _ _ ws2 j
                  (q1 :: JS.chars name ++ q2 :: post));
      [exact ws2_some|exact H|exact ws2_space
      |apply quote_not_space, q1_quote|].
    seq. rewrite (run_Chr_ok false isQuote (eat ws2 j) _ q1 _ R1 q1_quote).
    fold j2. seq. grp.
    apply (run_Plus_ok false notQuote _ _ (JS.chars name) j2 (q2 :: post));
      [destruct name; [congruence|discriminate]|exact R2|exact name_plain
      |unfold stops, notQuote; now rewrite q2_quote|].
    fold j3. fold j4. seq.
    rewrite (run_Chr_ok false isQuote j4 _ q2 post R3 q2_quote).
    reflexivity.
  - cbn [eat caps j4]. rewrite R2, P3, C3, C2, C1.
    replace (pos j2 + List.length (JS.chars name) - pos j2)
      with (List.length (JS.chars name)) by lia.
    rewrite firstn_exact. unfold JS.str, JS.chars.
    now rewrite string_of_list_ascii_of_string.
  - cbn [eat pos j4]. rewrite P3, P2, P1, chars_length. cbn. lia.
  - cbn [eat rest j4 tl]. now rewrite R3.
Qed.

Ltac alt :=
  lazymatch goal with
  | |- run ?ml (Alt ?a ?b) ?i ?k = _ =>
      change (run ml (Alt a b) i k)
        with (orElse (run ml a i k) (run ml b i k))
  end.

Lemma tag_not_space (t : list ascii) : stops space (JS.chars tag ++ t).
Proof. destruct tag_word as [-> | ->]; reflexivity. Qed.

Lemma tag_not_dash (t : list ascii) :
  stops (lit "-") (ws1 ++ JS.chars tag ++ t).
Proof.
  destruct ws1 as [|ch w]; [destruct tag_word as [-> | ->]; reflexivity|].
  inversion ws1_space as [|? ? Hc _]; subst. unfold stops, lit. cbn [app].
  destruct (Ascii.eqb_spec "-"%char ch) as [<-|]; [discriminate|reflexivity].
Qed.

(** The whole pattern, from the opening of the tag. *)
Lemma renderRegex_run (i : Input) (post : list ascii) :
  rest i = JS.chars "{%" ++ ws1 ++ JS.chars tag ++ ws2 ++
           q1 :: JS.chars name ++ q2 :: post ->
  exists e,
    run false renderRegex i Some = Some e /\
    caps e = (2, name) :: (1, tag) :: caps i /\
    pos e = pos i + List.length tagText /\
    rest e = post.
Proof.
  intros H. unfold renderRegex, tagOpen.
  destruct (eat_fields (JS.chars "{%") i _ H) as (R1 & P1 & C1).
  destruct (eat_fields ws1 (eat (JS.chars "{%") i) _ R1) as (R2 & P2 & C2).
  set (i2 := eat ws1 (eat (JS.chars "{%") i)) in *.
  destruct (eat_fields (JS.chars tag) i2 _ R2) as (R3 & P3 & C3).
  set (i3 := eat (JS.chars tag) i2) in *.
  set (i4 := mkInput (prev i3) (pos i3) (rest i3)
               ((1, JS.str (firstn (pos i3 - pos i2) (rest i2)))
                :: caps i3)).
  destruct (quoted_name_run i4 post R3) as (e & E & Ce & Pe & Re).
  unfold quoted in *. cbn [app Cat] in *.
  exists e. split; [|split; [|split]].
  - seq. rewrite (run_Lit_ok false "{%" i _ _ H).
    seq. rewrite run_Opt_skip by (rewrite R1; apply tag_not_dash).
    seq. apply (run_Star_ok false space _ _ ws1 _ _ R1 ws1_space
                  (tag_not_space _)).
    fold i2. seq. grp. alt.
    destruct tag_word as [T | T].
    + assert (R2' : rest i2 = JS.chars "render" ++ ws2 ++
                               q1 :: JS.chars name ++ q2 :: post)
        by (now rewrite R2, T).
      rewrite (run_Lit_ok false "render" i2 _ _ R2').
      replace (eat (JS.chars "render") i2) with i3
        by (unfold i3; now rewrite T).
      fold i4. now rewrite E.
    + assert (N : run false (Lit "render") i2
                    (fun i' =>
                       run false
                         (Seq (Plus (Chr space))
                            (Seq (Chr isQuote)
                               (Seq (Group 2 (Plus (Chr notQuote)))
                                  (Seq (Chr isQuote) Eps))))
                         (mkInput (prev i') (pos i') (rest i')
                            ((1, JS.str (firstn (pos i' - pos i2) (rest i2)))
                             :: caps i')) Some) = None).
      { cbn [Lit]. seq. apply run_Chr_stops. rewrite R2, T. reflexivity. }
      rewrite N. cbn [orElse].
      assert (R2' : rest i2 = JS.chars "include" ++ ws2 ++
                               q1 :: JS.chars name ++ q2 :: post)
        by (now rewrite R2, T).
      rewrite (run_Lit_ok false "include" i2 _ _ R2').
      replace (eat (JS.chars "include") i2) with i3
        by (unfold i3; now rewrite T).
      fold i4. exact E.
  - rewrite Ce. cbn [caps i4]. rewrite R2, P3, C3, C2, C1.
    replace (pos i2 + List.length (JS.chars tag) - pos i2)
      with (List.length (JS.chars tag)) by lia.
    rewrite firstn_exact. unfold JS.str, JS.chars.
    now rewrite string_of_list_ascii_of_string.
  - rewrite Pe. cbn [pos i4]. rewrite P3, P2, P1. unfold tagText.
    rewrite !length_app, !chars_length. cbn [List.length].
    rewrite length_app, chars_length. cbn. lia.
  - exact Re.
Qed.

(** The text before the tag holds no opening brace, so that no match
    starts in it. *)
Variables pre post : list ascii.
Variable source : string.

Hypothesis pre_plain : Forall (fun ch => ch <> "{"%char) pre.
Hypothesis source_text : JS.chars source = pre ++ tagText ++ post.

Lemma matchAt_none (i : Input) (ch : ascii) (t : list ascii) :
  rest i = ch :: t -> ch <> "{"%char -> matchAt false renderRegex i = None.
Proof.
  intros H N. unfold matchAt.
  assert (E : run false renderRegex
                (mkInput (prev i) (pos i) (rest i) []) Some = None).
  { unfold renderRegex, tagOpen. cbn [app Cat]. seq. cbn [Lit]. seq.
    apply run_Chr_stops. cbn [rest]. rewrite H. unfold stops.
    destruct (Ascii.eqb_spec "{"%char ch); [congruence|reflexivity]. }
  now rewrite E.
Qed.

Lemma exec_skip (l : list ascii) : forall (fuel : nat) (i : Input)
                                          (t : list ascii),
  rest i = l ++ t -> Forall (fun ch => ch <> "{"%char) l ->
  List.length l <= fuel ->
  exec fuel false renderRegex i =
  exec (fuel - List.length l) false renderRegex (eat l i).
Proof.
  induction l as [|ch r IH]; intros fuel i t H Hl Hf.
  - cbn. now rewrite Nat.sub_0_r.
  - inversion Hl as [|? ? Hc Hr]; subst.
    destruct fuel as [|f]; [cbn in Hf; lia|].
    cbn [exec eat List.length Nat.sub].
    rewrite (matchAt_none i ch (r ++ t) H Hc).
    unfold advance. rewrite H. cbn [app tl].
    apply (IH f _ t); [reflexivity|exact Hr|cbn in Hf; lia].
Qed.

Lemma exec_at_tag (fuel : nat) (i : Input) :
  rest i = tagText ++ post ->
  exists m,
    exec fuel false renderRegex i = Some m /\ index m = pos i /\
    group 1 m = tag /\ group 2 m = name /\
    pos (next m) = pos i + List.length tagText.
Proof.
  intros H.
  destruct (renderRegex_run (mkInput (prev i) (pos i) (rest i) []) post)
    as (e & E & Ce & Pe & _).
  { cbn [rest]. rewrite H. unfold tagText.
    rewrite <- !app_assoc. cbn [app]. now rewrite <- !app_assoc. }
  exists (mkMatch (pos i) (JS.str (firstn (pos e - pos i) (rest i)))
                  (caps e) e).
  split; [|split; [reflexivity|split; [|split]]].
  - destruct fuel; cbn [exec]; unfold matchAt; now rewrite E.
  - unfold group. cbn [groups]. now rewrite Ce.
  - unfold group. cbn [groups]. now rewrite Ce.
  - exact Pe.
Qed.

Lemma tagText_length : 0 < List.length tagText.
Proof. unfold tagText. rewrite length_app. cbn. lia. Qed.

(** The first match of the pattern in the source is the tag. *)
Lemma renders_first :
  exists m ms,
    renders source = m :: ms /\ index m = List.length pre /\
    group 1 m = tag /\ group 2 m = name.
Proof.
  unfold renders, matchAll, start. cbn [scan rest].
  rewrite (exec_skip pre (List.length (JS.chars source))
             (mkInput None 0 (JS.chars source) []) (tagText ++ post)
             source_text pre_plain)
    by (rewrite source_text, length_app; lia).
  destruct (eat_fields pre (mkInput None 0 (JS.chars source) [])
              (tagText ++ post) source_text) as (R & P & _).
  destruct (exec_at_tag
              (List.length (JS.chars source) - List.length pre)
              (eat pre (mkInput None 0 (JS.chars source) [])) R)
    as (m & E & I & G1 & G2 & N).
  rewrite E. rewrite P in N, I. cbn [pos] in N, I.
  pose proof tagText_length as L.
  destruct (Nat.eqb_spec (pos (next m)) (index m)) as [Q|_]; [lia|].
  exists m. eexists. split; [reflexivity|]. rewrite I. auto.
Qed.

End RenderTag.

(** X20.  When the first opening brace of a Liquid template opens a tag
    [render] or [include] with a quoted name that is not empty and holds
    no quote, the first node after the file node is a component of that
    name, on the line of the tag, and the first unresolved reference
    names [snippets/] name [.liquid].  The white space in the tag is
    free, and so are the two quotes, which need not be the same. *)
Theorem first_render_tag filePath source clock schemaNameOf
        (pre ws1 ws2 post : list ascii) (tag name : string) (q1 q2 : ascii) :
  Forall (fun ch => ch <> "{"%char) pre ->
  Forall (fun ch => Regex.space ch = true) ws1 ->
  tag = "render" \/ tag = "include" ->
  ws2 <> [] ->
  Forall (fun ch => Regex.space ch = true) ws2 ->
  Regex.isQuote q1 = true ->
  name <> EmptyString ->
  Forall (fun ch => LiquidPatterns.notQuote ch = true) (JS.chars name) ->
  Regex.isQuote q2 = true ->
  JS.chars source = pre ++ tagText ws1 ws2 tag name q1 q2 ++ post ->
  let r := LiquidExtractor_extract filePath source clock schemaNameOf in
  exists file n ns ref refs,
    Result.nodes r = file :: n :: ns /\
    Node.kind n = KComponent /\ Node.name n = name /\
    Node.startLine n = Z.of_nat (getLineNumber source (List.length pre)) /\
    Result.unresolvedReferences r = ref :: refs /\
    Ref.referenceName ref = ("snippets/" ++ name ++ ".liquid")%string.
Proof.
  intros Hpre Hws1 Htag Hws2 Hws2s Hq1 Hname Hplain Hq2 Hsrc. cbv zeta.
  destruct (renders_first ws1 ws2 tag name q1 q2 Hws1 Htag Hws2 Hws2s Hq1
              Hname Hplain Hq2 pre post source Hpre Hsrc)
    as (m & ms & E & I & _ & G2).
  destruct (LiquidExtractor_extract_eq filePath source clock schemaNameOf)
    as (N & _ & R & _).
  rewrite N, R. unfold tagNodes. cbv zeta. rewrite E.
  cbn [stamped map app].
  do 5 eexists. split; [reflexivity|].
  unfold snippetNode, tagNode, snippetRef.
  cbn [Node.kind Node.name Node.startLine Ref.referenceName].
  rewrite G2, I. repeat split.
Qed.

Lemma first_render_tag_witness :
  let r := LiquidExtractor_extract "card.liquid"
             "<p>{%  include 'price' %}</p>" Examples.ticking
             (fun _ => None) in
  exists file n ns ref refs,
    Result.nodes r = file :: n :: ns /\
    Node.kind n = KComponent /\ Node.name n = "price" /\
    Node.startLine n =
      Z.of_nat (getLineNumber "<p>{%  include 'price' %}</p>" 3) /\
    Result.unresolvedReferences r = ref :: refs /\
    Ref.referenceName ref = "snippets/price.liquid".
Proof.
  apply (first_render_tag "card.liquid" "<p>{%  include 'price' %}</p>"
           Examples.ticking (fun _ => None)
           (JS.chars "<p>") (JS.chars "  ") (JS.chars " ") (JS.chars " %}</p>")
           "include" "price" Regex.squote Regex.squote).
  - repeat constructor; discriminate.
  - repeat constructor.
  - right. reflexivity.
  - discriminate.
  - repeat constructor.
  - reflexivity.
  - discriminate.
  - repeat constructor.
  - reflexivity.
  - reflexivity.
Defined.

(* ===================================================================== *)
(** * Quotes stripped from module names                                    *)
(* ===================================================================== *)

Lemma str_app (a b : list ascii) :
  JS.str (a ++ b) = (JS.str a ++ JS.str b)%string.
Proof. induction a as [|ch a IH]; cbn; [reflexivity|]. now f_equal. Qed.






Section ReplaceClass.

Import Regex RegexFacts.

Variable ml : bool.
Variable p : ascii -> bool.







End ReplaceClass.





(* ===================================================================== *)
(** * The feature-request heuristic of the tool handler ([mcp/tools])     *)
(* ===================================================================== *)

Module Tools.

(** [toLowerCase] on the code units below 256: the letters A to Z and
    the capital letters of Latin-1, the multiplication sign apart. *)
Definition lowerChar (ch : ascii) : ascii :=
  let n := JS.code ch in
  if (Nat.leb 65 n && Nat.leb n 90) ||
     (Nat.leb 192 n && Nat.leb n 222 && negb (Nat.eqb n 215))
  then ascii_of_nat (n + 32) else ch.

Definition toLowerCase (s : string) : string :=
  JS.str (map lowerChar (JS.chars s)).

Definition featureKeywords : list string :=
  ["add"; "create"; "implement"; "build"; "enable"; "allow";
   "new feature"; "support for"; "ability to"; "want to";
   "should be able"; "need to add"; "swap"; "edit"; "modify"].

Definition bugKeywords : list string :=
  ["fix"; "bug"; "error"; "broken"; "crash"; "issue"; "problem";
   "not working"; "fails"; "undefined"; "null"].

Definition explorationKeywords : list string :=
  ["how does"; "where is"; "what is"; "find"; "show me";
   "explain"; "understand"; "explore"].

(** [looksLikeFeatureRequest(task)] *)
Definition looksLikeFeatureRequest (task : string) : bool :=
  let lowerTask := toLowerCase task in
  if existsb (JS.includes lowerTask) bugKeywords then false
  else if existsb (JS.includes lowerTask) explorationKeywords then false
  else existsb (JS.includes lowerTask) featureKeywords.

End Tools.

Lemma chars_append (a b : string) :
  JS.chars (a ++ b) = JS.chars a ++ JS.chars b.
Proof. induction a as [|ch a IH]; cbn; [reflexivity|]. now f_equal. Qed.

Lemma toLowerCase_append (a b : string) :
  Tools.toLowerCase (a ++ b) =
  (Tools.toLowerCase a ++ Tools.toLowerCase b)%string.
Proof.
  unfold Tools.toLowerCase. now rewrite chars_append, map_app, str_app.
Qed.

Lemma startsWith_append (p s b : string) :
  JS.startsWith p s = true -> JS.startsWith p (s ++ b) = true.
Proof.
  revert s. induction p as [|ch p IH]; intros [|c s]; cbn; try congruence.
  intros H. apply andb_true_iff in H as [H1 H2].
  now rewrite H1, (IH s H2).
Qed.

Lemma includes_append_r (s b p : string) :
  JS.includes s p = true -> JS.includes (s ++ b) p = true.
Proof.
  induction s as [|c s IH]; cbn [JS.includes]; intros H.
  - rewrite orb_false_r in H. destruct p; [|discriminate H].
    destruct b; reflexivity.
  - apply orb_true_iff in H as [H|H].
    + pose proof (startsWith_append p (String c s) b H) as E.
      cbn [String.append] in *. cbn [JS.includes]. now rewrite E.
    + cbn [String.append JS.includes]. rewrite (IH H). apply orb_true_r.
Qed.

Lemma includes_append_l (a s p : string) :
  JS.includes s p = true -> JS.includes (a ++ s) p = true.
Proof.
  intros H. induction a as [|c a IH]; [exact H|].
  cbn [String.append JS.includes]. rewrite IH. apply orb_true_r.
Qed.

Lemma existsb_includes_context (ks : list string) (a s b : string) :
  existsb (JS.includes s) ks = true ->
  existsb (JS.includes (a ++ s ++ b)) ks = true.
Proof.
  intros H. apply existsb_exists in H as (k & Hk & Hi).
  apply existsb_exists. exists k. split; [exact Hk|].
  apply includes_append_l, includes_append_r, Hi.
Qed.

(** X22.  A task that mentions a bug keyword or an exploration keyword
    anywhere, in any letter case and even inside a longer word, is never
    taken for a feature request, whatever else it says. *)
Theorem bug_or_exploration_never_feature (before task after : string) :
  existsb (JS.includes (Tools.toLowerCase task))
          (Tools.bugKeywords ++ Tools.explorationKeywords) = true ->
  Tools.looksLikeFeatureRequest (before ++ task ++ after) = false.
Proof.
  intros H. rewrite existsb_app in H. unfold Tools.looksLikeFeatureRequest.
  cbv zeta. rewrite !toLowerCase_append.
  apply orb_true_iff in H as [H|H].
  - now rewrite (existsb_includes_context _ _ _ _ H).
  - rewrite (existsb_includes_context _ _ _ _ H).
    now destruct (existsb _ Tools.bugKeywords).
Qed.

Lemma bug_or_exploration_never_feature_witness :
  Tools.looksLikeFeatureRequest "Add a preFIX option" = false.
Proof.
  apply (bug_or_exploration_never_feature "Add a pre" "FIX" " option").
  reflexivity.
Defined.

(* ===================================================================== *)
(** * Counting edges                                                       *)
(* ===================================================================== *)

Lemma Linked_count (ns : list Node.t) (es : list Edge.t) :
  Linked ns es -> List.length es <= List.length ns - 1.
Proof.
  induction 1 as [|ns es n L IH|ns es n src L IH Hs].
  - cbn. lia.
  - rewrite length_app. cbn. lia.
  - rewrite !length_app. cbn.
    destruct ns as [|x r]; [destruct Hs|]. cbn in *. lia.
Qed.

(** X23.  A result has fewer edges than nodes, unless it has neither:
    every edge comes with the node it leads to, and the first node
    emitted has no edge. *)
Theorem fewer_edges_than_nodes detectLanguage isLanguageSupported getParser
        schemaNameOf clock filePath source language :
  let r := extractFromSource detectLanguage isLanguageSupported getParser
             schemaNameOf clock filePath source language in
  List.length (Result.edges r) <= List.length (Result.nodes r) - 1.
Proof.
  cbv zeta. apply Linked_count, result_Linked.
Qed.

(* ===================================================================== *)
(** * Languages without an extraction policy                               *)
(* ===================================================================== *)




(* ===================================================================== *)
(** * The file node of a Liquid template                                   *)
(* ===================================================================== *)





Lemma splitOn_length (s : string) :
  List.length (JS.splitOn newline s) =
  newlinesBefore (String.length s) s + 1.
Proof.
  unfold newlinesBefore. induction s as [|ch s IH]; [reflexivity|].
  cbn [JS.splitOn String.length JS.chars list_ascii_of_string firstn
       filter].
  change (isNewline ch) with (Ascii.eqb newline ch).
  rewrite (Ascii.eqb_sym ch newline). unfold JS.chars in IH.
  destruct (Ascii.eqb newline ch); cbn [List.length].
  - rewrite IH. lia.
  - destruct (splitOn_cons newline s) as (x & xs & E). rewrite E in *.
    cbn [List.length] in *. lia.
Qed.

(** X26.  The file node of a Liquid template spans the whole source: it
    starts on line one and ends on the line of the end of the source,
    as [getLineNumber] counts lines. *)
Theorem file_node_spans_source filePath source clock schemaNameOf :
  exists file rest,
    Result.nodes
      (LiquidExtractor_extract filePath source clock schemaNameOf) =
    file :: rest /\
    Node.kind file = KFile /\ Node.startLine file = 1%Z /\
    Node.endLine file =
      Z.of_nat (getLineNumber source (String.length source)).
Proof.
  destruct (LiquidExtractor_extract_eq filePath source clock schemaNameOf)
    as (N & _). rewrite N. do 2 eexists. split; [reflexivity|].
  split; [reflexivity|]. split; [reflexivity|].
  unfold fileNodeAt, createFileNode, bind. cbn [fst snd Node.endLine].
  now rewrite splitOn_length, getLineNumber_eq.
Qed.

(* ===================================================================== *)
(** * The depth bound of the search for calls                              *)
(* ===================================================================== *)

Lemma visitForCalls_more_fuel source ex (f : nat) : forall node s,
  height (cst node) < f ->
  visitForCalls source f ex node s = visitForCalls source (S f) ex node s.
Proof.
  induction f as [|f IH]; intros node s H; [lia|].
  change (visitForCalls source (S f) ex node s)
    with (bind (when (includesType (callTypes ex) (nodeType node))
                     (extractCall source node))
               (fun _ => forEach (namedChildren node)
                           (visitForCalls source f ex)) s).
  change (visitForCalls source (S (S f)) ex node s)
    with (bind (when (includesType (callTypes ex) (nodeType node))
                     (extractCall source node))
               (fun _ => forEach (namedChildren node)
                           (visitForCalls source (S f) ex)) s).
  unfold bind. cbv zeta.
  generalize (snd (when (includesType (callTypes ex) (nodeType node))
                        (extractCall source node) s)) as s'.
  assert (G : forall l, incl l (namedChildren node) ->
              forall s', forEach l (visitForCalls source f ex) s' =
                         forEach l (visitForCalls source (S f) ex) s').
  { induction l as [|c l IHl]; intros Hl s'; [reflexivity|].
    cbn [forEach]. unfold bind. cbv zeta.
    rewrite (IH c s').
    - apply IHl. intros x Hx. apply Hl. now right.
    - assert (In c (namedChildren node)) as Hc by (apply Hl; now left).
      apply namedChildren_height in Hc. lia. }
  intros s'. apply G, incl_refl.
Qed.

(** X27.  The search for calls in a function body is bounded by the body
    alone: any two depth bounds above the height of the body give the
    same references. *)
Theorem call_search_fuel_irrelevant source ex node f1 f2 s :
  height (cst node) < f1 -> height (cst node) < f2 ->
  visitForCalls source f1 ex node s = visitForCalls source f2 ex node s.
Proof.
  assert (G : forall k, visitForCalls source (S (height (cst node)) + k)
                          ex node s =
                        visitForCalls source (S (height (cst node)))
                          ex node s).
  { induction k as [|k IH]; [now rewrite Nat.add_0_r|].
    rewrite <- IH, Nat.add_succ_r. symmetry.
    apply visitForCalls_more_fuel. lia. }
  intros H1 H2.
  replace f1 with (S (height (cst node)) + (f1 - S (height (cst node))))
    by lia.
  replace f2 with (S (height (cst node)) + (f2 - S (height (cst node))))
    by lia.
  now rewrite !G.
Qed.

Lemma call_search_fuel_irrelevant_witness :
  visitForCalls Examples.functionSource 6 Policy.typescript
    Examples.functionNode emptyState =
  visitForCalls Examples.functionSource 8 Policy.typescript
    Examples.functionNode emptyState.
Proof.
  apply (call_search_fuel_irrelevant Examples.functionSource
           Policy.typescript Examples.functionNode 6 8 emptyState);
    cbv; lia.
Defined.

(* ===================================================================== *)
(** * Parents come first                                                   *)
(* ===================================================================== *)

(** The source of [e] is emitted before a node that [e] leads to. *)
Definition parentFirst (ns : list Node.t) (e : Edge.t) : Prop :=
  exists before n after,
    ns = before ++ n :: after /\ Node.id n = Edge.target e /\
    In (Edge.source e) (ids before).

Lemma Linked_parentFirst (ns : list Node.t) (es : list Edge.t) :
  Linked ns es -> Forall (parentFirst ns) es.
Proof.
  induction 1 as [|ns es n L IH|ns es n src L IH Hs].
  - constructor.
  - eapply Forall_impl; [|exact IH].
    intros e (b & m & a & -> & Hm & Hb).
    exists b, m, (a ++ [n]). split; [|split; assumption].
    now rewrite <- app_assoc.
  - apply Forall_app. split.
    + eapply Forall_impl; [|exact IH].
      intros e (b & m & a & -> & Hm & Hb).
      exists b, m, (a ++ [n]). split; [|split; assumption].
      now rewrite <- app_assoc.
    + constructor; [|constructor].
      exists ns, n, []. split; [reflexivity|]. split; [reflexivity|exact Hs].
Qed.

(** X28.  In the list of nodes of a result a parent comes before its
    children: for every edge, a node with the identifier of the target
    is preceded by a node with the identifier of the source. *)
Theorem parents_precede_children detectLanguage isLanguageSupported
        getParser schemaNameOf clock filePath source language :
  let r := extractFromSource detectLanguage isLanguageSupported getParser
             schemaNameOf clock filePath source language in
  Forall (parentFirst (Result.nodes r)) (Result.edges r).
Proof.
  cbv zeta. apply Linked_parentFirst, result_Linked.
Qed.

(* ===================================================================== *)
(** * Lines of the nodes of a Liquid template                              *)
(* ===================================================================== *)

Lemma getLineNumber_mono (source : string) (i j : nat) :
  i <= j -> (Z.of_nat (getLineNumber source i) <=
             Z.of_nat (getLineNumber source j))%Z.
Proof.
  intros H. rewrite !getLineNumber_eq.
  pose proof (newlinesBefore_mono source i j H). lia.
Qed.

(** X29.  No node of the result for a Liquid template ends before the
    line it starts on: a tag node starts and ends on one line, a schema
    node ends on the line where its closing tag ends, and the file node
    spans the lines of the source. *)
Theorem liquid_lines_ordered filePath source clock schemaNameOf :
  Forall (fun n => (Node.startLine n <= Node.endLine n)%Z)
    (Result.nodes
       (LiquidExtractor_extract filePath source clock schemaNameOf)).
Proof.
  destruct (LiquidExtractor_extract_eq filePath source clock schemaNameOf)
    as (N & _). rewrite N. constructor.
  - change (Node.startLine (fileNodeAt filePath source (clock 1)))
      with 1%Z.
    change (Node.endLine (fileNodeAt filePath source (clock 1)))
      with (Z.of_nat (List.length (JS.splitOn newline source))).
    rewrite splitOn_length. lia.
  - unfold tagNodes. cbv zeta. rewrite !Forall_app.
    repeat split; apply Forall_stamped; intros m t;
      unfold snippetNode, sectionNode, schemaNode, assignNode, tagNode;
      cbn [Node.startLine Node.endLine]; try lia.
    apply getLineNumber_mono. lia.
Qed.
